(** * Claims Data Exporter: the resumable export pipeline

    A shallow embedding of the content script (CSV reader, claim fetcher,
    export driver) and of the popup's export assembler, with the properties
    of the pipeline proved over it.

    Conventions of the embedding:
    - JavaScript strings are [string]s of one-byte characters; the only
      white space [trim] knows is the ASCII white space (tab, line feed,
      vertical tab, form feed, carriage return, space), and [toLowerCase]
      folds the ASCII letters.
    - [Array.prototype.findIndex] returns [option nat], [None] standing for
      the sentinel [-1].
    - A thrown [Error] is its message: [Throw msg]. *)

From stdpp Require Import base option list strings gmap sets pretty.
From Stdlib Require Import Ascii String.
From Equations Require Import Equations.

Local Open Scope string_scope.
Local Open Scope list_scope.

Set Warnings "-clear-no-such-hyp,-register-all".

(** ** JavaScript string primitives *)

Module Js.

Definition dquote : ascii := ascii_of_nat 34.
Definition comma : ascii := ascii_of_nat 44.
Definition LF : ascii := ascii_of_nat 10.
Definition CR : ascii := ascii_of_nat 13.

(** The one-character string [c]. *)
Definition chr (c : ascii) : string := String c EmptyString.

(** White space removed by [String.prototype.trim], ASCII range. *)
Definition is_space (c : ascii) : bool :=
  let n := nat_of_ascii c in
  (Nat.leb 9 n && Nat.leb n 13) || Nat.eqb n 32.

Fixpoint trimStart (s : string) : string :=
  match s with
  | EmptyString => EmptyString
  | String c r => if is_space c then trimStart r else s
  end.

Fixpoint trimEnd (s : string) : string :=
  match s with
  | EmptyString => EmptyString
  | String c r =>
      match trimEnd r with
      | EmptyString => if is_space c then EmptyString else chr c
      | r' => String c r'
      end
  end.

Definition trim (s : string) : string := trimEnd (trimStart s).

Definition lower_char (c : ascii) : ascii :=
  let n := nat_of_ascii c in
  if Nat.leb 65 n && Nat.leb n 90 then ascii_of_nat (n + 32) else c.

Fixpoint toLowerCase (s : string) : string :=
  match s with
  | EmptyString => EmptyString
  | String c r => String (lower_char c) (toLowerCase r)
  end.

Fixpoint startsWith (s p : string) {struct p} : bool :=
  match p, s with
  | EmptyString, _ => true
  | String _ _, EmptyString => false
  | String a p', String b s' => Ascii.eqb a b && startsWith s' p'
  end.

(** [s.includes(p)]: [p] occurs in [s] as a substring. *)
Fixpoint includes (s p : string) : bool :=
  startsWith s p ||
  match s with
  | EmptyString => false
  | String _ s' => includes s' p
  end.

(** [a.join(sep)] on an array of strings. *)
Fixpoint join (sep : string) (a : list string) : string :=
  match a with
  | [] => EmptyString
  | [x] => x
  | x :: r => x +:+ sep +:+ join sep r
  end.

(** A string is truthy when it is not empty. *)
Definition nonempty (s : string) : bool :=
  match s with EmptyString => false | _ => true end.

Fixpoint findIndex {A} (p : A -> bool) (a : list A) : option nat :=
  match a with
  | [] => None
  | x :: r => if p x then Some 0 else S <$> findIndex p r
  end.



End Js.

(** ** Thrown errors *)

Inductive res (A : Type) : Type :=
| Ok (a : A)
| Throw (msg : string).
Arguments Ok {A} a.
Arguments Throw {A} msg.

Global Instance res_ret : MRet res := fun A a => Ok a.

Global Instance res_bind : MBind res := fun A B k m =>
  match m with
  | Ok a => k a
  | Throw e => Throw e
  end.

(** ** CSV reader *)

Module Csv.
Import Js.

(** State of the scan of [parseCsvRows]: the loop variables. *)
Record scan := Scan {
  rows : list (list string);
  currentRow : list string;
  currentField : string;
  inQuotes : bool
}.

Definition start : scan := Scan [] [] EmptyString false.

(** [currentRow.push(currentField.trim()); currentField = ''] *)
Definition endField (st : scan) : scan :=
  Scan (rows st) (currentRow st ++ [trim (currentField st)]) EmptyString (inQuotes st).

(** [if (currentRow.some(f => f.length > 0)) rows.push(currentRow)] *)
Definition pushRow (rws : list (list string)) (row : list string) : list (list string) :=
  if existsb nonempty row then rws ++ [row] else rws.

Definition endRow (st : scan) : scan :=
  let st' := endField st in
  Scan (pushRow (rows st') (currentRow st')) [] EmptyString (inQuotes st').

Definition addChar (c : ascii) (st : scan) : scan :=
  Scan (rows st) (currentRow st) (currentField st +:+ chr c) (inQuotes st).

Definition setQuotes (b : bool) (st : scan) : scan :=
  Scan (rows st) (currentRow st) (currentField st) b.

(** The [for] loop of [parseCsvRows]; the extra [i++] of the source is the
    recursive call on the tail of the tail. *)
Fixpoint scanText (csvText : string) (st : scan) {struct csvText} : scan :=
  match csvText with
  | EmptyString => st
  | String char rest =>
      if inQuotes st then
        if Ascii.eqb char dquote then
          match rest with
          | String next rest' =>
              if Ascii.eqb next dquote
              then scanText rest' (addChar dquote st)
              else scanText rest (setQuotes false st)
          | EmptyString => scanText rest (setQuotes false st)
          end
        else scanText rest (addChar char st)
      else
        if Ascii.eqb char dquote then scanText rest (setQuotes true st)
        else if Ascii.eqb char comma then scanText rest (endField st)
        else if Ascii.eqb char LF then scanText rest (endRow st)
        else if Ascii.eqb char CR then
          match rest with
          | String next rest' =>
              if Ascii.eqb next LF
              then scanText rest' (endRow st)
              else scanText rest (addChar char st)
          | EmptyString => scanText rest (addChar char st)
          end
        else scanText rest (addChar char st)
  end.

Definition parseCsvRows (csvText : string) : list (list string) :=
  let st := scanText csvText start in
  rows (endRow st).

(** One entry of the list [parseCsv] returns: [{fileNumber, rowIndex}]. *)
Record claim := Claim { fileNumber : string; rowIndex : nat }.

Definition exactNames : list string :=
  ["file number"; "file #"; "file#"; "filenumber";
   "claim number"; "claim #"; "claim#"; "claimnumber"].

Definition excludePatterns : list string :=
  ["profile"; "filed"; "filename"; "claim status"; "claim type"; "claim date"].

(** [exactNames.includes(x)] on an array of strings. *)
Definition includesStr (a : list string) (x : string) : bool :=
  existsb (String.eqb x) a.

(** The three predicates handed to [headers.findIndex]. *)
Definition tier1 (h : string) : bool :=
  includesStr exactNames (trim (toLowerCase h)).

Definition tier2 (h : string) : bool :=
  let lower := trim (toLowerCase h) in
  (startsWith lower "file" || startsWith lower "claim") &&
  (includes lower "number" || includes lower "#" || includes lower "no").

Definition tier3 (h : string) : bool :=
  let lower := trim (toLowerCase h) in
  if existsb (fun ex => includes lower ex) excludePatterns then false
  else includes lower "file" || includes lower "claim".

(** [fileNumberIndex] after the three attempts. *)
Definition selectColumn (headers : list string) : option nat :=
  match findIndex tier1 headers with
  | Some i => Some i
  | None =>
      match findIndex tier2 headers with
      | Some i => Some i
      | None => findIndex tier3 headers
      end
  end.

(** Loop variables of the extraction loop of [parseCsv]. *)
Record extract := Extract {
  seen : gset string;
  claims : list claim;
  skippedBadRows : nat
}.

(** One iteration of [for (let i = 1; i < rows.length; i++)]. *)
Definition extractRow (fileNumberIndex i : nat) (values : list string) (st : extract) : extract :=
  if decide (List.length values < fileNumberIndex + 1) then
    Extract (seen st) (claims st) (S (skippedBadRows st))
  else
    match values !! fileNumberIndex with
    | Some fileNumber =>
        if nonempty fileNumber && negb (bool_decide (fileNumber ∈ seen st)) then
          Extract ({[fileNumber]} ∪ seen st)
                  (claims st ++ [Claim fileNumber i])
                  (skippedBadRows st)
        else st
    | None => st
    end.

Fixpoint extractFrom (fileNumberIndex i : nat) (data : list (list string)) (st : extract) : extract :=
  match data with
  | [] => st
  | values :: rest =>
      extractFrom fileNumberIndex (S i) rest (extractRow fileNumberIndex i values st)
  end.

Definition emptyMessage : string := "CSV file is empty or invalid".

Definition missingColumnMessage (headers : list string) : string :=
  "Could not find claim/file number column in CSV. Headers found: " +:+ join ", " headers.

(** [parseCsv] on the rows of the tokenizer, with the malformed-row counter
    it only logs. *)
Definition parseRows (rws : list (list string)) : res extract :=
  match rws with
  | headers :: ((_ :: _) as data) =>
      match selectColumn headers with
      | None => Throw (missingColumnMessage headers)
      | Some fileNumberIndex =>
          Ok (extractFrom fileNumberIndex 1 data (Extract ∅ [] 0))
      end
  | _ => Throw emptyMessage
  end.

Definition parseCsv (csvText : string) : res (list claim) :=
  st ← parseRows (parseCsvRows csvText); mret (claims st).

(** *** Notions used to state the properties of the reader *)





(** The text of the specification's example, quotes written out. *)
Definition quoted (s : string) : string := chr dquote +:+ s +:+ chr dquote.



(** The values found at the selected column, in row order, each with the
    index of its row; rows too short to have the column contribute none. *)
Fixpoint columnValues (fileNumberIndex i : nat) (data : list (list string)) : list claim :=
  match data with
  | [] => []
  | values :: rest =>
      match values !! fileNumberIndex with
      | Some v => Claim v i :: columnValues fileNumberIndex (S i) rest
      | None => columnValues fileNumberIndex (S i) rest
      end
  end.

(** In the words of the specification: the first occurrence of each
    distinct value is kept, in the original order, and later occurrences are
    dropped. [earlier] holds the values met so far. *)
Fixpoint firstOccurrences (l : list claim) (earlier : list string) : list claim :=
  match l with
  | [] => []
  | c :: r =>
      if decide (fileNumber c ∈ earlier) then firstOccurrences r earlier
      else c :: firstOccurrences r (fileNumber c :: earlier)
  end.

(** The rows counted as malformed: those without the selected column. *)
Definition malformed (fileNumberIndex : nat) (data : list (list string)) : nat :=
  List.length (filter (fun values : list string => List.length values < fileNumberIndex + 1) data).

(** A file whose first data row has an empty value at the selected column. *)
Definition blank_value_csv : string :=
  "file #,name" +:+ chr LF +:+ ",Ann" +:+ chr LF +:+ "7,Bob".

End Csv.


(** ** JavaScript values

    The values that travel through the fetcher, the store and the
    assembler: what [JSON.parse] can produce, and [undefined]. Numbers are
    the integers. An object is the list of its properties in insertion
    order, each key once. *)

Module JsVal.
Import Js.

Inductive js : Type :=
| JUndefined
| JNull
| JBool (b : bool)
| JNum (n : Z)
| JStr (s : string)
| JArr (a : list js)
| JObj (o : list (string * js)).

(** [ToBoolean]. *)
Definition truthy (v : js) : bool :=
  match v with
  | JUndefined | JNull => false
  | JBool b => b
  | JNum n => negb (Z.eqb n 0)
  | JStr s => nonempty s
  | JArr _ | JObj _ => true
  end.

Definition isArray (v : js) : bool :=
  match v with JArr _ => true | _ => false end.

(** [a || b] *)
Definition or_else (a b : js) : js := if truthy a then a else b.

Fixpoint lookupProp (o : list (string * js)) (k : string) : js :=
  match o with
  | [] => JUndefined
  | (k', v) :: r => if String.eqb k k' then v else lookupProp r k
  end.

Definition typeError (what k : string) : string :=
  "Cannot read properties of " +:+ what +:+ " (reading '" +:+ k +:+ "')".

(** [v.k] for a property name [k]; only [length] is looked up beyond the
    own properties. *)
Definition getProp (v : js) (k : string) : res js :=
  match v with
  | JUndefined => Throw (typeError "undefined" k)
  | JNull => Throw (typeError "null" k)
  | JObj o => Ok (lookupProp o k)
  | JArr a => Ok (if String.eqb k "length" then JNum (Z.of_nat (List.length a))
                  else JUndefined)
  | JStr s => Ok (if String.eqb k "length" then JNum (Z.of_nat (String.length s))
                  else JUndefined)
  | JBool _ | JNum _ => Ok JUndefined
  end.

(** [v?.k] *)
Definition getPropOpt (v : js) (k : string) : js :=
  match getProp v k with
  | Ok x => x
  | Throw _ => JUndefined
  end.

(** [v[i]] for an index [i]. *)
Definition getIndex (v : js) (i : nat) : res js :=
  match v with
  | JUndefined => Throw (typeError "undefined" (pretty i))
  | JNull => Throw (typeError "null" (pretty i))
  | JObj o => Ok (lookupProp o (pretty i))
  | JArr a => Ok (default JUndefined (a !! i))
  | JStr s => Ok (match String.get i s with
                  | Some c => JStr (chr c)
                  | None => JUndefined
                  end)
  | JBool _ | JNum _ => Ok JUndefined
  end.

(** [o.k = v] on the property list of an object. *)
Fixpoint setProp (o : list (string * js)) (k : string) (v : js) : list (string * js) :=
  match o with
  | [] => [(k, v)]
  | (k', v') :: r =>
      if String.eqb k k' then (k, v) :: r else (k', v') :: setProp r k v
  end.

(** [String(v)], the conversion of a template literal. *)
Fixpoint toStr (v : js) : string :=
  match v with
  | JUndefined => "undefined"
  | JNull => "null"
  | JBool true => "true"
  | JBool false => "false"
  | JNum n => pretty n
  | JStr s => s
  | JArr a =>
      join "," (map (fun x => match x with
                              | JUndefined | JNull => EmptyString
                              | _ => toStr x
                              end) a)
  | JObj _ => "[object Object]"
  end.

(** [a === b] against a string constant. *)
Definition strictEqStr (v : js) (s : string) : bool :=
  match v with JStr t => String.eqb t s | _ => false end.

Definition strictEqNum (v : js) (n : Z) : bool :=
  match v with JNum m => Z.eqb m n | _ => false end.

End JsVal.

(** ** Claim fetcher

    The remote service is a [World]: what the search endpoint answers to a
    file number and what a GET answers to an endpoint (the cache-busting
    query parameter left out of the key). The pacing [sleep]s have no
    effect on values and are not modelled. *)

Module Fetcher.
Import Js JsVal Csv.

(** The outcome of [fetch(url)] followed by [response.json()]. *)
Inductive response : Type :=
| Rejected (msg : string)
| Responded (ok : bool) (status : nat) (statusText : string) (body : res js).

Record World := {
  search : string -> response;
  get : string -> response
}.

Definition fetchApi (w : World) (endpoint : string) : res js :=
  match get w endpoint with
  | Rejected msg => Throw msg
  | Responded ok status statusText body =>
      if negb ok
      then Throw ("API call failed: " +:+ pretty status +:+ " " +:+ statusText)
      else body
  end.

Definition maxDepth : nat := 5.

Definition filesEndpoint (claimId folderKey : js) : string :=
  let folderPath :=
    if truthy folderKey then "tree/" +:+ toStr folderKey else "tree" in
  "/api/claim/" +:+ toStr claimId +:+ "/files/" +:+ folderPath +:+ "?th=n".

(** [item.folder && item.hasChildren && item.key && item.key !== 'ATTACHMENTS'] *)
Definition isOpenFolder (item : js) : res bool :=
  folder ← getProp item "folder";
  if truthy folder then
    hasChildren ← getProp item "hasChildren";
    if truthy hasChildren then
      key ← getProp item "key";
      if truthy key then
        key' ← getProp item "key";
        mret (negb (strictEqStr key' "ATTACHMENTS"))
      else mret false
    else mret false
  else mret false.

(** [!item.folder && item.filename] *)
Definition isFile (item : js) : res bool :=
  folder ← getProp item "folder";
  if truthy folder then mret false
  else filename ← getProp item "filename"; mret (truthy filename).

(** A call of [fetchAllFiles]: its folder key and its depth. *)
Definition call : Type := js * nat.

(** The [for (const item of filesResponse)] loop. [recurse] is the
    recursive call on a folder key; the calls made are logged next to the
    result, also when an access throws. *)
Fixpoint collectFiles (recurse : js -> list js * list call) (items : list js)
    (allFiles : list js) (log : list call) : res (list js) * list call :=
  match items with
  | [] => (Ok allFiles, log)
  | item :: rest =>
      match isOpenFolder item with
      | Throw e => (Throw e, log)
      | Ok true =>
          match getProp item "key" with
          | Throw e => (Throw e, log)
          | Ok key =>
              let '(folderFiles, calls) := recurse key in
              collectFiles recurse rest (allFiles ++ folderFiles) (log ++ calls)
          end
      | Ok false =>
          match isFile item with
          | Throw e => (Throw e, log)
          | Ok true => collectFiles recurse rest (allFiles ++ [item]) log
          | Ok false => collectFiles recurse rest allFiles log
          end
      end
  end.

(** [try { ... } catch (error) { return []; }] *)
Definition orEmpty (r : res (list js) * list call) : list js * list call :=
  match r with
  | (Ok files, log) => (files, log)
  | (Throw _, log) => ([], log)
  end.

Equations? fetchAllFiles (w : World) (claimId folderKey : js) (depth : nat)
    : list js * list call by wf (maxDepth + 1 - depth) lt :=
  fetchAllFiles w claimId folderKey depth with decide (maxDepth < depth) := {
    | left _ => ([], [(folderKey, depth)]);
    | right _ =>
        match fetchApi w (filesEndpoint claimId folderKey) with
        | Throw _ => ([], [(folderKey, depth)])
        | Ok (JArr filesResponse) =>
            orEmpty (collectFiles
                       (fun key => fetchAllFiles w claimId key (depth + 1))
                       filesResponse [] [(folderKey, depth)])
        | Ok _ => ([], [(folderKey, depth)])
        end }.
Proof. unfold maxDepth in *. lia. Qed.

(** [!searchData || !searchData.Claims || searchData.Claims.length === 0] *)
Definition claimNotFound (searchData : js) : res bool :=
  if negb (truthy searchData) then mret true
  else
    Claims ← getProp searchData "Claims";
    if negb (truthy Claims) then mret true
    else len ← getProp Claims "length"; mret (strictEqNum len 0).

(** The object pushed for [fullDetails.propcontacts.c]. *)
Definition primaryContact (primary : js) : res js :=
  id ← getProp primary "id";
  uuid ← getProp primary "uuid";
  firstName ← getProp primary "firstName";
  lastName ← getProp primary "lastName";
  email ← getProp primary "email";
  preferredPhone ← getProp primary "preferredPhone";
  phone ← getProp primary "phone";
  address ← getProp primary "address";
  mret (JObj [("id", id); ("uuid", uuid);
              ("firstName", or_else firstName (JStr EmptyString));
              ("lastName", or_else lastName (JStr EmptyString));
              ("email", or_else email (JStr EmptyString));
              ("phone", or_else (getPropOpt preferredPhone "number")
                          (or_else (getPropOpt phone "number") (JStr EmptyString)));
              ("address", address);
              ("isPrimary", JBool true)]).

(** The object pushed for one element of [fullDetails.propcontacts.cc]. *)
Definition secondaryContact (contact : js) : res js :=
  id ← getProp contact "id";
  uuid ← getProp contact "uuid";
  uniqueID ← getProp contact "uniqueID";
  firstName ← getProp contact "firstName";
  name ← getProp contact "name";
  lastName ← getProp contact "lastName";
  email ← getProp contact "email";
  preferredPhone ← getProp contact "preferredPhone";
  physicalAddress ← getProp contact "physicalAddress";
  mret (JObj [("id", id); ("uuid", or_else uuid uniqueID);
              ("firstName", or_else firstName
                              (or_else (getPropOpt name "firstName") (JStr EmptyString)));
              ("lastName", or_else lastName
                             (or_else (getPropOpt name "lastName") (JStr EmptyString)));
              ("email", or_else email (JStr EmptyString));
              ("phone", or_else (getPropOpt preferredPhone "number") (JStr EmptyString));
              ("address", physicalAddress);
              ("isPrimary", JBool false)]).

(** [cc.forEach(contact => contacts.push({...}))] *)
Fixpoint pushSecondary (cc contacts : list js) : res (list js) :=
  match cc with
  | [] => mret contacts
  | contact :: rest =>
      c ← secondaryContact contact;
      pushSecondary rest (contacts ++ [c])
  end.

(** The block [if (fullDetails.propcontacts) { ... }]. *)
Definition extractContacts (propcontacts : js) (claimResult : list (string * js))
    : res (list (string * js)) :=
  if truthy propcontacts then
    c ← getProp propcontacts "c";
    contacts ← (if truthy c then p ← primaryContact c; mret [p] else mret []);
    cc ← getProp propcontacts "cc";
    contacts' ← (match cc with
                 | JArr l => pushSecondary l contacts
                 | _ => mret contacts
                 end);
    mret (setProp claimResult "contacts" (JArr contacts'))
  else mret claimResult.

(** Step 2, the block [if (fullDetails) { ... }]. *)
Definition mergeFullDetails (fullDetails : js) (claimResult : list (string * js))
    : res (list (string * js)) :=
  if truthy fullDetails then
    let r1 := setProp claimResult "fullClaimData" fullDetails in
    propcontacts ← getProp fullDetails "propcontacts";
    r2 ← extractContacts propcontacts r1;
    personnel ← getProp fullDetails "personnel";
    let r3 := if truthy personnel then setProp r2 "personnel" personnel else r2 in
    phases ← getProp fullDetails "phases";
    mret (if truthy phases then setProp r3 "phases" phases else r3)
  else mret claimResult.

(** One settled promise of [Promise.allSettled]: [Ok] is fulfilled,
    [Throw] is rejected. The guards of step 3 read [value] of the fulfilled
    ones only. *)
Definition fulfilled (r : res js) : js :=
  match r with Ok v => v | Throw _ => JUndefined end.

Definition mergeInsurance (r : res js) (claimResult : list (string * js)) :=
  let insurance := getPropOpt (getPropOpt (fulfilled r) "data") "insurance" in
  if truthy insurance then setProp claimResult "insurance" insurance else claimResult.

(** The guard [Array.isArray(result.value)] and the assignment to [k]. *)
Definition mergeArray (k : string) (r : res js) (claimResult : list (string * js)) :=
  if isArray (fulfilled r) then setProp claimResult k (fulfilled r) else claimResult.

Definition mergeLedger (r : res js) (claimResult : list (string * js)) :=
  let ledger := getPropOpt (fulfilled r) "ledger" in
  if truthy ledger then
    let r1 := setProp claimResult "ledger" ledger in
    let r2 := setProp r1 "ledgerNotes"
                (or_else (getPropOpt (fulfilled r) "notes") (JArr [])) in
    setProp r2 "ledgerInvoices"
      (or_else (getPropOpt (fulfilled r) "invoices") (JArr []))
  else claimResult.

(** The entry of [claimResult.files] made of one collected file. *)
Definition fileEntry (claimUuid file : js) : js :=
  JObj [("title", getPropOpt file "title");
        ("filename", getPropOpt file "filename");
        ("key", getPropOpt file "key");
        ("folder", JBool false);
        ("size", getPropOpt file "size");
        ("fileDate", getPropOpt file "fileDate");
        ("description", getPropOpt file "description");
        ("downloadUrl",
         JStr ("https://app.claimwizard.com/api/claim/" +:+ toStr claimUuid +:+
               "/file/" +:+ toStr (getPropOpt file "key") +:+ "/?_vw=inline"))].

Definition mergeFiles (claimUuid : js) (files : list js) (claimResult : list (string * js)) :=
  if decide (0 < List.length files)
  then setProp claimResult "files" (JArr (map (fileEntry claimUuid) files))
  else claimResult.

Definition mergeActivity (r : res js) (claimResult : list (string * js)) :=
  let activity := getPropOpt (getPropOpt (fulfilled r) "data") "activity" in
  if truthy activity && isArray activity
  then setProp claimResult "activity" activity else claimResult.

(** Step 3: the eight results, merged in the order of the source. *)
Definition fanOut (w : World) (claimId claimUuid : js) (claimResult : list (string * js))
    : list (string * js) :=
  let id := toStr claimId in
  let uuid := toStr claimUuid in
  let insuranceResult := fetchApi w ("/api/claim/" +:+ id +:+ "/insurance") in
  let mortgagesResult := fetchApi w ("/api/claim/" +:+ id +:+ "/mortgages/") in
  let externalResult := fetchApi w ("/api/claim/" +:+ id +:+ "/personnel/external/1?ip=1") in
  let actionsResult := fetchApi w ("/api/actions/1/" +:+ uuid) in
  let ledgerResult := fetchApi w ("/api/claim/" +:+ id +:+ "/ledger") in
  let filesResult := fst (fetchAllFiles w claimId JNull 0) in
  let notesResult := fetchApi w ("/api/claim/" +:+ id +:+ "/notes") in
  let activityResult :=
    fetchApi w ("/api/claim/" +:+ uuid +:+
                "/activity?sc_u=0&sc_e=0&sc_c=0&sc_pub=0&sc_prv=0&sc_s=0&sc_cus=0&sc_t=0") in
  let r1 := mergeInsurance insuranceResult claimResult in
  let r2 := mergeArray "mortgages" mortgagesResult r1 in
  let r3 := mergeArray "externalPersonnel" externalResult r2 in
  let r4 := mergeArray "actionItems" actionsResult r3 in
  let r5 := mergeLedger ledgerResult r4 in
  let r6 := mergeFiles claimUuid filesResult r5 in
  let r7 := mergeArray "notes" notesResult r6 in
  mergeActivity activityResult r7.

Definition fetchClaimDetails (w : World) (c : claim) : res js :=
  let fileNumber := fileNumber c in
  match search w fileNumber with
  | Rejected msg => Throw msg
  | Responded ok status _ body =>
      if negb ok then Throw ("Search failed: " +:+ pretty status)
      else
        searchData ← body;
        notFound ← claimNotFound searchData;
        if (notFound : bool) then Throw ("Claim not found: " +:+ fileNumber)
        else
          Claims ← getProp searchData "Claims";
          claimInfo ← getIndex Claims 0;
          claimId ← getProp claimInfo "id";
          claimUuid ← getProp claimInfo "uuid";
          let claimResult :=
            [("fileNumber", JStr fileNumber); ("claimId", claimId);
             ("claimUuid", claimUuid); ("claimDetails", claimInfo)] in
          fullDetails ← fetchApi w ("/api/claim/" +:+ toStr claimUuid);
          r ← mergeFullDetails fullDetails claimResult;
          mret (JObj (fanOut w claimId claimUuid r))
  end.

(** *** Notions and sample services used to state the properties *)

Definition okJson (v : js) : response := Responded true 200 "OK" (Ok v).

(** A service whose search answers with status 500. *)
Definition refusingWorld : World :=
  {| search := fun _ => Responded false 500 "Internal Server Error" (Ok JNull);
     get := fun _ => Rejected "Failed to fetch" |}.

Definition folderF : js :=
  JObj [("folder", JBool true); ("hasChildren", JBool true); ("key", JStr "F")].

Definition fileNamed (name key : string) : js :=
  JObj [("filename", JStr name); ("key", JStr key)].

(** A service with one claim, file number A1, whose folder F lists itself:
    a cyclic tree. Every fan-out call but the file listing and the notes
    fails. *)
Definition cyclicWorld : World :=
  {| search := fun fn =>
       if String.eqb fn "A1"
       then okJson (JObj [("Claims", JArr [JObj [("id", JNum 1); ("uuid", JStr "u1")]])])
       else okJson (JObj [("Claims", JArr [])]);
     get := fun endpoint =>
       if String.eqb endpoint "/api/claim/u1"
       then okJson (JObj [("personnel", JArr [JStr "adjuster"])])
       else if String.eqb endpoint "/api/claim/1/files/tree?th=n"
       then okJson (JArr [folderF; fileNamed "a.pdf" "k1"])
       else if String.eqb endpoint "/api/claim/1/files/tree/F?th=n"
       then okJson (JArr [folderF; fileNamed "b.pdf" "k2"])
       else if String.eqb endpoint "/api/claim/1/notes"
       then okJson (JArr [JStr "called"])
       else Rejected "Failed to fetch" |}.

(** A later call [(k, d)] of a walk entered at [depth]: a descent, into a
    folder with a key other than the reserved one. *)
Definition descent (depth : nat) (c : call) : Prop :=
  depth < c.2 <= maxDepth + 1 /\ truthy c.1 = true /\ c.1 <> JStr "ATTACHMENTS".

End Fetcher.

(** ** Export driver and job ledger

    [chrome.storage.local] is a record with one field for each key the
    extension uses; the keys [exportedClaim_<i>] are the map
    [exportedClaim], indexed by [i]. A [set] takes effect when it is issued
    and always succeeds. One driver runs at a time.
    The time stamps ([exportProgress.timestamp], [exportJob.startedAt]) are
    left out: the clock is not modelled and nothing below reads them.
    Messages to the popup ([safeSendMessage]) change nothing in the store
    and are left out as well. *)

Module Driver.
Import Js JsVal Csv Fetcher.

Record job := Job {
  fileNumbers : list string;
  total : nat;
  completedCount : nat;
  testMode : bool
}.

Record progress := Progress {
  current : nat;
  progressTotal : nat;
  status : string
}.

Record storage := Storage {
  exportJob : option job;
  exportProgress : option progress;
  exportComplete : bool;
  exportError : option string;
  exportedClaim : gmap nat js
}.

Definition emptyStorage : storage := Storage None None false None ∅.

Definition saveProgress (current total : nat) (status : string) (s : storage) : storage :=
  Storage (exportJob s) (Some (Progress current total status))
          (exportComplete s) (exportError s) (exportedClaim s).

Definition saveClaimToStorage (index : nat) (claimData : js) (s : storage) : storage :=
  Storage (exportJob s) (exportProgress s) (exportComplete s) (exportError s)
          (<[index := claimData]> (exportedClaim s)).

Definition setJob (j : job) (s : storage) : storage :=
  Storage (Some j) (exportProgress s) (exportComplete s) (exportError s)
          (exportedClaim s).

(** The callback of [chrome.storage.local.get(['exportJob'], ...)] in the
    loop, for the claim at index [i]. *)
Definition updateCompletedCount (i : nat) (s : storage) : storage :=
  match exportJob s with
  | Some j => setJob (Job (fileNumbers j) (total j) (i + 1) (testMode j)) s
  | None => s
  end.

(** The [catch] blocks of [processCsvAndFetchData] and [resumeExport]. *)
Definition reportError (msg : string) (s : storage) : storage :=
  Storage (exportJob s) None (exportComplete s) (Some msg) (exportedClaim s).

(** The end of [processClaimsList]. *)
Definition markComplete (total : nat) (s : storage) : storage :=
  let s' := saveProgress total total "Complete!" s in
  Storage (exportJob s') None true (exportError s') (exportedClaim s').

(** [chrome.storage.local.remove(['exportComplete', 'exportProgress',
    'exportError'])] of the message listener. *)
Definition clearPrevious (s : storage) : storage :=
  Storage (exportJob s) None false None (exportedClaim s).

(** [{ ...claim, error: error.message }] *)
Definition errorRecord (c : claim) (msg : string) : js :=
  JObj [("fileNumber", JStr (fileNumber c));
        ("rowIndex", JNum (Z.of_nat (rowIndex c)));
        ("error", JStr msg)].

(** The [try]/[catch] around [fetchClaimDetails] in the loop. *)
Definition claimDataFor (w : World) (c : claim) : js :=
  match fetchClaimDetails w c with
  | Ok claimData => claimData
  | Throw msg => errorRecord c msg
  end.

Definition startStatus (startFrom : nat) : string :=
  if decide (0 < startFrom) then "Resuming..." else "Starting...".

Definition processingStatus (c : claim) : string :=
  "Processing " +:+ fileNumber c +:+ "...".

(** [claimsToProcess[i]]; the loop only reads indices below the length. *)
Definition claimAt (claimsToProcess : list claim) (i : nat) : claim :=
  default (Claim EmptyString 0) (claimsToProcess !! i).

(** *** The run to completion

    One iteration of the loop of [processClaimsList], the ledger callback
    run as soon as the record is saved; next to the store, the log of the
    indices [fetchClaimDetails] was called for. *)
Definition iteration (w : World) (claimsToProcess : list claim) (i : nat)
    (acc : storage * list nat) : storage * list nat :=
  let '(s, log) := acc in
  let c := claimAt claimsToProcess i in
  let s1 := saveProgress (i + 1) (List.length claimsToProcess) (processingStatus c) s in
  let claimData := claimDataFor w c in
  let s2 := saveClaimToStorage i claimData s1 in
  (updateCompletedCount i s2, log ++ [i]).

Definition processClaimsList (w : World) (claimsToProcess : list claim)
    (startFrom : nat) (s : storage) : storage * list nat :=
  let total := List.length claimsToProcess in
  let s0 := saveProgress startFrom total (startStatus startFrom) s in
  let '(s1, log) :=
    foldl (fun acc i => iteration w claimsToProcess i acc) (s0, [])
          (seq startFrom (total - startFrom)) in
  (markComplete total s1, log).

Definition newJob (claimsToProcess : list claim) (testMode : bool) : job :=
  Job (map fileNumber claimsToProcess) (List.length claimsToProcess) 0 testMode.

(** [testMode ? claims.slice(0, 1) : claims] *)
Definition claimsToProcess (claims : list claim) (testMode : bool) : list claim :=
  if testMode then take 1 claims else claims.

Definition noClaimsMessage : string := "No claims found in CSV".
Definition noJobMessage : string := "No export job found to resume".

(** What [processCsvAndFetchData] starts with: the claims to process, or
    the message of the error thrown before the job is saved. *)
Definition prepare (csvText : string) (testMode : bool) : res (list claim) :=
  claims ← parseCsv csvText;
  if decide (List.length claims = 0) then Throw noClaimsMessage
  else mret (claimsToProcess claims testMode).

Definition processCsvAndFetchData (w : World) (csvText : string) (testMode : bool)
    (s : storage) : storage * list nat :=
  match prepare csvText testMode with
  | Throw msg => (reportError msg s, [])
  | Ok toProcess => processClaimsList w toProcess 0 (setJob (newJob toProcess testMode) s)
  end.

(** [job.fileNumbers.map((fn, i) => ({ fileNumber: fn, rowIndex: i }))] *)
Definition rebuildClaims (fns : list string) : list claim :=
  imap (fun i fn => Claim fn i) fns.

Definition resumeExport (w : World) (s : storage) : storage * list nat :=
  match exportJob s with
  | None => (reportError noJobMessage s, [])
  | Some j => processClaimsList w (rebuildClaims (fileNumbers j)) (completedCount j) s
  end.

(** *** The run with its suspension points

    The driver stops at each [await]; between two of them it runs without
    interleaving. The callbacks of the ledger update are queued and run
    later, oldest first. Closing the page stops the driver wherever it is
    and discards the queued callbacks. [fetched] logs the indices for which
    [fetchClaimDetails] has been called. *)
Inductive control : Type :=
| Stopped
| Persisting (claimsToProcess : list claim)
| Loading
| Fetching (claimsToProcess : list claim) (i : nat)
| Saving (claimsToProcess : list claim) (i : nat)
| Sleeping (claimsToProcess : list claim) (i : nat).

Record state := State {
  store : storage;
  at_ : control;
  pending : list nat;
  fetched : list nat
}.

(** The head of the loop at index [i]: either the next iteration begins and
    stops at [await fetchClaimDetails], or the loop is over. *)
Definition enterLoop (claimsToProcess : list claim) (i : nat) (st : state) : state :=
  let total := List.length claimsToProcess in
  if decide (i < total) then
    State (saveProgress (i + 1) total
             (processingStatus (claimAt claimsToProcess i)) (store st))
          (Fetching claimsToProcess i) (pending st) (fetched st ++ [i])
  else
    State (markComplete total (store st)) Stopped (pending st) (fetched st).

Definition enterProcessClaimsList (claimsToProcess : list claim) (startFrom : nat)
    (st : state) : state :=
  enterLoop claimsToProcess startFrom
    (State (saveProgress startFrom (List.length claimsToProcess)
              (startStatus startFrom) (store st))
           (at_ st) (pending st) (fetched st)).

(** The driver runs from the [await] it stands at to the next. *)
Definition resume_await (w : World) (st : state) : state :=
  match at_ st with
  | Stopped => st
  | Persisting claimsToProcess => enterProcessClaimsList claimsToProcess 0 st
  | Loading =>
      match exportJob (store st) with
      | None => State (reportError noJobMessage (store st)) Stopped (pending st) (fetched st)
      | Some j =>
          enterProcessClaimsList (rebuildClaims (fileNumbers j)) (completedCount j) st
      end
  | Fetching claimsToProcess i =>
      let claimData := claimDataFor w (claimAt claimsToProcess i) in
      State (saveClaimToStorage i claimData (store st))
            (Saving claimsToProcess i) (pending st) (fetched st)
  | Saving claimsToProcess i =>
      let st' := State (store st) (at_ st) (pending st ++ [i]) (fetched st) in
      if decide (i < List.length claimsToProcess - 1)
      then State (store st') (Sleeping claimsToProcess i) (pending st') (fetched st')
      else enterLoop claimsToProcess (i + 1) st'
  | Sleeping claimsToProcess i => enterLoop claimsToProcess (i + 1) st
  end.

(** The message [processCsv] arrives. *)
Definition startExport (csvText : string) (testMode : bool) (s : storage) : state :=
  let s' := clearPrevious s in
  match prepare csvText testMode with
  | Throw msg => State (reportError msg s') Stopped [] []
  | Ok toProcess =>
      State (setJob (newJob toProcess testMode) s') (Persisting toProcess) [] []
  end.

Inductive step (w : World) : state -> state -> Prop :=
| step_driver st :
    at_ st <> Stopped -> step w st (resume_await w st)
| step_callback st i rest :
    pending st = i :: rest ->
    step w st (State (updateCompletedCount i (store st)) (at_ st) rest (fetched st))
| step_page_closed st :
    step w st (State (store st) Stopped [] (fetched st))
| step_resume st :
    at_ st = Stopped ->
    step w st (State (store st) Loading (pending st) (fetched st)).

(** The states a run of the export of [csvText] can be in, started on a
    store without claim records. *)
Definition reachable (w : World) (csvText : string) (testMode : bool) (st : state) : Prop :=
  rtc (step w) (startExport csvText testMode emptyStorage) st.

(** The ledger with its counter set to [n]. *)
Definition withCount (n : nat) (j : job) : job :=
  Job (fileNumbers j) (total j) n (testMode j).

(** The keys [exportedClaim_<i>] present in the store. *)
Definition storedKeys (s : storage) : gset nat := dom (exportedClaim s).


(** What the driver may stand at, for a job of [N] claims whose stored
    keys are the indices below [m]. *)
Definition control_ok (N m : nat) (c : control) : Prop :=
  match c with
  | Stopped | Loading => True
  | Persisting claimsToProcess => List.length claimsToProcess = N
  | Fetching claimsToProcess i =>
      List.length claimsToProcess = N /\ i < N /\ i <= m
  | Saving claimsToProcess i | Sleeping claimsToProcess i =>
      List.length claimsToProcess = N /\ i < N /\ i < m
  end.

(** The invariant of the run: the stored keys are the indices below some
    [m], the counter of the ledger is at most [m], and every queued
    callback is for a stored record. *)
Definition ledger_inv (st : state) : Prop :=
  exists m,
    storedKeys (store st) = set_seq 0 m /\
    Forall (fun i => i < m) (pending st) /\
    match exportJob (store st) with
    | Some j =>
        List.length (fileNumbers j) = total j /\
        completedCount j <= m <= total j /\
        control_ok (total j) m (at_ st)
    | None => m = 0 /\ (at_ st = Stopped \/ at_ st = Loading)
    end.

(** A file of two identifiers, and the state of its export when the page
    is closed while the first record is being saved. *)
Definition two_claims_csv : string :=
  "Claim #" +:+ chr LF +:+ "A1" +:+ chr LF +:+ "B2".

Definition closed_while_saving : state :=
  let st0 := startExport two_claims_csv false emptyStorage in
  let st1 := resume_await refusingWorld st0 in
  let st2 := resume_await refusingWorld st1 in
  State (store st2) Stopped [] (fetched st2).

End Driver.

(** ** JSON text

    [JSON.stringify] on the values of [JsVal], and the grammar of JSON
    (RFC 8259) as a relation between a text and the value it denotes, with
    the numbers restricted to the integers in decimal notation. *)

Module Json.
Import Js JsVal.

Definition backslash : ascii := ascii_of_nat 92.

Definition hexDigit (n : nat) : ascii :=
  default "0"%char (String.get n "0123456789abcdef").

(** The text [JSON.stringify] writes for one character of a string. *)
Definition escapeChar (c : ascii) : string :=
  let n := nat_of_ascii c in
  if Ascii.eqb c dquote then String backslash (chr dquote)
  else if Ascii.eqb c backslash then String backslash (chr backslash)
  else if Nat.eqb n 8 then String backslash "b"
  else if Nat.eqb n 12 then String backslash "f"
  else if Nat.eqb n 10 then String backslash "n"
  else if Nat.eqb n 13 then String backslash "r"
  else if Nat.eqb n 9 then String backslash "t"
  else if Nat.ltb n 32
  then String backslash ("u00" +:+ chr (hexDigit (n / 16)) +:+ chr (hexDigit (n mod 16)))
  else chr c.

Fixpoint escapeString (s : string) : string :=
  match s with
  | EmptyString => EmptyString
  | String c r => escapeChar c +:+ escapeString r
  end.

(** A text between quotes. *)
Definition quoted (t : string) : string := chr dquote +:+ t +:+ chr dquote.

Definition quote (s : string) : string := quoted (escapeString s).

(** [JSON.stringify(v)]. A property whose value is [undefined] is left out
    and [undefined] in an array is written [null]; at the top [undefined]
    gives no text, and the string it becomes when appended to one is
    [undefined]. *)
Fixpoint stringify (v : js) : string :=
  match v with
  | JUndefined => "undefined"
  | JNull => "null"
  | JBool true => "true"
  | JBool false => "false"
  | JNum n => pretty n
  | JStr s => quote s
  | JArr a =>
      "[" +:+ join ","
                (map (fun x => match x with
                               | JUndefined => "null"
                               | _ => stringify x
                               end) a) +:+ "]"
  | JObj o =>
      "{" +:+ join ","
                ((fix members (o : list (string * js)) : list string :=
                    match o with
                    | [] => []
                    | (k, x) :: r =>
                        match x with
                        | JUndefined => members r
                        | _ => (quote k +:+ ":" +:+ stringify x) :: members r
                        end
                    end) o) +:+ "}"
  end.

(** The value a text written by [stringify] reads back as. *)
Fixpoint clean (v : js) : js :=
  match v with
  | JArr a =>
      JArr (map (fun x => match x with
                          | JUndefined => JNull
                          | _ => clean x
                          end) a)
  | JObj o =>
      JObj ((fix members (o : list (string * js)) : list (string * js) :=
               match o with
               | [] => []
               | (k, x) :: r =>
                   match x with
                   | JUndefined => members r
                   | _ => (k, clean x) :: members r
                   end
               end) o)
  | _ => v
  end.

(** *** The grammar *)

Definition is_ws (c : ascii) : bool :=
  let n := nat_of_ascii c in
  Nat.eqb n 32 || Nat.eqb n 9 || Nat.eqb n 10 || Nat.eqb n 13.

Fixpoint ws (s : string) : bool :=
  match s with
  | EmptyString => true
  | String c r => is_ws c && ws r
  end.

(** A character a JSON string holds as it is. *)
Definition is_plain (c : ascii) : bool :=
  negb (Ascii.eqb c dquote) && negb (Ascii.eqb c backslash) &&
  Nat.leb 32 (nat_of_ascii c).

Fixpoint all_plain (s : string) : bool :=
  match s with
  | EmptyString => true
  | String c r => is_plain c && all_plain r
  end.

Definition hexValue (c : ascii) : option nat :=
  let n := nat_of_ascii c in
  if Nat.leb 48 n && Nat.leb n 57 then Some (n - 48)
  else if Nat.leb 97 n && Nat.leb n 102 then Some (n - 87)
  else if Nat.leb 65 n && Nat.leb n 70 then Some (n - 55)
  else None.

(** [escape e c]: after a backslash, [e] stands for the character [c]. *)
Inductive escape : string -> ascii -> Prop :=
| escape_quote : escape (chr dquote) dquote
| escape_backslash : escape (chr backslash) backslash
| escape_slash : escape "/" "/"%char
| escape_b : escape "b" (ascii_of_nat 8)
| escape_f : escape "f" (ascii_of_nat 12)
| escape_n : escape "n" (ascii_of_nat 10)
| escape_r : escape "r" (ascii_of_nat 13)
| escape_t : escape "t" (ascii_of_nat 9)
| escape_u h1 h2 x y :
    hexValue h1 = Some x -> hexValue h2 = Some y ->
    escape ("u00" +:+ chr h1 +:+ chr h2) (ascii_of_nat (16 * x + y)).

(** [chars t s]: between quotes, the text [t] stands for the string [s]. *)
Inductive chars : string -> string -> Prop :=
| chars_nil : chars EmptyString EmptyString
| chars_plain c t s :
    is_plain c = true -> chars t s -> chars (String c t) (String c s)
| chars_escape e c t s :
    escape e c -> chars t s -> chars (String backslash e +:+ t) (String c s).

(** A text of [R] with white space around it. *)
Inductive padded {A} (R : string -> A -> Prop) : string -> A -> Prop :=
| padded_intro w1 t w2 v :
    ws w1 = true -> ws w2 = true -> R t v -> padded R (w1 +:+ t +:+ w2) v.

(** A member of an object: a name, a colon, a value. *)
Inductive member (R : string -> js -> Prop) : string -> string * js -> Prop :=
| member_intro w1 t w2 k u v :
    ws w1 = true -> ws w2 = true -> chars t k -> padded R u v ->
    member R (w1 +:+ quoted t +:+ w2 +:+ ":" +:+ u) (k, v).

(** [denotes t v]: the JSON text [t] denotes the value [v]. *)
Inductive denotes : string -> js -> Prop :=
| denotes_null : denotes "null" JNull
| denotes_true : denotes "true" (JBool true)
| denotes_false : denotes "false" (JBool false)
| denotes_num n : denotes (pretty n) (JNum n)
| denotes_str t s : chars t s -> denotes (quoted t) (JStr s)
| denotes_arr_empty w : ws w = true -> denotes ("[" +:+ w +:+ "]") (JArr [])
| denotes_arr ts a :
    ts <> [] -> Forall2 (padded denotes) ts a ->
    denotes ("[" +:+ join "," ts +:+ "]") (JArr a)
| denotes_obj_empty w : ws w = true -> denotes ("{" +:+ w +:+ "}") (JObj [])
| denotes_obj ts o :
    ts <> [] -> Forall2 (member denotes) ts o ->
    denotes ("{" +:+ join "," ts +:+ "}") (JObj o).

(** A JSON document: a value, white space allowed around it. *)
Definition valid_json (t : string) : Prop := exists v, padded denotes t v.

(** The elements and the members as [stringify] and [clean] have them. *)
Definition elementText (x : js) : string :=
  match x with JUndefined => "null" | _ => stringify x end.

Definition elementValue (x : js) : js :=
  match x with JUndefined => JNull | _ => clean x end.

Fixpoint memberTexts (o : list (string * js)) : list string :=
  match o with
  | [] => []
  | (k, x) :: r =>
      match x with
      | JUndefined => memberTexts r
      | _ => (quote k +:+ ":" +:+ stringify x) :: memberTexts r
      end
  end.

Fixpoint memberValues (o : list (string * js)) : list (string * js) :=
  match o with
  | [] => []
  | (k, x) :: r =>
      match x with
      | JUndefined => memberValues r
      | _ => (k, clean x) :: memberValues r
      end
  end.

End Json.

(** ** Export assembler

    [downloadFromStorage] of the popup. [now] is the text
    [new Date().toISOString()] returns. The result is the list of the parts
    handed to the final [Blob], whose content is their concatenation, next
    to the log of the key lists read from the store; [None] is the alert
    shown when there is nothing to download. The file name and the
    download itself are left out. *)

Module Assembler.
Import Js JsVal Driver Json.

Definition LOAD_BATCH_SIZE : nat := 100.

Definition nl : string := chr LF.

(** [chrome.storage.local.get(keys)] on the claim keys: the stored entries
    among [keys]. *)
Definition getClaims (keys : list nat) (s : storage) : gmap nat js :=
  filter (fun kv => kv.1 ∈ keys) (exportedClaim s).

(** The inner loop: the records of one batch appended to [batchStr]. *)
Fixpoint appendClaims (batchData : gmap nat js) (indices : list nat)
    (batchStr : string) (isFirstClaim : bool) : string * bool :=
  match indices with
  | [] => (batchStr, isFirstClaim)
  | i :: rest =>
      let claim := default JUndefined (batchData !! i) in
      if truthy claim then
        let batchStr1 :=
          if isFirstClaim then batchStr else batchStr +:+ "," +:+ nl in
        appendClaims batchData rest (batchStr1 +:+ "      " +:+ stringify claim) false
      else appendClaims batchData rest batchStr isFirstClaim
  end.

(** The variables of the outer loop. *)
Record assembling := Assembling {
  blobParts : list string;
  isFirstClaim : bool;
  requests : list (list nat)
}.

Equations? batches (s : storage) (count batchStart : nat) (st : assembling)
    : assembling by wf (count - batchStart) lt :=
  batches s count batchStart st with decide (batchStart < count) := {
    | left _ =>
        let batchEnd := (batchStart + LOAD_BATCH_SIZE) `min` count in
        let keys := seq batchStart (batchEnd - batchStart) in
        let batchData := getClaims keys s in
        let r := appendClaims batchData keys EmptyString (isFirstClaim st) in
        batches s count (batchStart + LOAD_BATCH_SIZE)
          (Assembling
             (if decide (0 < String.length r.1)
              then blobParts st ++ [r.1] else blobParts st)
             r.2
             (requests st ++ [keys]));
    | right _ => st }.
Proof. unfold LOAD_BATCH_SIZE. lia. Qed.

Definition preamble : string :=
  "{" +:+ nl +:+ "  " +:+ quoted "claimWizardData" +:+ ": {" +:+ nl +:+
  "    " +:+ quoted "claims" +:+ ": [" +:+ nl.

Definition partialNote (count total : nat) : string :=
  "Partial export: " +:+ pretty count +:+ " of " +:+ pretty total +:+
  " claims (interrupted)".

Definition footer (now : string) (isPartial : bool) (count total : nat) : string :=
  let footer0 :=
    nl +:+ "    ]," +:+ nl +:+
    "    " +:+ quoted "exportDate" +:+ ": " +:+ quoted now +:+ "," +:+ nl +:+
    "    " +:+ quoted "exportMethod" +:+ ": " +:+ quoted "chrome-extension" +:+ nl +:+
    "  }," +:+ nl +:+
    "  " +:+ quoted "exportInfo" +:+ ": {" +:+ nl +:+
    "    " +:+ quoted "date" +:+ ": " +:+ quoted now +:+ "," +:+ nl +:+
    "    " +:+ quoted "version" +:+ ": " +:+ quoted "1.0.2" +:+ "," +:+ nl +:+
    "    " +:+ quoted "source" +:+ ": " +:+ quoted "chrome-extension" +:+ "," +:+ nl +:+
    "    " +:+ quoted "totalClaims" +:+ ": " +:+ pretty count in
  let footer1 :=
    if isPartial then
      footer0 +:+
      "," +:+ nl +:+ "    " +:+ quoted "partial" +:+ ": true" +:+
      "," +:+ nl +:+ "    " +:+ quoted "originalTotal" +:+ ": " +:+ pretty total +:+
      "," +:+ nl +:+ "    " +:+ quoted "note" +:+ ": " +:+
        quoted (partialNote count total)
    else footer0 in
  footer1 +:+ nl +:+ "  }" +:+ nl +:+ "}".

Definition downloadFromStorage (now : string) (isPartial : bool) (s : storage)
    : option assembling :=
  match exportJob s with
  | None => None
  | Some job =>
      if decide (completedCount job = 0) then None
      else
        let count := completedCount job in
        let total := total job in
        let st := batches s count 0 (Assembling [preamble] true []) in
        Some (Assembling (blobParts st ++ [footer now isPartial count total])
                         (isFirstClaim st) (requests st))
  end.

(** The content of the [Blob] made of the parts. *)
Definition blobText (parts : list string) : string :=
  foldr String.append EmptyString parts.

(** *** Notions used to state the properties of the assembler *)

(** The records stored at the indices below [count], in index order. *)
Definition storedRecords (s : storage) (count : nat) : list js :=
  omap (fun i => exportedClaim s !! i) (seq 0 count).

(** The document of the specification: the records as they read back,
    then the export metadata. *)
Definition exportDocument (now : string) (isPartial : bool) (count total : nat)
    (records : list js) : js :=
  JObj [("claimWizardData",
         JObj [("claims", JArr (map clean records));
               ("exportDate", JStr now);
               ("exportMethod", JStr "chrome-extension")]);
        ("exportInfo",
         JObj ([("date", JStr now);
                ("version", JStr "1.0.2");
                ("source", JStr "chrome-extension");
                ("totalClaims", JNum (Z.of_nat count))] ++
               if isPartial
               then [("partial", JBool true);
                     ("originalTotal", JNum (Z.of_nat total));
                     ("note", JStr (partialNote count total))]
               else []))].

(** The store holds a record, an object, at every index below [count]. *)
Definition checkpointed (s : storage) (count : nat) : Prop :=
  forall i, i < count -> exists o, exportedClaim s !! i = Some (JObj o).

(** The records stored at the indices [a], ..., [a + n - 1]. *)
Definition rangeRecords (s : storage) (a n : nat) : list js :=
  omap (fun i => exportedClaim s !! i) (seq a n).

(** The key lists of the reads, from [start] on: a hundred keys each, the
    last one what is left. *)
Definition batchKeys (count start k : nat) : list nat :=
  seq (start + k * LOAD_BATCH_SIZE)
      (LOAD_BATCH_SIZE `min` (count - (start + k * LOAD_BATCH_SIZE))).

(** The text the loops write for the records [recs]: one line for each,
    a comma and a line feed before each but the very first. *)
Definition recordLine (r : js) : string := "      " +:+ stringify r.

Fixpoint recordLines (isFirstClaim : bool) (recs : list js) : string :=
  match recs with
  | [] => EmptyString
  | r :: rest =>
      (if isFirstClaim then EmptyString else "," +:+ nl) +:+
      recordLine r +:+ recordLines false rest
  end.

(** The same text cut into the elements of the array: each record with the
    white space before it, the last with the white space after it too. *)
Fixpoint recordElements (recs : list js) : list string :=
  match recs with
  | [] => []
  | [r] => [(nl +:+ "      ") +:+ stringify r +:+ (nl +:+ "    ")]
  | r :: rest => ((nl +:+ "      ") +:+ stringify r +:+ EmptyString) :: recordElements rest
  end.

(** A member on a line of its own: the indentation, the name, the value
    [t], the white space [after]. *)
Definition memberLine (indent name t after : string) : string :=
  (nl +:+ indent) +:+ quoted name +:+ EmptyString +:+ ":" +:+ (" " +:+ t +:+ after).

(** The store of a job of two claims right after its start: the ledger is
    saved, its counter is 0, no record is stored. *)
Definition fresh_store : storage :=
  setJob (Job ["A1"; "B2"] 2 0 false) emptyStorage.

(** The store of the partial-download scenario: two records of five. *)
Definition partial_store : storage :=
  Storage (Some (Job ["A1"; "B2"; "C3"; "D4"; "E5"] 5 2 false)) None false None
    (<[1 := errorRecord (Csv.Claim "B2" 2) "Claim not found: B2"]>
       (<[0 := JObj [("fileNumber", JStr "A1"); ("claimId", JNum 7)]]> ∅)).

(** The members of the export metadata of a document. *)
Definition exportInfo (doc : js) (k : string) : js :=
  getPropOpt (getPropOpt doc "exportInfo") k.

End Assembler.

(** ** Further notions on the CSV reader *)

Module CsvText.
Import Js Csv.


(** The content of a quoted field: every quote doubled. *)
Fixpoint doubleQuotes (s : string) : string :=
  match s with
  | EmptyString => EmptyString
  | String c r =>
      if Ascii.eqb c dquote then String dquote (String dquote (doubleQuotes r))
      else String c (doubleQuotes r)
  end.

(** A field between quotes, as a CSV writer escapes it. *)
Definition csvQuote (s : string) : string :=
  String dquote (doubleQuotes s +:+ chr dquote).

(** The scan of [a] from the start ends outside quotes. *)
Definition ends_outside_quotes (a : string) : Prop :=
  inQuotes (scanText a start) = false.

(** The scan states [s2] is [s1] with the rows [R] put before its rows. *)
Definition prefixed (R : list (list string)) (s1 s2 : scan) : Prop :=
  rows s2 = R ++ rows s1 /\ currentRow s2 = currentRow s1 /\
  currentField s2 = currentField s1 /\ inQuotes s2 = inQuotes s1.


End CsvText.

(** ** The fetcher of the previous version

    [fetchClaimDetails] of the earlier content script: the same search and
    primary detail call, then the eight calls made one after the other,
    each in a [try] of its own. A [try] block that throws leaves the record
    as it was: nothing can throw in it after the record is written to. *)

Module Legacy.
Import Js JsVal Csv Fetcher.

(** [try { ... } catch (e) { }] around a step that returns the record. *)
Definition tryStep (body : res (list (string * js))) (claimResult : list (string * js))
    : list (string * js) :=
  match body with
  | Ok r => r
  | Throw _ => claimResult
  end.

(** Step 3. *)
Definition stepInsurance (w : World) (claimId : js) (claimResult : list (string * js)) :=
  tryStep
    (insurance ← fetchApi w ("/api/claim/" +:+ toStr claimId +:+ "/insurance");
     if truthy (getPropOpt (getPropOpt insurance "data") "insurance") then
       data ← getProp insurance "data";
       x ← getProp data "insurance";
       mret (setProp claimResult "insurance" x)
     else mret claimResult)
    claimResult.

(** Steps 4, 5, 6 and 9: [if (Array.isArray(x)) claimResult.k = x]. *)
Definition stepArray (w : World) (endpoint k : string) (claimResult : list (string * js)) :=
  tryStep
    (x ← fetchApi w endpoint;
     mret (if isArray x then setProp claimResult k x else claimResult))
    claimResult.

(** Step 7. *)
Definition stepLedger (w : World) (claimId : js) (claimResult : list (string * js)) :=
  tryStep
    (ledger ← fetchApi w ("/api/claim/" +:+ toStr claimId +:+ "/ledger");
     if truthy ledger then
       l ← getProp ledger "ledger";
       if truthy l then
         l' ← getProp ledger "ledger";
         notes ← getProp ledger "notes";
         invoices ← getProp ledger "invoices";
         let r1 := setProp claimResult "ledger" l' in
         let r2 := setProp r1 "ledgerNotes" (or_else notes (JArr [])) in
         mret (setProp r2 "ledgerInvoices" (or_else invoices (JArr [])))
       else mret claimResult
     else mret claimResult)
    claimResult.

(** Step 8. [fetchAllFiles] never throws and returns an array. *)
Definition stepFiles (w : World) (claimId claimUuid : js) (claimResult : list (string * js)) :=
  let files := (fetchAllFiles w claimId JNull 0).1 in
  if decide (0 < List.length files)
  then setProp claimResult "files" (JArr (map (fileEntry claimUuid) files))
  else claimResult.

(** Step 10. *)
Definition stepActivity (w : World) (claimUuid : js) (claimResult : list (string * js)) :=
  tryStep
    (activity ← fetchApi w
       ("/api/claim/" +:+ toStr claimUuid +:+
        "/activity?sc_u=0&sc_e=0&sc_c=0&sc_pub=0&sc_prv=0&sc_s=0&sc_cus=0&sc_t=0");
     let a := getPropOpt (getPropOpt activity "data") "activity" in
     if truthy a && isArray a then
       data ← getProp activity "data";
       x ← getProp data "activity";
       mret (setProp claimResult "activity" x)
     else mret claimResult)
    claimResult.

(** Steps 3 to 10, in order. *)
Definition sequentialSteps (w : World) (claimId claimUuid : js)
    (claimResult : list (string * js)) : list (string * js) :=
  let id := toStr claimId in
  let r3 := stepInsurance w claimId claimResult in
  let r4 := stepArray w ("/api/claim/" +:+ id +:+ "/mortgages/") "mortgages" r3 in
  let r5 := stepArray w ("/api/claim/" +:+ id +:+ "/personnel/external/1?ip=1")
              "externalPersonnel" r4 in
  let r6 := stepArray w ("/api/actions/1/" +:+ toStr claimUuid) "actionItems" r5 in
  let r7 := stepLedger w claimId r6 in
  let r8 := stepFiles w claimId claimUuid r7 in
  let r9 := stepArray w ("/api/claim/" +:+ id +:+ "/notes") "notes" r8 in
  stepActivity w claimUuid r9.

Definition fetchClaimDetails (w : World) (c : claim) : res js :=
  let fileNumber := fileNumber c in
  match search w fileNumber with
  | Rejected msg => Throw msg
  | Responded ok status _ body =>
      if negb ok then Throw ("Search failed: " +:+ pretty status)
      else
        searchData ← body;
        notFound ← claimNotFound searchData;
        if (notFound : bool) then Throw ("Claim not found: " +:+ fileNumber)
        else
          Claims ← getProp searchData "Claims";
          claimInfo ← getIndex Claims 0;
          claimId ← getProp claimInfo "id";
          claimUuid ← getProp claimInfo "uuid";
          let claimResult :=
            [("fileNumber", JStr fileNumber); ("claimId", claimId);
             ("claimUuid", claimUuid); ("claimDetails", claimInfo)] in
          fullDetails ← fetchApi w ("/api/claim/" +:+ toStr claimUuid);
          r ← mergeFullDetails fullDetails claimResult;
          mret (JObj (sequentialSteps w claimId claimUuid r))
  end.

End Legacy.

(** ** Further notions on the fetcher *)

Module FetchNotions.
Import Js JsVal Fetcher.

(** [null] or [undefined]: what a property cannot be read of. *)
Definition nullish (v : js) : bool :=
  match v with JUndefined | JNull => true | _ => false end.

(** [!item.folder && item.filename], when the item can be read. *)
Definition isFileItem (item : js) : bool :=
  match isFile item with Ok b => b | Throw _ => false end.

(** [item.folder && item.hasChildren && item.key && item.key !== 'ATTACHMENTS'],
    when the item can be read. *)
Definition isOpenFolderItem (item : js) : bool :=
  match isOpenFolder item with Ok b => b | Throw _ => false end.

(** What one item of a listing adds to the files of a walk at [depth]. *)
Definition filesOfItem (w : World) (claimId : js) (depth : nat) (item : js) : list js :=
  if isOpenFolderItem item
  then (fetchAllFiles w claimId (getPropOpt item "key") (depth + 1)).1
  else if isFileItem item then [item] else [].

(** The fields of the fan-out that come from one call each, with the
    endpoint of the call. *)
Definition fanOutCalls (claimId claimUuid : js) : list (string * string) :=
  let id := toStr claimId in
  let uuid := toStr claimUuid in
  [("insurance", "/api/claim/" +:+ id +:+ "/insurance");
   ("mortgages", "/api/claim/" +:+ id +:+ "/mortgages/");
   ("externalPersonnel", "/api/claim/" +:+ id +:+ "/personnel/external/1?ip=1");
   ("actionItems", "/api/actions/1/" +:+ uuid);
   ("ledger", "/api/claim/" +:+ id +:+ "/ledger");
   ("ledgerNotes", "/api/claim/" +:+ id +:+ "/ledger");
   ("ledgerInvoices", "/api/claim/" +:+ id +:+ "/ledger");
   ("notes", "/api/claim/" +:+ id +:+ "/notes");
   ("activity", "/api/claim/" +:+ uuid +:+
      "/activity?sc_u=0&sc_e=0&sc_c=0&sc_pub=0&sc_prv=0&sc_s=0&sc_cus=0&sc_t=0")].

(** What a field written by one call is after the fan-out: a function of the
    answer to that call and of the record before. *)
Definition fieldAfter (k : string) (r : res js) (o : list (string * js)) : js :=
  lookupProp
    (if String.eqb k "insurance" then mergeInsurance r o
     else if String.eqb k "activity" then mergeActivity r o
     else if String.eqb k "ledger" || String.eqb k "ledgerNotes"
             || String.eqb k "ledgerInvoices" then mergeLedger r o
     else mergeArray k r o) k.

(** The record as [fetchClaimDetails] has it before the primary detail call. *)
Definition baseRecord (fileNumber : string) (claimInfo claimId claimUuid : js)
    : list (string * js) :=
  [("fileNumber", JStr fileNumber); ("claimId", claimId);
   ("claimUuid", claimUuid); ("claimDetails", claimInfo)].

(** A service with one claim, file number A1, whose primary detail lists
    [null] among the additional contacts. *)
Definition nullContactWorld : World :=
  {| search := fun fn =>
       okJson (JObj [("Claims", JArr [JObj [("id", JNum 1); ("uuid", JStr "u1")]])]);
     get := fun endpoint =>
       if String.eqb endpoint "/api/claim/u1"
       then okJson (JObj [("propcontacts",
                           JObj [("c", JObj [("id", JNum 7)]);
                                 ("cc", JArr [JObj [("id", JNum 8)]; JNull])])])
       else Rejected "Failed to fetch" |}.

End FetchNotions.

(** ** Further notions on the run of the export *)

Module RunNotions.
Import Js JsVal Csv Fetcher Driver.

(** A record made for the file number [fn]. *)
Definition labelled (fn : string) (v : js) : Prop :=
  exists o, v = JObj o /\ lookupProp o "fileNumber" = JStr fn.




End RunNotions.

(** ** Further notions on the assembler *)

Module AssemblerNotions.
Import Js JsVal Driver Json Assembler.

(** The records the assembler writes for the indices [a], ..., [a + n - 1]:
    the stored values that are truthy, in index order. *)
Definition presentRecords (s : storage) (a n : nat) : list js :=
  filter (fun r => truthy r = true) (rangeRecords s a n).

(** The text of the claims array around the lines [inner] of its records. *)
Definition claimsArray (inner : string) : string :=
  "[" +:+ (nl +:+ inner +:+ nl +:+ "    ") +:+ "]".

(** A store whose counter is 3 and that holds a record at the indices 0
    and 2 only. *)
Definition gap_store : storage :=
  Storage (Some (Job ["A1"; "B2"; "C3"] 3 3 false)) None true None
    (<[2 := JObj [("fileNumber", JStr "C3")]]>
       (<[0 := JObj [("fileNumber", JStr "A1")]]> ∅)).

End AssemblerNotions.

(** ** The popup: what it shows when it opens, and starting over

    The popup reads the store the driver writes. Its calls on the page are
    the [action]s; [timeSinceUpdate] is the time, in milliseconds, since the
    stored progress was written. *)

Module Popup.
Import Js JsVal Driver.






(** [startOver]: the keys removed are the four of the export state and the
    claim keys below the total of the ledger, when there is a ledger. No
    driver is running. *)
Definition keysToRemove (s : storage) : list nat :=
  match exportJob s with
  | Some j => seq 0 (total j)
  | None => []
  end.

Definition startOver (s : storage) : storage :=
  Storage None None false None (foldr delete (exportedClaim s) (keysToRemove s)).

(** *** The name of the downloaded file

    [stamp] is the text of [new Date().toISOString()] when the name is
    made. *)

(** [s.replace(/[:.]/g, '-')] *)
Fixpoint replacePunctuation (s : string) : string :=
  match s with
  | EmptyString => EmptyString
  | String c r =>
      String (if Ascii.eqb c ":" || Ascii.eqb c "." then "-"%char else c)
             (replacePunctuation r)
  end.

(** [s.split('T')[0]] *)
Fixpoint beforeT (s : string) : string :=
  match s with
  | EmptyString => EmptyString
  | String c r => if Ascii.eqb c "T" then EmptyString else String c (beforeT r)
  end.

Definition timestamp (stamp : string) : string := beforeT (replacePunctuation stamp).

Definition filename (isPartial : bool) (count total : nat) (stamp : string) : string :=
  if isPartial
  then "claims-export-partial-" +:+ pretty count +:+ "of" +:+ pretty total +:+ "-" +:+
       timestamp stamp +:+ ".json"
  else "claims-export-" +:+ timestamp stamp +:+ ".json".

(** A character of the date part of a time stamp: not the separator [T],
    not a colon, not a dot. *)
Definition dateChar (c : ascii) : bool :=
  negb (Ascii.eqb c "T") && negb (Ascii.eqb c ":") && negb (Ascii.eqb c ".").

Fixpoint allDateChars (s : string) : bool :=
  match s with
  | EmptyString => true
  | String c r => dateChar c && allDateChars r
  end.

End Popup.

(** ** The export of version 1.0.1, kept in memory

    [processCsvAndFetchData] of the content script before the export became
    resumable: the same reader and fetcher, the records pushed to an array,
    the whole document stored under [exportedData] at the end. The result
    is the document stored, or the message stored under [exportError]. The
    progress saved on the way and the statistics stored next to the
    document are left out. *)

Module InMemory.
Import Js JsVal Csv Fetcher Driver.

(** The loop, with [claimsWithData] as it grows. *)
Fixpoint collect (w : World) (claimsToProcess : list claim) (claimsWithData : list js)
    : list js :=
  match claimsToProcess with
  | [] => claimsWithData
  | c :: rest =>
      match fetchClaimDetails w c with
      | Ok claimData => collect w rest (claimsWithData ++ [claimData])
      | Throw msg => collect w rest (claimsWithData ++ [errorRecord c msg])
      end
  end.

(** [exportDate] and [date] are the texts of the two calls of
    [new Date().toISOString()]. *)
Definition exportData (exportDate date : string) (claimsWithData : list js) : js :=
  JObj [("claimWizardData",
         JObj [("claims", JArr claimsWithData);
               ("exportDate", JStr exportDate);
               ("exportMethod", JStr "chrome-extension")]);
        ("exportInfo",
         JObj [("date", JStr date);
               ("version", JStr "1.0.1");
               ("source", JStr "chrome-extension");
               ("totalClaims", JNum (Z.of_nat (List.length claimsWithData)))])].

Definition processCsvAndFetchData (w : World) (csvText : string) (testMode : bool)
    (exportDate date : string) : res js :=
  claims ← parseCsv csvText;
  if decide (List.length claims = 0) then Throw noClaimsMessage
  else
    let claimsToProcess := if testMode then take 1 claims else claims in
    mret (exportData exportDate date (collect w claimsToProcess [])).

End InMemory.

(** * Properties *)

(** ** Facts about the string primitives *)

Module JsFacts.
Import Js.

Lemma sapp_cons c s t : String c s +:+ t = String c (s +:+ t).
Proof. reflexivity. Qed.

Lemma sapp_nil_l t : EmptyString +:+ t = t.
Proof. reflexivity. Qed.

Lemma sapp_nil_r s : s +:+ EmptyString = s.
Proof. induction s as [|c s IH]; [done|]. by rewrite sapp_cons, IH. Qed.

Lemma sapp_assoc s t u : (s +:+ t) +:+ u = s +:+ (t +:+ u).
Proof. induction s as [|c s IH]; [done|]. by rewrite !sapp_cons, IH. Qed.

(** String expressions, nested to the right and without empty parts. *)
Ltac snorm :=
  repeat (rewrite !sapp_assoc || rewrite !sapp_nil_l || rewrite !sapp_nil_r).


Lemma trimEnd_nil_or_cons c r :
  trimEnd (String c r) = EmptyString \/
  exists r', trimEnd (String c r) = String c r'.
Proof.
  simpl. destruct (trimEnd r); [destruct (is_space c)|]; unfold chr; eauto.
Qed.





Lemma nonempty_true s : nonempty s = true <-> s <> EmptyString.
Proof. destruct s; simpl; split; congruence. Qed.

Lemma findIndex_Some {A} (p : A -> bool) a i :
  findIndex p a = Some i <->
  (exists x, a !! i = Some x /\ p x = true) /\
  (forall j y, j < i -> a !! j = Some y -> p y = false).
Proof.
  revert i. induction a as [|x a IH]; intros i; simpl.
  { split; [done|]. intros [[y [Hy _]] _]. done. }
  destruct (p x) eqn:Hx.
  - split.
    + intros [= <-]. split; [eauto|]. intros; lia.
    + intros [_ Hmin]. destruct i as [|i]; [done|].
      specialize (Hmin 0 x ltac:(lia) eq_refl). congruence.
  - split.
    + destruct (findIndex p a) as [k|]; [|done].
      intros [= <-]. destruct (proj1 (IH k) eq_refl) as [Hex Hmin]. split; [done|].
      intros [|j] y Hj; simpl; [congruence|]. apply Hmin. lia.
    + intros [[y [Hy Hpy]] Hmin]. destruct i as [|i]; simpl in Hy; [congruence|].
      assert (findIndex p a = Some i) as ->; [|done].
      apply IH. split; [eauto|]. intros j z Hj Hz. apply (Hmin (S j)); [lia|done].
Qed.

Lemma findIndex_None {A} (p : A -> bool) a :
  findIndex p a = None <-> forall x, x ∈ a -> p x = false.
Proof.
  induction a as [|x a IH]; simpl.
  { split; [|done]. intros _ x Hx. by apply elem_of_nil in Hx. }
  destruct (p x) eqn:Hx.
  - split; [done|]. intros H. specialize (H x ltac:(left)). congruence.
  - destruct (findIndex p a); simpl.
    + split; [done|]. intros H. exfalso.
      assert (Some n = None) as Hn; [|done].
      apply IH. intros y Hy. apply H. by right.
    + split; [|done]. intros _ y [->|Hy]%elem_of_cons; [done|].
      by apply IH.
Qed.

End JsFacts.

(** ** The row tokenizer *)

Module CsvFacts.
Import Js JsFacts Csv.












End CsvFacts.

(** ** Column selection and identifier extraction *)

Module ParseFacts.
Import Js JsFacts Csv.

Lemma startsWith_spec s p :
  startsWith s p = true <-> exists b, s = p +:+ b.
Proof.
  revert s. induction p as [|a p IH]; intros s; simpl.
  { split; [eauto|done]. }
  destruct s as [|b s].
  { split; [done|]. intros [t Ht]. by rewrite sapp_cons in Ht. }
  rewrite andb_true_iff, IH. split.
  - intros [->%Ascii.eqb_eq [t ->]]. by exists t.
  - intros [t Ht]. rewrite sapp_cons in Ht. injection Ht as <- ->.
    split; [apply Ascii.eqb_refl|eauto].
Qed.

Lemma includes_spec s p :
  includes s p = true <-> exists a b, s = a +:+ p +:+ b.
Proof.
  induction s as [|c s IH].
  - simpl. rewrite orb_false_r, startsWith_spec. split.
    + intros [b Hb]. by exists EmptyString, b.
    + intros ([|] & b & Hb); [eauto|]. by rewrite sapp_cons in Hb.
  - cbn [includes]. rewrite orb_true_iff, IH, startsWith_spec. split.
    + intros [[b Hb]|(a & b & ->)].
      * by exists EmptyString, b.
      * by exists (String c a), b.
    + intros ([|d a] & b & Hb).
      * left. eauto.
      * right. rewrite sapp_cons in Hb. injection Hb as <- ->. eauto.
Qed.

Lemma includesStr_spec a x : includesStr a x = true <-> x ∈ a.
Proof.
  unfold includesStr. rewrite existsb_exists. split.
  - intros (y & Hy & ->%String.eqb_eq). by apply list_elem_of_In.
  - intros Hx. exists x. split; [by apply list_elem_of_In|apply String.eqb_refl].
Qed.

Lemma selectColumn_None headers :
  selectColumn headers = None <->
  forall h, h ∈ headers -> tier1 h = false /\ tier2 h = false /\ tier3 h = false.
Proof.
  unfold selectColumn. split.
  - destruct (findIndex tier1 headers) eqn:H1; [done|].
    destruct (findIndex tier2 headers) eqn:H2; [done|].
    intros H3 h Hh. rewrite findIndex_None in H1, H2, H3. repeat split; auto.
  - intros H.
    assert (findIndex tier1 headers = None) as ->.
    { apply findIndex_None. intros h Hh. by apply H. }
    assert (findIndex tier2 headers = None) as ->.
    { apply findIndex_None. intros h Hh. by apply H. }
    apply findIndex_None. intros h Hh. by apply H.
Qed.

Lemma parseCsv_rows csvText headers row data :
  parseCsvRows csvText = headers :: row :: data ->
  parseCsv csvText =
    match selectColumn headers with
    | None => Throw (missingColumnMessage headers)
    | Some fileNumberIndex =>
        Ok (claims (extractFrom fileNumberIndex 1 (row :: data) (Extract ∅ [] 0)))
    end.
Proof.
  intros Hrows. unfold parseCsv, parseRows. rewrite Hrows.
  by destruct (selectColumn headers).
Qed.

(** C6. Column selection tries the three tiers in order over the whole
    header row: the first header equal, lower-cased and trimmed, to one of
    the eight names wins whatever stands before it; failing that the first
    header starting with file or claim and containing number, # or no;
    failing that the first header containing file or claim and none of the
    six excluded substrings. With the headers Claim Status, Claim #,
    Adjuster and the row Open, 12345, Jane the identifier is 12345; with
    Claimant Name first, a header of the third tier, Claim # is selected
    all the same, and Claimant Name only when no better header exists.
    Fewer than two rows give the empty-or-invalid error; two rows or more
    give the missing-column error exactly when no header matches any
    tier. *)
Theorem parseCsv_column_selection :
  (forall headers i,
     findIndex tier1 headers = Some i -> selectColumn headers = Some i) /\
  (forall headers i,
     findIndex tier1 headers = None -> findIndex tier2 headers = Some i ->
     selectColumn headers = Some i) /\
  (forall headers,
     findIndex tier1 headers = None -> findIndex tier2 headers = None ->
     selectColumn headers = findIndex tier3 headers) /\
  (forall h,
     (tier1 h = true <-> trim (toLowerCase h) ∈ exactNames) /\
     (tier2 h = true <->
        ((exists b, trim (toLowerCase h) = "file" +:+ b) \/
         (exists b, trim (toLowerCase h) = "claim" +:+ b)) /\
        exists a p b, p ∈ ["number"; "#"; "no"] /\
                      trim (toLowerCase h) = a +:+ p +:+ b) /\
     (tier3 h = true <->
        (exists a p b, p ∈ ["file"; "claim"] /\
                       trim (toLowerCase h) = a +:+ p +:+ b) /\
        forall ex a b, ex ∈ excludePatterns ->
                       trim (toLowerCase h) <> a +:+ ex +:+ b)) /\
  selectColumn ["Claim Status"; "Claim #"; "Adjuster"] = Some 1 /\
  parseCsv ("Claim Status,Claim #,Adjuster" +:+ chr LF +:+ "Open,12345,Jane")
  = Ok [Claim "12345" 1] /\
  (tier3 "Claimant Name" = true /\
   selectColumn ["Claimant Name"; "Claim #"; "Adjuster"] = Some 1 /\
   selectColumn ["Claimant Name"; "Adjuster"] = Some 0) /\
  (forall csvText,
     List.length (parseCsvRows csvText) < 2 ->
     parseCsv csvText = Throw emptyMessage) /\
  (forall csvText headers data,
     parseCsvRows csvText = headers :: data -> 2 <= List.length (headers :: data) ->
     (parseCsv csvText = Throw (missingColumnMessage headers) <->
      forall h, h ∈ headers ->
        tier1 h = false /\ tier2 h = false /\ tier3 h = false)).
Proof.
  split; [|split; [|split; [|split; [|split; [|split; [|split; [|split]]]]]]].
  - intros headers i H. unfold selectColumn. by rewrite H.
  - intros headers i H1 H2. unfold selectColumn. by rewrite H1, H2.
  - intros headers H1 H2. unfold selectColumn. by rewrite H1, H2.
  - intros h. split; [apply includesStr_spec|]. split.
    + unfold tier2. rewrite andb_true_iff, !orb_true_iff, !startsWith_spec,
        !includes_spec.
      split.
      * intros [Hs Hi]. split; [done|].
        destruct Hi as [[(a & b & E)|(a & b & E)]|(a & b & E)];
          eexists a, _, b; (split; [|exact E]); rewrite !elem_of_cons; auto.
      * intros [Hs (a & p & b & Hp & E)]. split; [done|].
        rewrite !elem_of_cons in Hp.
        destruct Hp as [->|[->|[->|Hp]]]; [eauto..|].
        by apply elem_of_nil in Hp.
    + unfold tier3.
      destruct (existsb _ excludePatterns) eqn:Hex.
      * split; [done|]. intros [_ Hno].
        apply existsb_exists in Hex as (ex & Hin & Hinc).
        apply includes_spec in Hinc as (a & b & E).
        exfalso. eapply Hno; [by apply list_elem_of_In|exact E].
      * rewrite orb_true_iff, !includes_spec. split.
        -- intros Hi. split.
           ++ destruct Hi as [(a & b & E)|(a & b & E)];
                eexists a, _, b; (split; [|exact E]); rewrite !elem_of_cons; auto.
           ++ intros ex a b Hin E.
              assert (existsb (fun ex => includes (trim (toLowerCase h)) ex)
                        excludePatterns = true) as Habs; [|congruence].
              apply existsb_exists. exists ex.
              split; [by apply list_elem_of_In|].
              apply includes_spec. eauto.
        -- intros [(a & p & b & Hp & E) _].
           rewrite !elem_of_cons in Hp.
           destruct Hp as [->|[->|Hp]]; [eauto..|].
           by apply elem_of_nil in Hp.
  - by vm_compute.
  - by vm_compute.
  - by vm_compute.
  - intros csvText Hlen. unfold parseCsv, parseRows.
    destruct (parseCsvRows csvText) as [|headers [|row data]]; simpl in *;
      try done; lia.
  - intros csvText headers [|row data] Hrows Hlen; [simpl in Hlen; lia|].
    rewrite (parseCsv_rows _ _ _ _ Hrows), <- selectColumn_None.
    destruct (selectColumn headers); split; congruence.
Qed.

(** The theorem on a file without identifier column. *)
Lemma parseCsv_column_selection_witness :
  parseCsv ("name,city" +:+ chr LF +:+ "Ann,Oslo")
  = Throw (missingColumnMessage ["name"; "city"]).
Proof.
  apply (proj2 (proj2 (proj2 (proj2 (proj2 (proj2 (proj2 (proj2
           parseCsv_column_selection))))))) _ ["name"; "city"] [["Ann"; "Oslo"]]).
  - by vm_compute.
  - simpl. lia.
  - intros h Hh. repeat (apply elem_of_cons in Hh as [->|Hh]; [by vm_compute|]).
    by apply elem_of_nil in Hh.
Defined.

(** *** First occurrences *)

Lemma firstOccurrences_elem l : forall earlier v,
  v ∈ fileNumber <$> firstOccurrences l earlier <->
  v ∈ fileNumber <$> l /\ v ∉ earlier.
Proof.
  induction l as [|c l IH]; intros earlier v; simpl.
  { split; [by intros ?%elem_of_nil|by intros [?%elem_of_nil _]]. }
  destruct (decide (fileNumber c ∈ earlier)) as [Hin|Hout].
  - rewrite IH, elem_of_cons. split; [naive_solver|].
    intros [[->|Hv] Hno]; [done|by split].
  - rewrite fmap_cons, !elem_of_cons, IH, not_elem_of_cons.
    destruct (decide (v = fileNumber c)) as [->|Hne]; naive_solver.
Qed.

Lemma firstOccurrences_NoDup l : forall earlier,
  NoDup (fileNumber <$> firstOccurrences l earlier).
Proof.
  induction l as [|c l IH]; intros earlier; simpl; [constructor|].
  destruct (decide (fileNumber c ∈ earlier)); [apply IH|].
  rewrite fmap_cons. constructor; [|apply IH].
  rewrite firstOccurrences_elem, not_elem_of_cons. naive_solver.
Qed.

Lemma firstOccurrences_sublist l : forall earlier,
  firstOccurrences l earlier `sublist_of` l.
Proof.
  induction l as [|c l IH]; intros earlier; simpl; [done|].
  destruct (decide (fileNumber c ∈ earlier)).
  - by apply sublist_cons.
  - by apply sublist_skip.
Qed.

(** What [columnValues] holds: the value at the column of each row that has
    one, with the index of the row. *)
Lemma columnValues_elem fileNumberIndex data : forall i c,
  c ∈ columnValues fileNumberIndex i data <->
  exists k values, rowIndex c = i + k /\ data !! k = Some values /\
                   values !! fileNumberIndex = Some (fileNumber c).
Proof.
  induction data as [|values data IH]; intros i c; simpl.
  { split; [by intros ?%elem_of_nil|by intros (k & vs & _ & ? & _)]. }
  assert (c ∈ columnValues fileNumberIndex (S i) data <->
          exists k vs, rowIndex c = i + S k /\ data !! k = Some vs /\
                       vs !! fileNumberIndex = Some (fileNumber c)) as Htail.
  { rewrite IH. by setoid_rewrite Nat.add_succ_r. }
  assert ((exists k vs, rowIndex c = i + k /\ (values :: data) !! k = Some vs /\
                        vs !! fileNumberIndex = Some (fileNumber c)) <->
          (rowIndex c = i /\ values !! fileNumberIndex = Some (fileNumber c)) \/
          c ∈ columnValues fileNumberIndex (S i) data) as ->.
  { rewrite Htail. split.
    - intros ([|k] & vs & Hi & Hk & Hv); simpl in Hk.
      + left. injection Hk as <-. split; [lia|done].
      + right. eauto.
    - intros [[Hi Hv]|(k & vs & Hi & Hk & Hv)].
      + exists 0, values. split; [lia|done].
      + exists (S k), vs. done. }
  destruct (values !! fileNumberIndex) as [v|] eqn:Hv.
  - rewrite elem_of_cons. split.
    + intros [->|Hc]; [left; done|by right].
    + intros [[Hi [= ->]]|Hc]; [left|by right].
      destruct c; simpl in *; by subst.
  - split; [by right|]. by intros [[_ ?]|?].
Qed.

Lemma extractFrom_spec fileNumberIndex data : forall i st earlier,
  (forall v, v ∈ seen st <-> v ∈ earlier) ->
  claims (extractFrom fileNumberIndex i data st)
  = (claims st ++
     firstOccurrences
       (filter (fun c => fileNumber c <> EmptyString)
               (columnValues fileNumberIndex i data)) earlier)%list /\
  skippedBadRows (extractFrom fileNumberIndex i data st)
  = skippedBadRows st + malformed fileNumberIndex data.
Proof.
  unfold malformed.
  induction data as [|values data IH]; intros i st earlier Hseen; simpl.
  { rewrite app_nil_r. split; [done|lia]. }
  unfold extractRow.
  destruct (decide (List.length values < fileNumberIndex + 1)) as [Hshort|Hlong].
  - rewrite filter_cons_True by done.
    assert (values !! fileNumberIndex = None) as ->
      by (apply lookup_ge_None; lia).
    destruct (IH (S i) (Extract (seen st) (claims st) (S (skippedBadRows st)))
                earlier Hseen) as [-> ->].
    simpl. split; [done|lia].
  - rewrite filter_cons_False by done.
    destruct (lookup_lt_is_Some_2 values fileNumberIndex ltac:(lia)) as [v Hv].
    rewrite Hv.
    destruct (nonempty v) eqn:Hne; simpl.
    + apply nonempty_true in Hne.
      rewrite filter_cons_True by done. simpl.
      destruct (decide (v ∈ earlier)) as [Hin|Hout].
      * rewrite bool_decide_eq_true_2 by (by apply Hseen). simpl. by apply IH.
      * rewrite bool_decide_eq_false_2 by (by rewrite Hseen). simpl.
        destruct (IH (S i)
                    (Extract ({[v]} ∪ seen st) (claims st ++ [Claim v i])
                       (skippedBadRows st)) (v :: earlier)) as [-> ->].
        { intros w. simpl. rewrite elem_of_union, elem_of_singleton,
            elem_of_cons, Hseen. done. }
        simpl. by rewrite <- app_assoc.
    + assert (v = EmptyString) as -> by (by destruct v).
      rewrite filter_cons_False by (simpl; naive_solver). by apply IH.
Qed.

(** C4, as the code has it. With two rows or more and a selected column,
    [parseCsv] returns the first occurrence of each distinct value of the
    column that is not empty, in row order and with the index of its row:
    no value twice, every value that is not empty present, the order that
    of the rows; an occurrence after the first is dropped, and a row
    without the column is skipped and counted as malformed. *)
Theorem parseCsv_first_occurrences csvText headers data fileNumberIndex :
  parseCsvRows csvText = headers :: data ->
  2 <= List.length (headers :: data) ->
  selectColumn headers = Some fileNumberIndex ->
  let column := columnValues fileNumberIndex 1 data in
  let kept :=
    firstOccurrences (filter (fun c => fileNumber c <> EmptyString) column) [] in
  parseCsv csvText = Ok kept /\
  (exists st, parseRows (parseCsvRows csvText) = Ok st /\
              skippedBadRows st = malformed fileNumberIndex data) /\
  NoDup (fileNumber <$> kept) /\
  kept `sublist_of` column /\
  (forall v, v ∈ fileNumber <$> kept <->
             v <> EmptyString /\ v ∈ fileNumber <$> column) /\
  (forall c, c ∈ column <->
     exists k values, rowIndex c = 1 + k /\ data !! k = Some values /\
                      values !! fileNumberIndex = Some (fileNumber c)).
Proof.
  intros Hrows Hlen Hsel column kept.
  destruct data as [|row data]; [simpl in Hlen; lia|].
  destruct (extractFrom_spec fileNumberIndex (row :: data) 1 (Extract ∅ [] 0) [])
    as [Hclaims Hskipped].
  { intros v. simpl. split; [by intros ?%not_elem_of_empty|by intros ?%elem_of_nil]. }
  split; [|split; [|split; [|split; [|split]]]].
  - rewrite (parseCsv_rows _ _ _ _ Hrows), Hsel. by rewrite Hclaims.
  - rewrite Hrows. unfold parseRows. rewrite Hsel. eexists. split; [done|]. by rewrite Hskipped.
  - apply firstOccurrences_NoDup.
  - etrans; [apply firstOccurrences_sublist|]. apply sublist_filter.
  - intros v. unfold kept. rewrite firstOccurrences_elem.
    rewrite !list_elem_of_fmap. setoid_rewrite list_elem_of_filter. split.
    + intros [(c & -> & Hne & Hc) _]. eauto.
    + intros [Hne (c & -> & Hc)]. split; [eauto|by intros ?%elem_of_nil].
  - apply columnValues_elem.
Qed.

(** C4, as stated, fails: the empty value of the selected column occurs
    first in row 1 and is not kept. *)
Lemma parseCsv_drops_empty_value :
  parseCsvRows blank_value_csv
  = [["file #"; "name"]; [EmptyString; "Ann"]; ["7"; "Bob"]] /\
  selectColumn ["file #"; "name"] = Some 0 /\
  columnValues 0 1 [[EmptyString; "Ann"]; ["7"; "Bob"]]
  = [Claim EmptyString 1; Claim "7" 2] /\
  firstOccurrences (columnValues 0 1 [[EmptyString; "Ann"]; ["7"; "Bob"]]) []
  = [Claim EmptyString 1; Claim "7" 2] /\
  parseCsv blank_value_csv = Ok [Claim "7" 2].
Proof. by vm_compute. Qed.

(** The theorem on a file with a repeated value, an empty value and a short
    row. *)
Lemma parseCsv_first_occurrences_witness :
  parseCsv ("Claim #,x" +:+ chr LF +:+ "5,a" +:+ chr LF +:+ "5,b" +:+ chr LF +:+
            ",c" +:+ chr LF +:+ "6,d")
  = Ok [Claim "5" 1; Claim "6" 4].
Proof.
  refine (proj1 (parseCsv_first_occurrences _ ["Claim #"; "x"]
                   [["5"; "a"]; ["5"; "b"]; [EmptyString; "c"]; ["6"; "d"]] 0
                   _ _ _)).
  - by vm_compute.
  - simpl. lia.
  - by vm_compute.
Defined.

End ParseFacts.

(** ** The claim fetcher *)

Module FetcherFacts.
Import Js JsVal Csv Fetcher.

Lemma fetchAllFiles_unfold w claimId folderKey depth :
  fetchAllFiles w claimId folderKey depth =
  if decide (maxDepth < depth) then ([], [(folderKey, depth)])
  else match fetchApi w (filesEndpoint claimId folderKey) with
       | Throw _ => ([], [(folderKey, depth)])
       | Ok (JArr filesResponse) =>
           orEmpty (collectFiles
                      (fun key => fetchAllFiles w claimId key (depth + 1))
                      filesResponse [] [(folderKey, depth)])
       | Ok _ => ([], [(folderKey, depth)])
       end.
Proof. simp fetchAllFiles. by destruct (decide (maxDepth < depth)). Qed.

Lemma getProp_truthy item k v :
  getProp item k = Ok v -> truthy v = true -> item <> JUndefined /\ item <> JNull.
Proof. by destruct item. Qed.

(** What the guard of the recursion asks of an item. *)
Lemma isOpenFolder_true item :
  isOpenFolder item = Ok true <->
  exists folder hasChildren key,
    getProp item "folder" = Ok folder /\ truthy folder = true /\
    getProp item "hasChildren" = Ok hasChildren /\ truthy hasChildren = true /\
    getProp item "key" = Ok key /\ truthy key = true /\
    strictEqStr key "ATTACHMENTS" = false.
Proof.
  unfold isOpenFolder. split.
  - destruct (getProp item "folder") as [folder|] eqn:Hf; simpl; [|done].
    destruct (truthy folder) eqn:Htf; [|done].
    destruct (getProp item "hasChildren") as [hasChildren|] eqn:Hh; simpl; [|done].
    destruct (truthy hasChildren) eqn:Hth; [|done].
    destruct (getProp item "key") as [key|] eqn:Hk; simpl; [|done].
    destruct (truthy key) eqn:Htk; [|done]. simpl.
    intros [= Hne%negb_true_iff]. by exists folder, hasChildren, key.
  - intros (folder & hasChildren & key & -> & Hf & -> & Hh & -> & Hk & Hne).
    simpl. rewrite Hf. simpl. rewrite Hh, Hk. simpl. by rewrite Hne.
Qed.

Lemma strictEqStr_false v s : strictEqStr v s = false -> v <> JStr s.
Proof. intros H ->. simpl in H. by rewrite String.eqb_refl in H. Qed.

(** The loop keeps what holds of the files and adds calls of the
    recursion only. *)
Lemma collectFiles_inv (P : js -> Prop) (Q : call -> Prop) recurse :
  (forall item, isFile item = Ok true -> P item) ->
  (forall item key, isOpenFolder item = Ok true -> getProp item "key" = Ok key ->
     Forall P (recurse key).1 /\ Forall Q (recurse key).2) ->
  forall items allFiles log, Forall P allFiles ->
    Forall P (orEmpty (collectFiles recurse items allFiles log)).1 /\
    exists calls, (collectFiles recurse items allFiles log).2 = log ++ calls /\
                  Forall Q calls.
Proof.
  intros HP Hrec.
  assert (forall log : list call, exists calls, log = log ++ calls /\ Forall Q calls) as Hnil.
  { intros log. exists []. by rewrite app_nil_r. }
  induction items as [|item rest IH]; intros allFiles log Hall; simpl.
  { split; [done|apply Hnil]. }
  destruct (isOpenFolder item) as [[|]|] eqn:Hopen; simpl.
  - destruct (getProp item "key") as [key|] eqn:Hkey; simpl.
    + destruct (Hrec item key Hopen Hkey) as [HPk HQk].
      destruct (recurse key) as [folderFiles calls] eqn:Hr. simpl in *.
      destruct (IH (allFiles ++ folderFiles) (log ++ calls)) as (HPr & more & -> & HQm).
      { by apply Forall_app. }
      split; [done|]. exists (calls ++ more).
      split; [by rewrite app_assoc|by apply Forall_app].
    + split; [done|apply Hnil].
  - destruct (isFile item) as [[|]|] eqn:Hfile; simpl.
    + apply IH. apply Forall_app. split; [done|]. repeat constructor. by apply HP.
    + by apply IH.
    + split; [done|apply Hnil].
  - split; [done|apply Hnil].
Qed.

Lemma orEmpty_snd r : (orEmpty r).2 = r.2.
Proof. by destruct r as [[|] ?]. Qed.

Lemma descent_weaken depth c : descent (depth + 1) c -> descent depth c.
Proof. unfold descent. intros [? ?]. split; [lia|done]. Qed.

Lemma fetchAllFiles_inv w claimId : forall n depth folderKey,
  maxDepth + 1 - depth <= n ->
  Forall (fun item => isFile item = Ok true)
         (fetchAllFiles w claimId folderKey depth).1 /\
  exists calls,
    (fetchAllFiles w claimId folderKey depth).2 = (folderKey, depth) :: calls /\
    Forall (descent depth) calls.
Proof.
  induction n as [|n IH]; intros depth folderKey Hn;
    rewrite fetchAllFiles_unfold;
    (destruct (decide (maxDepth < depth)) as [Hdeep|Hin];
       [split; [done|by exists []]|]); [lia|].
  destruct (fetchApi w (filesEndpoint claimId folderKey)) as [[]|];
    try (split; [done|by exists []]).
  rewrite orEmpty_snd.
  edestruct (collectFiles_inv (fun item => isFile item = Ok true) (descent depth)
               (fun key => fetchAllFiles w claimId key (depth + 1)))
    as [Hfiles (calls & -> & Hcalls)]; [done| |constructor|].
  - intros item key Hopen Hkey.
    destruct (IH (depth + 1) key ltac:(lia)) as [Hf (calls & -> & Hc)].
    split; [done|].
    apply isOpenFolder_true in Hopen
      as (? & ? & key' & _ & _ & _ & _ & Hkey' & Htruthy & Hne).
    rewrite Hkey in Hkey'. injection Hkey' as <-.
    constructor.
    + split; [unfold maxDepth in *; simpl; lia|]. split; [done|].
      by apply strictEqStr_false.
    + eapply Forall_impl; [exact Hc|]. apply descent_weaken.
  - split; [exact Hfiles|]. by exists calls.
Qed.

(** A listing without open folder triggers no further call. *)
Lemma collectFiles_flat recurse items : forall allFiles log,
  Forall (fun item => isOpenFolder item <> Ok true) items ->
  (collectFiles recurse items allFiles log).2 = log.
Proof.
  induction items as [|item rest IH]; intros allFiles log Hflat; [done|].
  apply Forall_cons in Hflat as [Hitem Hrest]. simpl.
  destruct (isOpenFolder item) as [[|]|]; [done| |done].
  destruct (isFile item) as [[|]|]; [by apply IH..|done].
Qed.

(** C9. The folder walk is a total function of its arguments, so it
    returns on every service, a cyclic one included: a call deeper than the
    maximum of 5 returns no file and requests nothing; a listing that fails
    or is not an array gives the empty list; every collected entry is a
    file (no folder flag, a file name); the calls made are the call itself
    followed by descents only, each strictly deeper, none deeper than 6,
    each into a key that is set and is not the reserved ATTACHMENTS; a
    listing without a folder that has children and such a key triggers no
    further call; and on the cyclic service the walk returns six files
    after seven calls. *)
Theorem fetchAllFiles_bounded_walk :
  (forall w claimId folderKey depth,
     maxDepth < depth ->
     fetchAllFiles w claimId folderKey depth = ([], [(folderKey, depth)])) /\
  (forall w claimId folderKey depth,
     (forall items, fetchApi w (filesEndpoint claimId folderKey) <> Ok (JArr items)) ->
     fetchAllFiles w claimId folderKey depth = ([], [(folderKey, depth)])) /\
  (forall w claimId folderKey depth item,
     item ∈ (fetchAllFiles w claimId folderKey depth).1 ->
     exists folder filename,
       getProp item "folder" = Ok folder /\ truthy folder = false /\
       getProp item "filename" = Ok filename /\ truthy filename = true) /\
  (forall w claimId folderKey depth, exists calls,
     (fetchAllFiles w claimId folderKey depth).2 = (folderKey, depth) :: calls /\
     forall k d, (k, d) ∈ calls ->
       depth < d <= maxDepth + 1 /\ truthy k = true /\ k <> JStr "ATTACHMENTS") /\
  (forall w claimId folderKey depth items,
     fetchApi w (filesEndpoint claimId folderKey) = Ok (JArr items) ->
     (forall item, item ∈ items ->
        ~ exists folder hasChildren key,
            getProp item "folder" = Ok folder /\ truthy folder = true /\
            getProp item "hasChildren" = Ok hasChildren /\ truthy hasChildren = true /\
            getProp item "key" = Ok key /\ truthy key = true /\
            strictEqStr key "ATTACHMENTS" = false) ->
     (fetchAllFiles w claimId folderKey depth).2 = [(folderKey, depth)]) /\
  fetchAllFiles cyclicWorld (JNum 1) JNull 0
  = (replicate 5 (fileNamed "b.pdf" "k2") ++ [fileNamed "a.pdf" "k1"],
     (JNull, 0) :: map (fun d => (JStr "F", d)) (seq 1 6)).
Proof.
  split; [|split; [|split; [|split; [|split]]]].
  - intros w claimId folderKey depth Hdeep. rewrite fetchAllFiles_unfold.
    by destruct (decide (maxDepth < depth)).
  - intros w claimId folderKey depth Hno. rewrite fetchAllFiles_unfold.
    destruct (decide (maxDepth < depth)); [done|].
    destruct (fetchApi w (filesEndpoint claimId folderKey)) as [[]|]; try done.
    by edestruct Hno.
  - intros w claimId folderKey depth item Hitem.
    destruct (fetchAllFiles_inv w claimId _ depth folderKey (Nat.le_refl _))
      as [Hfiles _].
    rewrite Forall_forall in Hfiles. specialize (Hfiles item Hitem).
    unfold isFile in Hfiles.
    destruct (getProp item "folder") as [folder|]; simpl in Hfiles; [|done].
    destruct (truthy folder) eqn:Hf; [done|].
    destruct (getProp item "filename") as [filename|]; simpl in Hfiles; [|done].
    injection Hfiles as Hname. by exists folder, filename.
  - intros w claimId folderKey depth.
    destruct (fetchAllFiles_inv w claimId _ depth folderKey (Nat.le_refl _))
      as [_ (calls & Hcalls & Hdesc)].
    exists calls. split; [done|]. intros k d Hkd.
    rewrite Forall_forall in Hdesc. apply (Hdesc (k, d) Hkd).
  - intros w claimId folderKey depth items Hitems Hflat.
    rewrite fetchAllFiles_unfold.
    destruct (decide (maxDepth < depth)); [done|].
    rewrite Hitems, orEmpty_snd. apply collectFiles_flat.
    apply Forall_forall. intros item Hitem Hopen.
    apply (Hflat item Hitem). by apply isOpenFolder_true.
  - by vm_compute.
Qed.

(** The theorem at depth 6 of the cyclic service. *)
Lemma fetchAllFiles_bounded_walk_witness :
  fetchAllFiles cyclicWorld (JNum 1) (JStr "F") 6 = ([], [(JStr "F", 6)]).
Proof.
  apply (proj1 fetchAllFiles_bounded_walk). unfold maxDepth. lia.
Defined.

(** *** What [fetchClaimDetails] throws and what it returns *)

Lemma lookupProp_setProp_ne o k v k' :
  k <> k' -> lookupProp (setProp o k v) k' = lookupProp o k'.
Proof.
  intros Hne. induction o as [|[k0 v0] o IH]; simpl.
  - by rewrite (proj2 (String.eqb_neq k' k)).
  - destruct (String.eqb k k0) eqn:Hk; simpl.
    + apply String.eqb_eq in Hk as <-.
      by rewrite (proj2 (String.eqb_neq k' k)).
    + by rewrite IH.
Qed.

Lemma lookupProp_setProp_eq o k v : lookupProp (setProp o k v) k = v.
Proof.
  induction o as [|[k0 v0] o IH]; simpl.
  - by rewrite String.eqb_refl.
  - destruct (String.eqb k k0) eqn:Hk; simpl; [by rewrite String.eqb_refl|].
    by rewrite Hk.
Qed.

(** The merging steps write the keys they name and no other. *)
Ltac keeps_other_keys :=
  repeat match goal with
  | |- context [if ?b then _ else _] => destruct b
  | |- context [lookupProp (setProp _ _ _) _] =>
      rewrite lookupProp_setProp_ne by done
  end; try done.

Ltac other_key :=
  repeat (apply not_elem_of_cons; split; [done|]); apply not_elem_of_nil.

Lemma extractContacts_keeps propcontacts o r k :
  k <> "contacts" ->
  extractContacts propcontacts o = Ok r -> lookupProp r k = lookupProp o k.
Proof.
  intros Hk. unfold extractContacts.
  destruct (truthy propcontacts); [|by intros [= <-]].
  destruct (getProp propcontacts "c") as [c|]; simpl; [|done].
  destruct (if truthy c then _ else _) as [contacts|]; simpl; [|done].
  destruct (getProp propcontacts "cc") as [cc|]; simpl; [|done].
  destruct (match cc with JArr l => _ | _ => _ end) as [contacts'|]; simpl; [|done].
  intros [= <-]. by rewrite lookupProp_setProp_ne.
Qed.

Lemma mergeFullDetails_keeps fullDetails o r k :
  k ∉ ["fullClaimData"; "contacts"; "personnel"; "phases"] ->
  mergeFullDetails fullDetails o = Ok r -> lookupProp r k = lookupProp o k.
Proof.
  rewrite !not_elem_of_cons. intros (H1 & H2 & H3 & H4 & _).
  unfold mergeFullDetails.
  destruct (truthy fullDetails); [|by intros [= <-]].
  destruct (getProp fullDetails "propcontacts") as [propcontacts|]; simpl; [|done].
  destruct (extractContacts propcontacts _) as [r2|] eqn:Hc; simpl; [|done].
  apply (extractContacts_keeps _ _ _ k) in Hc; [|done].
  destruct (getProp fullDetails "personnel") as [personnel|]; simpl; [|done].
  destruct (getProp fullDetails "phases") as [phases|]; simpl; [|done].
  intros [= <-]. rewrite lookupProp_setProp_ne in Hc by done.
  keeps_other_keys.
Qed.

Lemma fanOut_keeps w claimId claimUuid o k :
  k ∉ ["insurance"; "mortgages"; "externalPersonnel"; "actionItems"; "ledger";
       "ledgerNotes"; "ledgerInvoices"; "files"; "notes"; "activity"] ->
  lookupProp (fanOut w claimId claimUuid o) k = lookupProp o k.
Proof.
  rewrite !not_elem_of_cons. intros (?&?&?&?&?&?&?&?&?&?&_).
  unfold fanOut, mergeActivity, mergeArray, mergeFiles, mergeLedger, mergeInsurance.
  keeps_other_keys.
Qed.

Import Driver.




End FetcherFacts.

(** ** The export driver: runs to completion *)

Module DriverFacts.
Import Js JsVal Csv Fetcher Driver.

Lemma exportJob_updateCompletedCount i s :
  exportJob (updateCompletedCount i s) = withCount (i + 1) <$> exportJob s.
Proof.
  unfold updateCompletedCount. destruct (exportJob s) eqn:E; simpl; [done|].
  by rewrite E.
Qed.

Lemma exportedClaim_updateCompletedCount i s :
  exportedClaim (updateCompletedCount i s) = exportedClaim s.
Proof. unfold updateCompletedCount. by destruct (exportJob s). Qed.

Lemma exportError_updateCompletedCount i s :
  exportError (updateCompletedCount i s) = exportError s.
Proof. unfold updateCompletedCount. by destruct (exportJob s). Qed.

Lemma exportComplete_updateCompletedCount i s :
  exportComplete (updateCompletedCount i s) = exportComplete s.
Proof. unfold updateCompletedCount. by destruct (exportJob s). Qed.

(** What the iterations over the indices [l] leave behind. *)
Lemma foldl_iteration w claimsToProcess l : forall s log,
  let r := foldl (fun acc i => iteration w claimsToProcess i acc) (s, log) l in
  r.2 = log ++ l /\
  exportError r.1 = exportError s /\
  exportComplete r.1 = exportComplete s /\
  (forall i, i ∈ l ->
     exportedClaim r.1 !! i = Some (claimDataFor w (claimAt claimsToProcess i))) /\
  (forall i, i ∉ l -> exportedClaim r.1 !! i = exportedClaim s !! i) /\
  exportJob r.1 = match last l with
                  | None => exportJob s
                  | Some i => withCount (i + 1) <$> exportJob s
                  end.
Proof.
  induction l as [|k l IH]; intros s log; simpl.
  { rewrite app_nil_r. repeat split; try done. by intros i ?%elem_of_nil. }
  set (s' := updateCompletedCount k _).
  destruct (IH s' (log ++ [k])) as (Hlog & Herr & Hdone & Hin & Hout & Hjob).
  simpl in *. split; [by rewrite Hlog, <- app_assoc|].
  split; [by rewrite Herr; unfold s'; rewrite exportError_updateCompletedCount|].
  split; [by rewrite Hdone; unfold s'; rewrite exportComplete_updateCompletedCount|].
  assert (forall i, exportedClaim s' !! i
                    = if decide (k = i)
                      then Some (claimDataFor w (claimAt claimsToProcess k))
                      else exportedClaim s !! i) as Hs'.
  { intros i. unfold s'. rewrite exportedClaim_updateCompletedCount. simpl.
    by rewrite lookup_insert. }
  split; [|split].
  - intros i Hi. destruct (decide (i ∈ l)) as [Hl|Hl]; [by apply Hin|].
    rewrite Hout, Hs' by done. apply elem_of_cons in Hi as [->|]; [|done].
    by rewrite decide_True.
  - intros i [Hne Hl]%not_elem_of_cons. rewrite Hout, Hs' by done.
    by rewrite decide_False.
  - rewrite Hjob. unfold s'. rewrite exportJob_updateCompletedCount. simpl.
    destruct l as [|k' l]; [done|]. simpl.
    destruct (last (k' :: l)) eqn:Hlast; [by destruct (exportJob s)|].
    by apply last_None in Hlast.
Qed.

Lemma last_seq a n : last (seq a (S n)) = Some (a + n).
Proof. rewrite seq_S, last_snoc. done. Qed.

(** The store and the log [processClaimsList] returns. *)
Lemma processClaimsList_spec w claimsToProcess startFrom s :
  let total := List.length claimsToProcess in
  let r := processClaimsList w claimsToProcess startFrom s in
  r.2 = seq startFrom (total - startFrom) /\
  exportError r.1 = exportError s /\
  exportComplete r.1 = true /\
  exportProgress r.1 = None /\
  (forall i, startFrom <= i < total ->
     exportedClaim r.1 !! i = Some (claimDataFor w (claimAt claimsToProcess i))) /\
  (forall i, ~ startFrom <= i < total ->
     exportedClaim r.1 !! i = exportedClaim s !! i) /\
  exportJob r.1 = (if decide (startFrom < total)
                   then withCount total <$> exportJob s
                   else exportJob s).
Proof.
  intros total r. unfold r, processClaimsList. fold total.
  set (s0 := saveProgress _ _ _ s).
  destruct (foldl_iteration w claimsToProcess (seq startFrom (total - startFrom)) s0 [])
    as (Hlog & Herr & Hdone & Hin & Hout & Hjob).
  destruct (foldl _ _ _) as [s1 log]. simpl in *.
  split; [done|]. split; [done|]. split; [done|]. split; [done|].
  split; [|split].
  - intros i Hi. apply Hin. apply elem_of_seq. lia.
  - intros i Hi. apply Hout. rewrite elem_of_seq. lia.
  - rewrite Hjob. destruct (decide (startFrom < total)) as [Hlt|Hge].
    + replace (total - startFrom) with (S (total - startFrom - 1)) by lia.
      rewrite last_seq. replace (startFrom + (total - startFrom - 1) + 1) with total by lia.
      done.
    + by replace (total - startFrom) with 0 by lia.
Qed.

Lemma claimAt_lookup claimsToProcess i c :
  claimsToProcess !! i = Some c -> claimAt claimsToProcess i = c.
Proof. unfold claimAt. by intros ->. Qed.

(** C2. When the fetch of the claim at index [i] throws, the loop stores at
    key [i] the fields of the claim with the message under error, then goes
    on: the indices fetched are all those from the start index to the last,
    in order, every one of them has its record stored, the error key of the
    store is left as it was and the job ends marked complete, its counter
    at the total. *)
Theorem processClaimsList_isolates_failures w claimsToProcess startFrom s i c msg :
  startFrom <= i ->
  claimsToProcess !! i = Some c ->
  fetchClaimDetails w c = Throw msg ->
  let total := List.length claimsToProcess in
  let r := processClaimsList w claimsToProcess startFrom s in
  exportedClaim r.1 !! i
  = Some (JObj [("fileNumber", JStr (fileNumber c));
                ("rowIndex", JNum (Z.of_nat (rowIndex c)));
                ("error", JStr msg)]) /\
  r.2 = seq startFrom (total - startFrom) /\
  (forall k, i < k < total -> k ∈ r.2) /\
  (forall k, startFrom <= k < total -> is_Some (exportedClaim r.1 !! k)) /\
  exportError r.1 = exportError s /\
  exportComplete r.1 = true /\
  exportJob r.1 = withCount total <$> exportJob s.
Proof.
  intros Hstart Hc Hthrow total r.
  assert (i < total) as Hi by (by eapply lookup_lt_Some).
  destruct (processClaimsList_spec w claimsToProcess startFrom s)
    as (Hlog & Herr & Hdone & _ & Hin & _ & Hjob).
  fold total r in Hlog, Herr, Hdone, Hin, Hjob.
  split; [|split; [done|split; [|split; [|split; [done|split; [done|]]]]]].
  - rewrite Hin by lia. rewrite (claimAt_lookup _ _ _ Hc).
    unfold claimDataFor. by rewrite Hthrow.
  - intros k Hk. rewrite Hlog. apply elem_of_seq. lia.
  - intros k Hk. by rewrite Hin.
  - rewrite Hjob. by rewrite decide_True by lia.
Qed.

Lemma rebuildClaims_lookup fns i fn :
  fns !! i = Some fn -> rebuildClaims fns !! i = Some (Claim fn i).
Proof. intros H. unfold rebuildClaims. by rewrite list_lookup_imap, H. Qed.

Lemma rebuildClaims_length fns : List.length (rebuildClaims fns) = List.length fns.
Proof. apply length_imap. Qed.

Lemma rebuildClaims_fileNumbers fns : map fileNumber (rebuildClaims fns) = fns.
Proof.
  apply list_eq. intros i. unfold rebuildClaims.
  change (map fileNumber) with (fmap (M := list) fileNumber).
  rewrite list_lookup_fmap, list_lookup_imap. by destruct (fns !! i).
Qed.

(** C7. Resume rebuilds the claims from the file numbers of the stored job
    and runs the loop from its counter [k]: the indices fetched are [k],
    [k+1], ..., up to the last, each once and in order; no index below [k]
    is fetched and the records stored below [k] are left as they are; every
    index from [k] to the last gets its record, fetched for the file number
    the job holds at that index. *)
Theorem resumeExport_starts_at_completedCount w s j :
  exportJob s = Some j ->
  total j = List.length (fileNumbers j) ->
  let k := completedCount j in
  let r := resumeExport w s in
  map fileNumber (rebuildClaims (fileNumbers j)) = fileNumbers j /\
  r.2 = seq k (total j - k) /\
  (forall i, i < k -> (i ∉ r.2) /\ exportedClaim r.1 !! i = exportedClaim s !! i) /\
  (forall i fn, k <= i -> fileNumbers j !! i = Some fn ->
     i ∈ r.2 /\
     exportedClaim r.1 !! i = Some (claimDataFor w (Claim fn i))).
Proof.
  intros Hjob Htotal k r.
  unfold r, resumeExport. rewrite Hjob. fold k.
  destruct (processClaimsList_spec w (rebuildClaims (fileNumbers j)) k s)
    as (Hlog & _ & _ & _ & Hin & Hout & _).
  rewrite rebuildClaims_length, <- Htotal in Hlog, Hin, Hout.
  split; [apply rebuildClaims_fileNumbers|]. split; [done|]. split.
  - intros i Hi. split; [|apply Hout; lia].
    rewrite Hlog, elem_of_seq. lia.
  - intros i fn Hi Hfn.
    assert (i < total j) by (rewrite Htotal; by eapply lookup_lt_Some).
    split; [rewrite Hlog, elem_of_seq; lia|].
    rewrite Hin by lia.
    by rewrite (claimAt_lookup _ _ _ (rebuildClaims_lookup _ _ _ Hfn)).
Qed.

(** The theorem on a job of three file numbers, two of them done. *)
Lemma resumeExport_starts_at_completedCount_witness :
  (resumeExport cyclicWorld
     (setJob (Job ["A1"; "B2"; "C3"] 3 2 false) emptyStorage)).2 = [2].
Proof.
  exact (proj1 (proj2 (resumeExport_starts_at_completedCount cyclicWorld
     (setJob (Job ["A1"; "B2"; "C3"] 3 2 false) emptyStorage)
     (Job ["A1"; "B2"; "C3"] 3 2 false) eq_refl eq_refl))).
Defined.

(** The theorem on a service that refuses every search: three claims, the
    second throws like the others, all three are fetched and stored. *)
Lemma processClaimsList_isolates_failures_witness :
  (processClaimsList refusingWorld
     [Claim "A1" 1; Claim "B2" 2; Claim "C3" 3] 0 emptyStorage).2 = [0; 1; 2].
Proof.
  exact (proj1 (proj2 (processClaimsList_isolates_failures refusingWorld
     [Claim "A1" 1; Claim "B2" 2; Claim "C3" 3] 0 emptyStorage 1 (Claim "B2" 2)
     "Search failed: 500" ltac:(lia) eq_refl eq_refl))).
Defined.

Lemma prepare_Ok csvText testMode claims :
  parseCsv csvText = Ok claims -> claims <> [] ->
  prepare csvText testMode = Ok (claimsToProcess claims testMode).
Proof.
  intros Hparse Hne. unfold prepare. rewrite Hparse. simpl.
  destruct claims; [done|]. done.
Qed.

(** C10. When the CSV parses to at least one identifier: in test mode the
    job saved at the start holds the first identifier alone, with total 1,
    and index 0 is the only one fetched; without test mode the job holds
    all the identifiers, its total is their number, and all of them are
    fetched, in order. *)
Theorem processCsvAndFetchData_testMode w csvText claims c s :
  parseCsv csvText = Ok claims ->
  head claims = Some c ->
  (exportJob (store (startExport csvText true s)) = Some (Job [fileNumber c] 1 0 true) /\
   at_ (startExport csvText true s) = Persisting [c] /\
   let r := processCsvAndFetchData w csvText true s in
   r.2 = [0] /\
   exportJob r.1 = Some (Job [fileNumber c] 1 1 true) /\
   exportedClaim r.1 !! 0 = Some (claimDataFor w c)) /\
  (exportJob (store (startExport csvText false s))
   = Some (Job (map fileNumber claims) (List.length claims) 0 false) /\
   at_ (startExport csvText false s) = Persisting claims /\
   let r := processCsvAndFetchData w csvText false s in
   r.2 = seq 0 (List.length claims) /\
   exportJob r.1
   = Some (Job (map fileNumber claims) (List.length claims) (List.length claims) false) /\
   forall i c', claims !! i = Some c' ->
                exportedClaim r.1 !! i = Some (claimDataFor w c')).
Proof.
  intros Hparse Hhead.
  assert (claims <> []) as Hne by (by destruct claims).
  assert (claimsToProcess claims true = [c]) as Htest.
  { destruct claims; simpl in *; [done|]. by injection Hhead as ->. }
  split.
  - unfold startExport, processCsvAndFetchData.
    rewrite (prepare_Ok _ _ _ Hparse Hne), Htest.
    split; [done|]. split; [done|].
    destruct (processClaimsList_spec w [c] 0 (setJob (newJob [c] true) s))
      as (Hlog & _ & _ & _ & Hin & _ & Hjob).
    simpl in *. split; [done|]. split; [by rewrite Hjob|].
    by rewrite Hin by lia.
  - unfold startExport, processCsvAndFetchData.
    rewrite (prepare_Ok _ _ _ Hparse Hne). simpl.
    split; [done|]. split; [done|].
    destruct (processClaimsList_spec w claims 0 (setJob (newJob claims false) s))
      as (Hlog & _ & _ & _ & Hin & _ & Hjob).
    simpl in *. rewrite Nat.sub_0_r in Hlog. split; [done|]. split.
    + rewrite Hjob. destruct claims; [done|]. rewrite decide_True by (simpl; lia).
      done.
    + intros i c' Hc'. rewrite Hin by (split; [lia|by eapply lookup_lt_Some]).
      by rewrite (claimAt_lookup _ _ _ Hc').
Qed.

(** The theorem on a file of two identifiers. *)
Lemma processCsvAndFetchData_testMode_witness :
  (processCsvAndFetchData refusingWorld
     ("Claim #" +:+ chr LF +:+ "A1" +:+ chr LF +:+ "B2") true emptyStorage).2 = [0] /\
  (processCsvAndFetchData refusingWorld
     ("Claim #" +:+ chr LF +:+ "A1" +:+ chr LF +:+ "B2") false emptyStorage).2 = [0; 1].
Proof.
  pose proof (processCsvAndFetchData_testMode refusingWorld
     ("Claim #" +:+ chr LF +:+ "A1" +:+ chr LF +:+ "B2")
     [Claim "A1" 1; Claim "B2" 2] (Claim "A1" 1) emptyStorage
     ltac:(by vm_compute) eq_refl) as [(_ & _ & H1 & _) (_ & _ & H2 & _)].
  split; [exact H1|exact H2].
Defined.

End DriverFacts.

(** ** The export driver: interrupted and resumed runs *)

Module MachineFacts.
Import Js JsVal Csv Fetcher Driver DriverFacts.

Lemma storedKeys_saveClaim i v s m :
  storedKeys s = set_seq 0 m -> i <= m ->
  storedKeys (saveClaimToStorage i v s) = set_seq 0 (m `max` (i + 1)).
Proof.
  unfold storedKeys. simpl. intros Hs Hi. rewrite dom_insert_L, Hs.
  apply set_eq. intros k.
  rewrite elem_of_union, elem_of_singleton, !elem_of_set_seq. lia.
Qed.

(** The head of the loop keeps the invariant. *)
Lemma enterLoop_inv claimsToProcess i st m j :
  storedKeys (store st) = set_seq 0 m ->
  Forall (fun k => k < m) (pending st) ->
  exportJob (store st) = Some j ->
  List.length (fileNumbers j) = total j ->
  completedCount j <= m <= total j ->
  List.length claimsToProcess = total j ->
  i <= m ->
  ledger_inv (enterLoop claimsToProcess i st).
Proof.
  intros Hkeys Hpend Hjob Hlen Hcc Hclaims Hi. unfold enterLoop.
  destruct (decide (i < List.length claimsToProcess)) as [Hlt|Hge];
    exists m; simpl; rewrite Hjob; repeat split; try done; lia.
Qed.

Lemma ledger_inv_start csvText testMode :
  ledger_inv (startExport csvText testMode emptyStorage).
Proof.
  unfold startExport. destruct (prepare csvText testMode) as [toProcess|msg];
    exists 0; simpl; repeat split; try done; try lia; try by left.
  - by rewrite length_map.
Qed.

Lemma ledger_inv_step w st st' : step w st st' -> ledger_inv st -> ledger_inv st'.
Proof.
  intros Hstep (m & Hkeys & Hpend & Hjob). destruct Hstep as [st Hrun|st i rest Hq|st|st Hstop].
  - unfold resume_await. destruct (at_ st) as [|cl| |cl i|cl i|cl i] eqn:Hat; [done|..].
    + destruct (exportJob (store st)) as [j|] eqn:Hj; [|naive_solver].
      destruct Hjob as (Hlen & Hcc & Hcl). simpl in Hcl.
      eapply (enterLoop_inv cl 0 _ m j); simpl; try done. lia.
    + destruct (exportJob (store st)) as [j|] eqn:Hj.
      * destruct Hjob as (Hlen & Hcc & _).
        eapply (enterLoop_inv _ _ _ m j); simpl; try done; [|lia].
        by rewrite rebuildClaims_length.
      * exists m. simpl. rewrite Hj. split; [done|]. split; [done|].
        split; [apply Hjob|by left].
    + destruct (exportJob (store st)) as [j|] eqn:Hj; [|naive_solver].
      destruct Hjob as (Hlen & Hcc & Hcl & HiN & Him).
      exists (m `max` (i + 1)). simpl. rewrite Hj.
      split; [by apply storedKeys_saveClaim|].
      split; [eapply Forall_impl; [exact Hpend|]; simpl; lia|].
      repeat split; try done; lia.
    + destruct (exportJob (store st)) as [j|] eqn:Hj; [|naive_solver].
      destruct Hjob as (Hlen & Hcc & Hcl & HiN & Him).
      destruct (decide (i < List.length cl - 1)).
      * exists m. simpl. rewrite Hj. split; [done|].
        split; [apply Forall_app; split; [done|by repeat constructor]|].
        done.
      * eapply (enterLoop_inv cl (i + 1) _ m j); simpl; try done; [|lia].
        apply Forall_app. split; [done|by repeat constructor].
    + destruct (exportJob (store st)) as [j|] eqn:Hj; [|naive_solver].
      destruct Hjob as (Hlen & Hcc & Hcl & HiN & Him).
      eapply (enterLoop_inv cl (i + 1) _ m j); simpl; try done. lia.
  - rewrite Hq in Hpend. apply Forall_cons in Hpend as [Hi Hrest].
    exists m. simpl. unfold storedKeys.
    rewrite exportedClaim_updateCompletedCount, exportJob_updateCompletedCount.
    split; [done|]. split; [done|].
    destruct (exportJob (store st)) as [j|]; simpl; [|done].
    destruct Hjob as (Hlen & Hcc & Hcl). repeat split; try done; lia.
  - exists m. simpl. split; [done|]. split; [done|].
    destruct (exportJob (store st)); [|naive_solver].
    destruct Hjob as (Hlen & Hcc & _). done.
  - exists m. simpl. split; [done|]. split; [done|].
    destruct (exportJob (store st)); [|naive_solver].
    destruct Hjob as (Hlen & Hcc & _). done.
Qed.

Lemma reachable_ledger_inv w csvText testMode st :
  reachable w csvText testMode st -> ledger_inv st.
Proof.
  unfold reachable. intros Hrun.
  eapply (rtc_ind_r (fun st => ledger_inv st)); [| |exact Hrun].
  - apply ledger_inv_start.
  - intros st1 st2 _ Hstep IH. by eapply ledger_inv_step.
Qed.

Lemma closed_while_saving_reachable :
  reachable refusingWorld two_claims_csv false closed_while_saving.
Proof.
  unfold reachable, closed_while_saving.
  eapply rtc_l; [by apply step_driver; vm_compute|].
  eapply rtc_l; [by apply step_driver; vm_compute|].
  eapply rtc_l; [apply step_page_closed|].
  apply rtc_refl.
Qed.

(** C1, as stated, fails: the page is closed while the first record of a
    job of two is being saved; the store then holds the key 0 and a ledger
    whose counter is 0. *)
Lemma record_stored_before_counter :
  reachable refusingWorld two_claims_csv false closed_while_saving /\
  exportJob (store closed_while_saving) = Some (Job ["A1"; "B2"] 2 0 false) /\
  is_Some (exportedClaim (store closed_while_saving) !! 0) /\
  storedKeys (store closed_while_saving) <> set_seq 0 0.
Proof.
  split; [apply closed_while_saving_reachable|].
  split; [by vm_compute|].
  assert (is_Some (exportedClaim (store closed_while_saving) !! 0)) as Hkey.
  { eexists. vm_compute. reflexivity. }
  split; [done|].
  intros H. assert (0 ∈ storedKeys (store closed_while_saving)) as H0.
  { by apply elem_of_dom. }
  rewrite H in H0. by apply elem_of_set_seq in H0.
Qed.

(** C1, as the code has it. At every point of a run of the export, started
    on a store without claim records, interrupted and resumed any number of
    times, the stored keys are the indices below some [m] with no gap, and
    the counter of the ledger is at most [m], which is at most the total:
    no index below the counter is missing. A key at or beyond the counter
    can be stored, the record being written before the counter advances. *)
Theorem stored_keys_gap_free w csvText testMode st :
  reachable w csvText testMode st ->
  exists m,
    (forall i, is_Some (exportedClaim (store st) !! i) <-> i < m) /\
    match exportJob (store st) with
    | Some j =>
        completedCount j <= m <= total j /\
        forall i, i < completedCount j -> is_Some (exportedClaim (store st) !! i)
    | None => m = 0
    end.
Proof.
  intros (m & Hkeys & _ & Hjob)%reachable_ledger_inv.
  assert (forall i, is_Some (exportedClaim (store st) !! i) <-> i < m) as Hm.
  { intros i. rewrite <- elem_of_dom. fold (storedKeys (store st)).
    rewrite Hkeys, elem_of_set_seq. lia. }
  exists m. split; [done|].
  destruct (exportJob (store st)) as [j|]; [|by destruct Hjob].
  destruct Hjob as (_ & Hcc & _). split; [done|].
  intros i Hi. apply Hm. lia.
Qed.

(** The theorem on the interrupted run above. *)
Lemma stored_keys_gap_free_witness :
  exists m,
    (forall i, is_Some (exportedClaim (store closed_while_saving) !! i) <-> i < m) /\
    match exportJob (store closed_while_saving) with
    | Some j =>
        completedCount j <= m <= total j /\
        forall i, i < completedCount j ->
                  is_Some (exportedClaim (store closed_while_saving) !! i)
    | None => m = 0
    end.
Proof.
  apply (stored_keys_gap_free refusingWorld two_claims_csv false).
  unfold reachable, closed_while_saving.
  eapply rtc_l; [by apply step_driver; vm_compute|].
  eapply rtc_l; [by apply step_driver; vm_compute|].
  eapply rtc_l; [apply step_page_closed|].
  apply rtc_refl.
Defined.

(** *** The run to completion is a run of the machine *)






End MachineFacts.

(** ** JSON text written by [stringify] *)

Module JsonFacts.
Import Js JsFacts JsVal Json.

(** Induction on the values, through the arrays and the objects. *)
Lemma js_rect' (P : js -> Prop) :
  P JUndefined -> P JNull -> (forall b, P (JBool b)) -> (forall n, P (JNum n)) ->
  (forall s, P (JStr s)) ->
  (forall a, Forall P a -> P (JArr a)) ->
  (forall o, Forall (fun kv => P kv.2) o -> P (JObj o)) ->
  forall v, P v.
Proof.
  intros Hu Hn Hb Hz Hs Ha Ho.
  fix IH 1. intros [| |b|n|s|a|o].
  - exact Hu.
  - exact Hn.
  - apply Hb.
  - apply Hz.
  - apply Hs.
  - apply Ha. induction a as [|x a IHa]; constructor; [apply IH|exact IHa].
  - apply Ho. induction o as [|[k x] o IHo]; constructor; [apply IH|exact IHo].
Qed.

Lemma ws_nil : ws EmptyString = true.
Proof. done. Qed.

Lemma ws_app a b : ws a = true -> ws b = true -> ws (a +:+ b) = true.
Proof.
  intros Ha Hb. induction a as [|c a IH]; [done|].
  rewrite sapp_cons. simpl in *. apply andb_prop in Ha as [-> Ha]. by apply IH.
Qed.

Lemma all_plain_app a b :
  all_plain a = true -> all_plain b = true -> all_plain (a +:+ b) = true.
Proof.
  intros Ha Hb. induction a as [|c a IH]; [done|].
  rewrite sapp_cons. simpl in *. apply andb_prop in Ha as [-> Ha]. by apply IH.
Qed.

Lemma chars_all_plain s : all_plain s = true -> chars s s.
Proof.
  induction s as [|c s IH]; simpl; [constructor|].
  intros [Hc Hs]%andb_prop. constructor; auto.
Qed.

Lemma escape_u' e c h1 h2 x y :
  e = "u00" +:+ chr h1 +:+ chr h2 ->
  hexValue h1 = Some x -> hexValue h2 = Some y ->
  c = ascii_of_nat (16 * x + y) -> escape e c.
Proof. intros -> ? ? ->. by constructor. Qed.

(** A character is written as it is when the grammar allows it, and as one
    of the escapes otherwise. *)
Lemma escapeChar_spec c :
  (is_plain c = true /\ escapeChar c = chr c) \/
  (exists e, escapeChar c = String backslash e /\ escape e c).
Proof.
  destruct c as [[] [] [] [] [] [] [] []];
    first [ left; split; reflexivity
          | right; eexists; split; [reflexivity|];
            first [ constructor
                  | eapply escape_u'; reflexivity ] ].
Qed.

Lemma chars_escapeString s : chars (escapeString s) s.
Proof.
  induction s as [|c s IH]; simpl; [constructor|].
  destruct (escapeChar_spec c) as [[Hc ->]|(e & -> & He)].
  - unfold chr. rewrite sapp_cons, sapp_nil_l. by constructor.
  - by constructor.
Qed.

Lemma padded_bare {A} (R : string -> A -> Prop) t v : R t v -> padded R t v.
Proof.
  intros H. rewrite <- (sapp_nil_r t), <- (sapp_nil_l (t +:+ EmptyString)).
  by constructor.
Qed.

Lemma denotes_quote s : denotes (quote s) (JStr s).
Proof. constructor. apply chars_escapeString. Qed.

(** The constructors of the grammar for a text given up to an equation. *)
Lemma denotes_arr' t ts a :
  ts <> [] -> Forall2 (padded denotes) ts a ->
  t = "[" +:+ join "," ts +:+ "]" -> denotes t (JArr a).
Proof. intros ? ? ->. by constructor. Qed.

Lemma denotes_obj' t ts o :
  ts <> [] -> Forall2 (member denotes) ts o ->
  t = "{" +:+ join "," ts +:+ "}" -> denotes t (JObj o).
Proof. intros ? ? ->. by constructor. Qed.

Lemma stringify_arr a :
  stringify (JArr a) = "[" +:+ join "," (map elementText a) +:+ "]".
Proof. done. Qed.

Lemma stringify_obj o :
  stringify (JObj o) = "{" +:+ join "," (memberTexts o) +:+ "}".
Proof. done. Qed.

Lemma clean_arr a : clean (JArr a) = JArr (map elementValue a).
Proof. done. Qed.

Lemma clean_obj o : clean (JObj o) = JObj (memberValues o).
Proof. done. Qed.

Lemma member_bare k x :
  denotes (stringify x) (clean x) ->
  member denotes (quote k +:+ ":" +:+ stringify x) (k, clean x).
Proof.
  intros Hx.
  replace (quote k +:+ ":" +:+ stringify x)
    with (EmptyString +:+ quoted (escapeString k) +:+ EmptyString +:+ ":" +:+ stringify x)
    by done.
  constructor; [done|done|apply chars_escapeString|by apply padded_bare].
Qed.

Lemma memberTexts_cons k x o :
  x <> JUndefined ->
  memberTexts ((k, x) :: o) = (quote k +:+ ":" +:+ stringify x) :: memberTexts o /\
  memberValues ((k, x) :: o) = (k, clean x) :: memberValues o.
Proof. by destruct x. Qed.

Lemma members_denote o :
  Forall (fun kv => kv.2 <> JUndefined -> denotes (stringify kv.2) (clean kv.2)) o ->
  Forall2 (member denotes) (memberTexts o) (memberValues o).
Proof.
  induction 1 as [|[k x] o Hx Ho IH]; [constructor|].
  assert (x = JUndefined \/ x <> JUndefined) as [->|Hdef]
    by (destruct x; eauto).
  - exact IH.
  - destruct (memberTexts_cons k x o Hdef) as [-> ->].
    constructor; [|exact IH]. by apply member_bare, Hx.
Qed.

Lemma elements_denote a :
  Forall (fun x => x <> JUndefined -> denotes (stringify x) (clean x)) a ->
  Forall2 (padded denotes) (map elementText a) (map elementValue a).
Proof.
  induction 1 as [|x a Hx Ha IH]; [constructor|].
  simpl. constructor; [|exact IH]. apply padded_bare.
  assert (x = JUndefined \/ x <> JUndefined) as [->|Hdef]
    by (destruct x; eauto).
  - constructor.
  - replace (elementText x) with (stringify x) by (by destruct x).
    replace (elementValue x) with (clean x) by (by destruct x).
    by apply Hx.
Qed.

(** Whatever is not [undefined] is written as a JSON text, which denotes the
    value without its undefined parts. *)
Lemma stringify_denotes v : v <> JUndefined -> denotes (stringify v) (clean v).
Proof.
  induction v as [| |[|]|n|s|a IH|o IH] using js_rect'; intros Hv;
    try done; try by constructor.
  - apply denotes_quote.
  - rewrite stringify_arr, clean_arr.
    pose proof (elements_denote a IH) as Hm.
    destruct a as [|x a].
    { apply (denotes_arr_empty EmptyString). done. }
    by apply denotes_arr.
  - rewrite stringify_obj, clean_obj.
    pose proof (members_denote o IH) as Hm.
    destruct (memberTexts o) as [|t ts] eqn:Ht.
    { apply Forall2_nil_inv_l in Hm as ->.
      apply (denotes_obj_empty EmptyString). done. }
    by apply denotes_obj.
Qed.

End JsonFacts.

(** ** The export assembler *)

Module AssemblerFacts.
Import Js JsFacts JsVal Driver Json JsonFacts Assembler.

Lemma all_plain_pretty_N_go x : forall s,
  all_plain s = true -> all_plain (pretty_N_go x s) = true.
Proof.
  induction (N.lt_wf_0 x) as [x _ IH]; intros s Hs.
  assert (x = 0 \/ 0 < x)%N as [->|Hpos] by lia.
  - by rewrite pretty_N_go_0.
  - rewrite pretty_N_go_step by done. apply IH; [by apply N.div_lt|].
    simpl. rewrite Hs, andb_true_r.
    unfold pretty_N_char. by repeat case_match.
Qed.

Lemma all_plain_pretty_nat (n : nat) : all_plain (pretty n) = true.
Proof.
  unfold pretty, pretty_nat, pretty, pretty_N.
  case_decide; [done|]. by apply all_plain_pretty_N_go.
Qed.

Lemma pretty_Z_of_nat (n : nat) : pretty (Z.of_nat n) = pretty n.
Proof. by destruct n. Qed.

Lemma batches_unfold s count batchStart st :
  batches s count batchStart st =
  if decide (batchStart < count) then
    let batchEnd := (batchStart + LOAD_BATCH_SIZE) `min` count in
    let keys := seq batchStart (batchEnd - batchStart) in
    let r := appendClaims (getClaims keys s) keys EmptyString (isFirstClaim st) in
    batches s count (batchStart + LOAD_BATCH_SIZE)
      (Assembling
         (if decide (0 < String.length r.1)
          then blobParts st ++ [r.1] else blobParts st)
         r.2 (requests st ++ [keys]))
  else st.
Proof.
  rewrite (batches_equation_1 s count batchStart st).
  by destruct (decide (batchStart < count)).
Qed.

Lemma getClaims_lookup keys s i :
  i ∈ keys -> getClaims keys s !! i = exportedClaim s !! i.
Proof.
  intros Hi. unfold getClaims.
  destruct (exportedClaim s !! i) as [v|] eqn:Hv.
  - by apply map_lookup_filter_Some.
  - apply map_lookup_filter_None. left. done.
Qed.

Lemma blobText_snoc parts x : blobText (parts ++ [x]) = blobText parts +:+ x.
Proof.
  unfold blobText. induction parts as [|p parts IH]; simpl.
  - by rewrite sapp_nil_r.
  - by rewrite IH, sapp_assoc.
Qed.

Lemma blobText_single x : blobText [x] = x.
Proof. unfold blobText. simpl. apply sapp_nil_r. Qed.

Lemma length_0_empty s : ~ 0 < String.length s -> s = EmptyString.
Proof. destruct s; simpl; [done|lia]. Qed.

Lemma recordLines_app l1 : forall b l2,
  recordLines b (l1 ++ l2)
  = recordLines b l1 +:+ recordLines (match l1 with [] => b | _ => false end) l2.
Proof.
  induction l1 as [|r l1 IH]; intros b l2; [done|].
  simpl. rewrite IH, !sapp_assoc. by destruct l1.
Qed.

(** The inner loop writes the lines of its records. *)
Lemma appendClaims_spec batchData indices : forall recs batchStr isFirst,
  Forall2 (fun i r => batchData !! i = Some r /\ truthy r = true) indices recs ->
  appendClaims batchData indices batchStr isFirst
  = (batchStr +:+ recordLines isFirst recs,
     match recs with [] => isFirst | _ => false end).
Proof.
  induction indices as [|i indices IH]; intros recs batchStr isFirst Hrecs.
  { apply Forall2_nil_inv_l in Hrecs as ->. simpl. by rewrite sapp_nil_r. }
  apply Forall2_cons_inv_l in Hrecs as (r & recs' & [Hr Ht] & Hrest & ->).
  simpl. rewrite Hr. simpl. rewrite Ht. rewrite (IH recs') by done.
  f_equal; [|by destruct recs'].
  unfold recordLine. destruct isFirst; by snorm.
Qed.

Lemma rangeRecords_app s a n1 n2 :
  rangeRecords s a (n1 + n2) = rangeRecords s a n1 ++ rangeRecords s (a + n1) n2.
Proof. unfold rangeRecords. by rewrite seq_app, omap_app. Qed.

(** Under the checkpoint invariant a range below the counter holds its
    records, one for each index. *)
Lemma rangeRecords_checkpointed s count : forall n a keys,
  checkpointed s count -> a + n <= count -> (forall i, i ∈ seq a n -> i ∈ keys) ->
  Forall2 (fun i r => getClaims keys s !! i = Some r /\ truthy r = true)
          (seq a n) (rangeRecords s a n).
Proof.
  unfold rangeRecords.
  induction n as [|n IH]; intros a keys Hcp Han Hkeys; simpl; [constructor|].
  destruct (Hcp a ltac:(lia)) as [o Ho]. rewrite Ho. simpl.
  constructor.
  - split; [|done]. rewrite getClaims_lookup; [done|]. apply Hkeys. by left.
  - apply IH; [done|lia|]. intros i Hi. apply Hkeys. by right.
Qed.

Lemma rangeRecords_truthy s count a n :
  checkpointed s count -> a + n <= count ->
  List.length (rangeRecords s a n) = n /\
  Forall (fun r => truthy r = true) (rangeRecords s a n).
Proof.
  intros Hcp Han.
  pose proof (rangeRecords_checkpointed s count n a (seq a n) Hcp Han
                ltac:(done)) as H.
  split.
  - by rewrite <- (Forall2_length _ _ _ H), length_seq.
  - eapply Forall2_Forall_r; [exact H|]. apply Forall_forall. by intros ? _ ? [_ ?].
Qed.

(** The outer loop: the text grows by the lines of the records from
    [batchStart] on, and the reads are the batches of keys, a hundred at a
    time. *)
Lemma batches_spec s count :
  checkpointed s count ->
  forall n batchStart st, count - batchStart <= n ->
  let r := batches s count batchStart st in
  blobText (blobParts r)
  = blobText (blobParts st) +:+
    recordLines (isFirstClaim st) (rangeRecords s batchStart (count - batchStart)) /\
  exists reads,
    requests r = requests st ++ reads /\
    List.concat reads = seq batchStart (count - batchStart) /\
    forall k keys, reads !! k = Some keys -> keys = batchKeys count batchStart k.
Proof.
  intros Hcp. induction n as [|n IH]; intros batchStart st Hn;
    rewrite batches_unfold;
    (destruct (decide (batchStart < count)) as [Hlt|Hge];
       [|replace (count - batchStart) with 0 by lia; simpl;
         rewrite sapp_nil_r; split; [done|]; exists [];
         by rewrite app_nil_r]); [lia|].
  cbv zeta.
  set (batchEnd := (batchStart + LOAD_BATCH_SIZE) `min` count).
  set (keys := seq batchStart (batchEnd - batchStart)).
  assert (batchStart + (batchEnd - batchStart) <= count) as Hend
    by (unfold batchEnd; lia).
  rewrite (appendClaims_spec _ _ (rangeRecords s batchStart (batchEnd - batchStart)))
    by (by eapply rangeRecords_checkpointed).
  simpl. rewrite sapp_nil_l.
  set (recs1 := rangeRecords s batchStart (batchEnd - batchStart)).
  set (st' := Assembling _ _ _).
  destruct (IH (batchStart + LOAD_BATCH_SIZE) st') as [Htext (reads & Hreq & Hcat & Hkeys)].
  { unfold LOAD_BATCH_SIZE. lia. }
  assert (blobText (blobParts st')
          = blobText (blobParts st) +:+ recordLines (isFirstClaim st) recs1) as Hparts.
  { unfold st'. simpl. case_decide as Hlen.
    - apply blobText_snoc.
    - apply length_0_empty in Hlen. by rewrite Hlen, sapp_nil_r. }
  assert (count - batchStart
          = (batchEnd - batchStart) + (count - (batchStart + LOAD_BATCH_SIZE))) as Hsplit
    by (unfold batchEnd, LOAD_BATCH_SIZE; lia).
  assert (rangeRecords s (batchStart + (batchEnd - batchStart))
            (count - (batchStart + LOAD_BATCH_SIZE))
          = rangeRecords s (batchStart + LOAD_BATCH_SIZE)
              (count - (batchStart + LOAD_BATCH_SIZE))) as Hrest.
  { destruct (decide (batchStart + LOAD_BATCH_SIZE < count)).
    - f_equal. unfold batchEnd. lia.
    - by replace (count - (batchStart + LOAD_BATCH_SIZE)) with 0 by lia. }
  split.
  - rewrite Htext, Hparts, Hsplit, rangeRecords_app, recordLines_app, Hrest.
    rewrite sapp_assoc. by replace (count - (batchStart + LOAD_BATCH_SIZE) +
      0) with (count - (batchStart + LOAD_BATCH_SIZE)) by lia.
  - exists (keys :: reads). split; [|split].
    + rewrite Hreq. unfold st'. simpl. by rewrite <- app_assoc.
    + simpl. rewrite Hcat. unfold keys. rewrite Hsplit, seq_app.
      f_equal. destruct (decide (batchStart + LOAD_BATCH_SIZE < count)).
      * f_equal. unfold batchEnd. lia.
      * by replace (count - (batchStart + LOAD_BATCH_SIZE)) with 0 by lia.
    + intros [|k] ks Hk; simpl in Hk.
      * injection Hk as <-. unfold keys, batchKeys, batchEnd. f_equal; lia.
      * rewrite (Hkeys k ks Hk). unfold batchKeys. f_equal; lia.
Qed.

(** *** The document *)

Lemma join_cons sep x l :
  l <> [] -> join sep (x :: l) = x +:+ sep +:+ join sep l.
Proof. by destruct l. Qed.

Lemma recordElements_join recs :
  recs <> [] ->
  join "," (recordElements recs) = nl +:+ recordLines true recs +:+ nl +:+ "    ".
Proof.
  induction recs as [|r recs IH]; [done|]. intros _.
  destruct recs as [|r' recs].
  - simpl. unfold recordLine. by snorm.
  - change (recordElements (r :: r' :: recs))
      with (((nl +:+ "      ") +:+ stringify r +:+ EmptyString)
            :: recordElements (r' :: recs)).
    rewrite join_cons by (by destruct recs).
    rewrite IH by done.
    change (recordLines true (r :: r' :: recs))
      with (EmptyString +:+ recordLine r +:+ ("," +:+ nl) +:+ recordLine r' +:+
            recordLines false recs).
    change (recordLines true (r' :: recs))
      with (EmptyString +:+ recordLine r' +:+ recordLines false recs).
    unfold recordLine. by snorm.
Qed.

Lemma recordElements_denote recs :
  Forall (fun r => truthy r = true) recs ->
  Forall2 (padded denotes) (recordElements recs) (map clean recs).
Proof.
  induction 1 as [|r recs Hr Hrecs IH]; [constructor|].
  assert (denotes (stringify r) (clean r)) as Hd
    by (apply stringify_denotes; by destruct r).
  destruct recs as [|r' recs].
  - repeat constructor; done.
  - change (recordElements (r :: r' :: recs))
      with (((nl +:+ "      ") +:+ stringify r +:+ EmptyString)
            :: recordElements (r' :: recs)).
    constructor; [by constructor|exact IH].
Qed.

Lemma memberLine_member indent name t after v :
  ws indent = true -> all_plain name = true -> ws after = true ->
  denotes t v ->
  member denotes (memberLine indent name t after) (name, v).
Proof.
  intros Hi Hn Ha Ht. unfold memberLine.
  constructor; [by apply ws_app|done|by apply chars_all_plain|].
  by constructor.
Qed.

Lemma denotes_plain s : all_plain s = true -> denotes (quoted s) (JStr s).
Proof. intros Hs. constructor. by apply chars_all_plain. Qed.

Lemma all_plain_partialNote count total : all_plain (partialNote count total) = true.
Proof.
  unfold partialNote.
  repeat (apply all_plain_app; [first [done|apply all_plain_pretty_nat]|]).
  done.
Qed.

(** The members of an object, one line each. *)
Ltac member_lines :=
  repeat (apply List.Forall2_cons; [apply memberLine_member; try done|]);
  try apply List.Forall2_nil.

(** The text of the assembler denotes the document of the specification. *)
Lemma document_denotes now isPartial count total recs :
  all_plain now = true -> recs <> [] ->
  Forall (fun r => truthy r = true) recs ->
  denotes (preamble +:+ recordLines true recs +:+ footer now isPartial count total)
          (exportDocument now isPartial count total recs).
Proof.
  intros Hnow Hne Hrecs. unfold exportDocument.
  set (claimsText := "[" +:+ join "," (recordElements recs) +:+ "]").
  assert (denotes claimsText (JArr (map clean recs))) as Hclaims.
  { apply denotes_arr; [by destruct recs as [|? [|? ?]]|].
    by apply recordElements_denote. }
  set (dataText :=
    "{" +:+ join ","
      [memberLine "    " "claims" claimsText EmptyString;
       memberLine "    " "exportDate" (quoted now) EmptyString;
       memberLine "    " "exportMethod" (quoted "chrome-extension") (nl +:+ "  ")]
    +:+ "}").
  assert (denotes dataText
            (JObj [("claims", JArr (map clean recs)); ("exportDate", JStr now);
                   ("exportMethod", JStr "chrome-extension")])) as Hdata.
  { apply denotes_obj; [done|].
    member_lines;
      by apply denotes_plain. }
  set (infoMembers (last : string) :=
    [memberLine "    " "date" (quoted now) EmptyString;
     memberLine "    " "version" (quoted "1.0.2") EmptyString;
     memberLine "    " "source" (quoted "chrome-extension") EmptyString;
     memberLine "    " "totalClaims" (pretty count) last]).
  assert (forall last, ws last = true ->
            Forall2 (member denotes) (infoMembers last)
              [("date", JStr now); ("version", JStr "1.0.2");
               ("source", JStr "chrome-extension");
               ("totalClaims", JNum (Z.of_nat count))]) as Hinfo.
  { intros last Hlast.
    member_lines;
      try (by apply denotes_plain).
    rewrite <- pretty_Z_of_nat. constructor. }
  destruct isPartial.
  - set (partialMembers :=
      [memberLine "    " "partial" "true" EmptyString;
       memberLine "    " "originalTotal" (pretty total) EmptyString;
       memberLine "    " "note" (quoted (partialNote count total)) (nl +:+ "  ")]).
    eapply (denotes_obj' _
      [memberLine "  " "claimWizardData" dataText EmptyString;
       memberLine "  " "exportInfo"
         ("{" +:+ join "," (infoMembers EmptyString ++ partialMembers) +:+ "}") nl]).
    + done.
    + member_lines.
      apply denotes_obj; [done|]. apply Forall2_app; [by apply Hinfo|].
      member_lines.
      * constructor.
      * rewrite <- pretty_Z_of_nat. constructor.
      * apply denotes_plain, all_plain_partialNote.
    + unfold dataText, claimsText, infoMembers, partialMembers.
      cbn [join app]. rewrite recordElements_join by done.
      unfold preamble, footer, memberLine, quoted, nl, chr. by snorm.
  - eapply (denotes_obj' _
      [memberLine "  " "claimWizardData" dataText EmptyString;
       memberLine "  " "exportInfo"
         ("{" +:+ join "," (infoMembers (nl +:+ "  ")) +:+ "}") nl]).
    + done.
    + member_lines.
      apply denotes_obj; [done|]. rewrite app_nil_r. by apply Hinfo.
    + unfold dataText, claimsText, infoMembers.
      cbn [join app]. rewrite recordElements_join by done.
      unfold preamble, footer, memberLine, quoted, nl, chr. by snorm.
Qed.

Lemma storedRecords_lookup s count i :
  checkpointed s count -> i < count ->
  storedRecords s count !! i = exportedClaim s !! i.
Proof.
  intros Hcp Hi.
  pose proof (rangeRecords_checkpointed s count count 0 (seq 0 count) Hcp
                ltac:(lia) ltac:(done)) as H.
  destruct (Forall2_lookup_l _ _ _ i i H) as (r & Hr & Hget & _).
  { apply lookup_seq. lia. }
  rewrite getClaims_lookup in Hget by (apply elem_of_seq; lia).
  unfold storedRecords. fold (rangeRecords s 0 count). by rewrite Hr, Hget.
Qed.

(** C8, as stated, fails: with the ledger saved and its counter at 0, so
    that the store holds no record and the checkpoint invariant holds, the
    assembler produces no document. *)
Lemma downloadFromStorage_nothing_saved :
  exportJob fresh_store = Some (Job ["A1"; "B2"] 2 0 false) /\
  checkpointed fresh_store 0 /\
  storedKeys fresh_store = set_seq 0 0 /\
  downloadFromStorage "2026-11-02T10:00:00.000Z" false fresh_store = None /\
  downloadFromStorage "2026-11-02T10:00:00.000Z" true fresh_store = None.
Proof.
  split; [done|]. split; [intros i Hi; lia|]. split; [|done].
  unfold storedKeys, fresh_store. simpl. apply dom_empty_L.
Qed.

(** C8, as the code has it. Let the store hold a record at every index
    below the counter [c] of the ledger, and [now], the text of the clock,
    hold no quote, backslash or control character. When [c] is 0 the
    assembler produces nothing. When [c] is at least 1 its parts make a
    JSON text that denotes the document of the specification: claimWizardData with the claims, exportDate and
    exportMethod, then exportInfo with date, version, source and
    totalClaims, which is [c]; the claims are the stored records in the
    order of their indices 0 to [c - 1]; in a partial download exportInfo
    has, besides, partial set to true, originalTotal set to the total of
    the job, and a note, and otherwise none of the three. The records are
    read a hundred keys at a time, in the order of the indices. *)
Theorem downloadFromStorage_document now isPartial s j :
  exportJob s = Some j ->
  checkpointed s (completedCount j) ->
  all_plain now = true ->
  let c := completedCount j in
  let t := total j in
  let doc := exportDocument now isPartial c t (storedRecords s c) in
  (c = 0 -> downloadFromStorage now isPartial s = None) /\
  (0 < c ->
   exists parts first reads,
     downloadFromStorage now isPartial s = Some (Assembling parts first reads) /\
     denotes (blobText parts) doc /\
     valid_json (blobText parts) /\
     List.length (storedRecords s c) = c /\
     (forall i, i < c -> storedRecords s c !! i = exportedClaim s !! i) /\
     exportInfo doc "totalClaims" = JNum (Z.of_nat c) /\
     (if isPartial
      then exportInfo doc "partial" = JBool true /\
           exportInfo doc "originalTotal" = JNum (Z.of_nat t) /\
           exportInfo doc "note" = JStr (partialNote c t)
      else exportInfo doc "partial" = JUndefined /\
           exportInfo doc "originalTotal" = JUndefined /\
           exportInfo doc "note" = JUndefined) /\
     List.concat reads = seq 0 c /\
     (forall k keys, reads !! k = Some keys ->
        keys = batchKeys c 0 k /\ List.length keys <= LOAD_BATCH_SIZE)).
Proof.
  intros Hjob Hcp Hnow c t doc.
  unfold downloadFromStorage. rewrite Hjob. fold c t.
  split; [intros Hzero; by rewrite decide_True|]. intros Hpos.
  rewrite decide_False by lia.
  destruct (batches_spec s c Hcp c 0 (Assembling [preamble] true []) ltac:(lia))
    as [Htext (reads & Hreq & Hcat & Hkeys)].
  cbn [blobParts isFirstClaim requests app] in Htext, Hreq.
  rewrite blobText_single, Nat.sub_0_r in Htext. rewrite Nat.sub_0_r in Hcat.
  fold (storedRecords s c) in Htext.
  destruct (rangeRecords_truthy s c 0 c Hcp ltac:(lia)) as [Hlen Htruthy].
  fold (storedRecords s c) in Hlen, Htruthy.
  assert (denotes
            (blobText (blobParts (batches s c 0 (Assembling [preamble] true []))
                       ++ [footer now isPartial c t])) doc) as Hdoc.
  { rewrite blobText_snoc, Htext, sapp_assoc.
    apply document_denotes; [done| |done].
    intros Hnil. rewrite Hnil in Hlen. simpl in Hlen. lia. }
  eexists _, _, _. split; [done|]. split; [exact Hdoc|].
  split; [eexists; by apply padded_bare|].
  split; [done|]. split; [intros i Hi; by apply storedRecords_lookup|].
  split; [done|]. split; [by destruct isPartial|].
  rewrite Hreq. split; [done|].
  intros k keys Hk. rewrite (Hkeys k keys Hk). split; [done|].
  unfold batchKeys. rewrite length_seq. lia.
Qed.

(** The theorem on the partial-download scenario: two records stored of a
    job of five. *)
Lemma downloadFromStorage_document_witness :
  let doc := exportDocument "2026-11-02T10:00:00.000Z" true 2 5
               (storedRecords partial_store 2) in
  exists parts first reads,
    downloadFromStorage "2026-11-02T10:00:00.000Z" true partial_store
    = Some (Assembling parts first reads) /\
    denotes (blobText parts) doc /\
    valid_json (blobText parts) /\
    exportInfo doc "totalClaims" = JNum 2 /\
    exportInfo doc "partial" = JBool true /\
    exportInfo doc "originalTotal" = JNum 5 /\
    reads = [[0; 1]].
Proof.
  destruct (downloadFromStorage_document "2026-11-02T10:00:00.000Z" true
              partial_store (Job ["A1"; "B2"; "C3"; "D4"; "E5"] 5 2 false))
    as [_ Hsome].
  - reflexivity.
  - intros [|[|i]] Hi; simpl in *; [eexists; reflexivity..|lia].
  - reflexivity.
  - destruct Hsome
      as (parts & first & reads & Hd & Hdoc & Hvalid & _ & _ & Htotal & Hpartial & _);
      [simpl; lia|].
    exists parts, first, reads.
    split; [exact Hd|]. split; [exact Hdoc|]. split; [exact Hvalid|].
    split; [exact Htotal|]. split; [apply Hpartial|]. split; [apply Hpartial|].
    vm_compute in Hd. by injection Hd as _ _ <-.
Defined.

End AssemblerFacts.

(** ** The CSV reader: round trips and composition *)

Module CsvExtra.
Import Js JsFacts Csv CsvFacts ParseFacts CsvText.











(** *** Splitting the text at a line feed *)

Lemma trimEnd_snoc_space g c :
  is_space c = true -> trimEnd (g +:+ chr c) = trimEnd g.
Proof.
  intros Hc. induction g as [|d g IH].
  - rewrite sapp_nil_l. simpl. by rewrite Hc.
  - rewrite sapp_cons. simpl. by rewrite IH.
Qed.

Lemma trimStart_snoc f c :
  trimStart (f +:+ chr c)
  = match trimStart f with
    | EmptyString => if is_space c then EmptyString else chr c
    | g => g +:+ chr c
    end.
Proof.
  induction f as [|d f IH].
  - rewrite sapp_nil_l. simpl. by destruct (is_space c).
  - rewrite sapp_cons. simpl. destruct (is_space d); [exact IH|done].
Qed.

Lemma trim_snoc_space f c : is_space c = true -> trim (f +:+ chr c) = trim f.
Proof.
  intros Hc. unfold trim. rewrite trimStart_snoc.
  destruct (trimStart f) as [|d g]; [by rewrite Hc|].
  by apply trimEnd_snoc_space.
Qed.

Lemma endRow_addChar_space c st :
  is_space c = true -> endRow (addChar c st) = endRow st.
Proof.
  intros Hc. unfold endRow, endField, addChar. simpl.
  by rewrite trim_snoc_space.
Qed.

(** A line feed after a text whose scan ends outside quotes ends the row
    the scan has reached. *)
Lemma scanText_at_line_feed rest : forall n a st,
  String.length a <= n ->
  inQuotes (scanText a st) = false ->
  scanText (a +:+ String LF rest) st = scanText rest (endRow (scanText a st)).
Proof.
  induction n as [|n IH]; intros [|c a] st Hn Hend; simpl in Hn; try lia.
  - rewrite sapp_nil_l. simpl in Hend. simpl. by rewrite Hend.
  - rewrite sapp_nil_l. simpl in Hend. simpl. by rewrite Hend.
  - rewrite sapp_cons. simpl in Hend |- *.
    destruct (inQuotes st) eqn:Hq.
    + destruct (Ascii.eqb c dquote) eqn:Hc.
      * destruct a as [|next a].
        -- rewrite sapp_nil_l. by simpl.
        -- rewrite sapp_cons. destruct (Ascii.eqb next dquote).
           ++ apply IH; [simpl in *; lia|done].
           ++ rewrite <- (sapp_cons next a). apply IH; [simpl in *; lia|done].
      * apply IH; [lia|done].
    + destruct (Ascii.eqb c dquote); [apply IH; [lia|done]|].
      destruct (Ascii.eqb c comma); [apply IH; [lia|done]|].
      destruct (Ascii.eqb c LF); [apply IH; [lia|done]|].
      destruct (Ascii.eqb c CR) eqn:Hcr; [|apply IH; [lia|done]].
      apply Ascii.eqb_eq in Hcr as ->.
      destruct a as [|next a].
      * rewrite sapp_nil_l. simpl. by rewrite endRow_addChar_space.
      * rewrite sapp_cons. destruct (Ascii.eqb next LF).
        -- apply IH; [simpl in *; lia|done].
        -- rewrite <- (sapp_cons next a). apply IH; [simpl in *; lia|done].
Qed.

(** The scan of a text from two states, one the other with rows put
    before, keeps them so. *)
Lemma scanText_related (Rel : scan -> scan -> Prop) :
  (forall s1 s2, Rel s1 s2 -> inQuotes s1 = inQuotes s2) ->
  (forall s1 s2, Rel s1 s2 -> Rel (endField s1) (endField s2)) ->
  (forall s1 s2, Rel s1 s2 -> Rel (endRow s1) (endRow s2)) ->
  (forall c s1 s2, Rel s1 s2 -> Rel (addChar c s1) (addChar c s2)) ->
  (forall b s1 s2, Rel s1 s2 -> Rel (setQuotes b s1) (setQuotes b s2)) ->
  forall csvText s1 s2, Rel s1 s2 -> Rel (scanText csvText s1) (scanText csvText s2).
Proof.
  intros HQ HF HR HA HS csvText.
  assert (forall n txt s1 s2, String.length txt <= n -> Rel s1 s2 ->
            Rel (scanText txt s1) (scanText txt s2)) as H; [|by eauto].
  induction n as [|n IH]; intros [|char rest] s1 s2 Hn Hrel; simpl in *;
    try done; try lia.
  rewrite <- (HQ _ _ Hrel).
  repeat match goal with
  | |- Rel (scanText _ _) (scanText _ _) => apply IH; [simpl in *; lia|]
  | |- context [if ?b then _ else _] => destruct b
  | |- context [match rest with _ => _ end] => destruct rest as [|next rest']
  end; eauto.
Qed.

Lemma pushRow_prefixed R rws row : pushRow (R ++ rws) row = R ++ pushRow rws row.
Proof. unfold pushRow. destruct (existsb nonempty row); [|done]. by rewrite app_assoc. Qed.

Lemma scanText_prefixed R csvText s1 s2 :
  prefixed R s1 s2 -> prefixed R (scanText csvText s1) (scanText csvText s2).
Proof.
  apply scanText_related.
  - by intros ?? (_ & _ & _ & ->).
  - intros ?? (Hr & Hc & Hf & Hq). unfold prefixed, endField. simpl.
    by rewrite Hr, Hc, Hf, Hq.
  - intros ?? (Hr & Hc & Hf & Hq). unfold prefixed, endRow, endField. simpl.
    by rewrite Hr, Hc, Hf, Hq, pushRow_prefixed.
  - intros ??? (Hr & Hc & Hf & Hq). unfold prefixed, addChar. simpl.
    by rewrite Hr, Hc, Hf.
  - intros ??? (Hr & Hc & Hf & Hq). unfold prefixed, setQuotes. simpl.
    by rewrite Hr, Hc, Hf.
Qed.

(** X2. The rows of a text cut at a line feed: when the scan of [a] ends
    outside quotes, the rows of [a], a line feed, [b] are the rows of [a]
    followed by the rows of [b]; a carriage return at the end of [a] goes
    with the line feed. *)
Theorem parseCsvRows_line_feed a b :
  ends_outside_quotes a ->
  parseCsvRows (a +:+ String LF b) = parseCsvRows a ++ parseCsvRows b.
Proof.
  unfold ends_outside_quotes, parseCsvRows. intros Hend.
  rewrite (scanText_at_line_feed b _ a start (Nat.le_refl _) Hend).
  set (sa := endRow (scanText a start)).
  assert (prefixed (rows sa) start sa) as Hpre.
  { unfold prefixed, sa, endRow, endField. simpl. by rewrite app_nil_r, Hend. }
  apply (scanText_prefixed _ b) in Hpre as (Hr & Hc & Hf & Hq).
  unfold endRow, endField. simpl. by rewrite Hr, Hc, Hf, pushRow_prefixed.
Qed.

(** The theorem on two lines ended by carriage return and line feed, the
    first with a line feed inside quotes. *)
Lemma parseCsvRows_line_feed_witness :
  parseCsvRows (("id," +:+ csvQuote ("a" +:+ chr LF +:+ "b") +:+ chr CR)
                +:+ String LF ("7,c" +:+ chr CR))
  = [["id"; "a" +:+ chr LF +:+ "b"]] ++ [["7"; "c"]].
Proof.
  exact (parseCsvRows_line_feed
           ("id," +:+ csvQuote ("a" +:+ chr LF +:+ "b") +:+ chr CR)
           ("7,c" +:+ chr CR) eq_refl).
Defined.

(** *** What a successful parse tells *)

Lemma startsWith_includes s p : startsWith s p = true -> includes s p = true.
Proof. intros H. destruct s; simpl; by rewrite H. Qed.

Lemma tier_mentions h :
  tier1 h = true \/ tier2 h = true \/ tier3 h = true ->
  includes (trim (toLowerCase h)) "file" || includes (trim (toLowerCase h)) "claim"
  = true.
Proof.
  intros [H|[H|H]].
  - apply includesStr_spec in H. unfold exactNames in H.
    repeat (apply elem_of_cons in H as [->|H]; [done|]).
    by apply elem_of_nil in H.
  - unfold tier2 in H. apply andb_prop in H as [H _].
    apply orb_prop in H as [H|H]; apply startsWith_includes in H;
      rewrite H; [done|apply orb_true_r].
  - unfold tier3 in H. by destruct (existsb _ excludePatterns).
Qed.

Lemma selectColumn_Some headers i :
  selectColumn headers = Some i ->
  exists h, headers !! i = Some h /\
            (tier1 h = true \/ tier2 h = true \/ tier3 h = true).
Proof.
  unfold selectColumn.
  destruct (findIndex tier1 headers) as [i1|] eqn:H1.
  { intros [= <-]. apply findIndex_Some in H1 as [(h & Hh & Ht) _]. eauto. }
  destruct (findIndex tier2 headers) as [i2|] eqn:H2.
  { intros [= <-]. apply findIndex_Some in H2 as [(h & Hh & Ht) _]. eauto 6. }
  intros H3. apply findIndex_Some in H3 as [(h & Hh & Ht) _]. eauto 6.
Qed.

(** X3. When [parseCsv] returns, the text has a header row and at least
    one more row, the selected column is one of the header row, and its
    header, lower-cased and trimmed, contains file or claim; every
    identifier returned is not empty and carries the index of a data row,
    between 1 and the number of data rows, whose value at the selected
    column is that identifier. *)
Theorem parseCsv_Ok_inv csvText claims :
  parseCsv csvText = Ok claims ->
  exists headers data i h,
    parseCsvRows csvText = headers :: data /\ data <> [] /\
    selectColumn headers = Some i /\ headers !! i = Some h /\
    ((exists a b, trim (toLowerCase h) = a +:+ "file" +:+ b) \/
     (exists a b, trim (toLowerCase h) = a +:+ "claim" +:+ b)) /\
    forall c, c ∈ claims ->
      fileNumber c <> EmptyString /\
      1 <= rowIndex c <= List.length data /\
      exists values, (headers :: data) !! rowIndex c = Some values /\
                     values !! i = Some (fileNumber c).
Proof.
  intros Hparse.
  destruct (parseCsvRows csvText) as [|headers [|row data]] eqn:Hrows;
    try (unfold parseCsv, parseRows in Hparse; by rewrite Hrows in Hparse).
  rewrite (parseCsv_rows _ _ _ _ Hrows) in Hparse.
  destruct (selectColumn headers) as [i|] eqn:Hsel; [|done].
  injection Hparse as <-.
  destruct (selectColumn_Some _ _ Hsel) as (h & Hh & Htier).
  exists headers, (row :: data), i, h.
  split; [done|]. split; [done|]. split; [done|]. split; [done|]. split.
  { apply tier_mentions, orb_prop in Htier as [H|H];
      apply includes_spec in H; eauto. }
  destruct (extractFrom_spec i (row :: data) 1 (Extract ∅ [] 0) []) as [Hcl _].
  { intros v. simpl. split; [by intros ?%not_elem_of_empty|by intros ?%elem_of_nil]. }
  intros c Hc.
  change (c ∈ claims (extractFrom i 1 (row :: data) (Extract ∅ [] 0))) in Hc.
  rewrite Hcl in Hc. simpl app in Hc.
  pose proof (firstOccurrences_sublist
                (filter (fun c => fileNumber c <> EmptyString)
                        (columnValues i 1 (row :: data))) []) as Hsub.
  eapply elem_of_submseteq in Hc; [|by apply sublist_submseteq].
  apply list_elem_of_filter in Hc as [Hne Hc].
  apply columnValues_elem in Hc as (k & values & Hk & Hvalues & Hv).
  split; [done|]. split.
  - apply lookup_lt_Some in Hvalues. lia.
  - exists values. rewrite Hk. done.
Qed.

(** The theorem on a file of two identifiers. *)
Lemma parseCsv_Ok_inv_witness :
  exists headers data,
    parseCsvRows Driver.two_claims_csv = headers :: data /\ data <> [].
Proof.
  destruct (parseCsv_Ok_inv Driver.two_claims_csv [Claim "A1" 1; Claim "B2" 2])
    as (headers & data & i & h & Hrows & Hdata & _).
  - by vm_compute.
  - by exists headers, data.
Defined.

(** *** Row indices *)

(** What the extraction loop keeps: before row [i], the claims found are
    fewer than [i], each at a position below its row index, which is below
    [i], and the row indices increase along the list. *)
Lemma extractFrom_ordered fileNumberIndex data : forall i st,
  List.length (claims st) < i ->
  (forall k c, claims st !! k = Some c -> k < rowIndex c < i) ->
  (forall k1 k2 c1 c2, k1 < k2 -> claims st !! k1 = Some c1 ->
     claims st !! k2 = Some c2 -> rowIndex c1 < rowIndex c2) ->
  let st' := extractFrom fileNumberIndex i data st in
  (forall k c, claims st' !! k = Some c -> k < rowIndex c) /\
  (forall k1 k2 c1 c2, k1 < k2 -> claims st' !! k1 = Some c1 ->
     claims st' !! k2 = Some c2 -> rowIndex c1 < rowIndex c2).
Proof.
  induction data as [|values rest IH]; intros i st Hlen Hpos Hord; simpl.
  { split; [|done]. intros k c Hc. by destruct (Hpos k c Hc). }
  assert (forall k c, claims st !! k = Some c -> k < rowIndex c < S i) as Hpos'.
  { intros k c Hc. destruct (Hpos k c Hc). lia. }
  apply IH; unfold extractRow;
    destruct (decide (List.length values < fileNumberIndex + 1)); simpl;
    try done; try lia;
    destruct (values !! fileNumberIndex) as [v|]; try done; try lia;
    destruct (nonempty v && negb (bool_decide (v ∈ seen st))); simpl;
    try done; try lia.
  - rewrite length_app. simpl. lia.
  - intros k c Hc. apply lookup_app_Some in Hc as [Hc|[Hk Hc]]; [by apply Hpos'|].
    apply list_lookup_singleton_Some in Hc as [Hk' <-]. simpl.
    clear -Hlen Hk Hk'. lia.
  - intros k1 k2 c1 c2 Hk Hc1 Hc2.
    apply lookup_app_Some in Hc2 as [Hc2|[Hk2 Hc2]].
    + apply lookup_app_Some in Hc1 as [Hc1|[Hk1 _]]; [by eapply Hord|].
      apply lookup_lt_Some in Hc2. lia.
    + apply list_lookup_singleton_Some in Hc2 as [Hk' <-]. simpl.
      apply lookup_app_Some in Hc1 as [Hc1|[Hk1 _]]; [|lia].
      by destruct (Hpos _ _ Hc1).
Qed.

(** X18. The claims [parseCsv] returns are in the order of the rows: their
    row indices increase strictly along the list, and the claim at position
    [k] (counted from 0) has a row index greater than [k], so that no claim
    has its position for row index. *)
Theorem parseCsv_row_order csvText claims :
  parseCsv csvText = Ok claims ->
  (forall k c, claims !! k = Some c -> k < rowIndex c) /\
  (forall k1 k2 c1 c2, k1 < k2 -> claims !! k1 = Some c1 ->
     claims !! k2 = Some c2 -> rowIndex c1 < rowIndex c2).
Proof.
  unfold parseCsv, parseRows.
  destruct (parseCsvRows csvText) as [|headers [|row data]]; try done.
  destruct (selectColumn headers) as [i|]; [|done].
  unfold mbind, res_bind, mret, res_ret. intros [= <-].
  apply (extractFrom_ordered i (row :: data) 1 (Extract ∅ [] 0)); simpl;
    first [lia|done].
Qed.

(** The theorem on a file of two identifiers. *)
Lemma parseCsv_row_order_witness :
  1 < rowIndex (Claim "B2" 2) /\ rowIndex (Claim "A1" 1) < rowIndex (Claim "B2" 2).
Proof.
  destruct (parseCsv_row_order Driver.two_claims_csv [Claim "A1" 1; Claim "B2" 2])
    as [Hpos Hord].
  - by vm_compute.
  - split.
    + apply (Hpos 1). reflexivity.
    + apply (Hord 0 1); [lia|reflexivity..].
Defined.

End CsvExtra.

(** ** More on the claim fetcher *)

Module FetchExtra.
Import Js JsFacts JsVal Csv Fetcher FetcherFacts FetchNotions.

Lemma getProp_nonnullish v k : nullish v = false -> getProp v k = Ok (getPropOpt v k).
Proof. by destruct v. Qed.

Lemma getProp_nullish v k : nullish v = true -> exists msg, getProp v k = Throw msg.
Proof. destruct v; try done; simpl; eauto. Qed.

Lemma getPropOpt_truthy v k : truthy (getPropOpt v k) = true -> nullish v = false.
Proof. by destruct v. Qed.

Lemma getPropOpt_nonnullish v k : nullish (getPropOpt v k) = false -> nullish v = false.
Proof. by destruct v. Qed.

Lemma truthy_nonnullish v : truthy v = true -> nullish v = false.
Proof. by destruct v. Qed.

(** *** The previous version *)

Lemma stepInsurance_merge w claimId o :
  Legacy.stepInsurance w claimId o
  = mergeInsurance (fetchApi w ("/api/claim/" +:+ toStr claimId +:+ "/insurance")) o.
Proof.
  unfold Legacy.stepInsurance, mergeInsurance.
  destruct (fetchApi _ _) as [v|]; simpl; [|done].
  destruct (truthy (getPropOpt (getPropOpt v "data") "insurance")) eqn:Ht; [|done].
  pose proof (getPropOpt_truthy _ _ Ht) as Hd.
  rewrite (getProp_nonnullish v) by by eapply getPropOpt_nonnullish.
  simpl. by rewrite (getProp_nonnullish _ _ Hd).
Qed.

Lemma stepArray_merge w e k o :
  Legacy.stepArray w e k o = mergeArray k (fetchApi w e) o.
Proof. unfold Legacy.stepArray, mergeArray. by destruct (fetchApi _ _). Qed.

Lemma stepLedger_merge w claimId o :
  Legacy.stepLedger w claimId o
  = mergeLedger (fetchApi w ("/api/claim/" +:+ toStr claimId +:+ "/ledger")) o.
Proof.
  unfold Legacy.stepLedger, mergeLedger.
  destruct (fetchApi _ _) as [v|]; simpl; [|done].
  destruct (truthy v) eqn:Hv.
  - rewrite !(getProp_nonnullish v) by by apply truthy_nonnullish.
    simpl. by destruct (truthy (getPropOpt v "ledger")).
  - by destruct v as [| |[]|?|[]| |].
Qed.

Lemma stepActivity_merge w claimUuid o :
  Legacy.stepActivity w claimUuid o
  = mergeActivity
      (fetchApi w ("/api/claim/" +:+ toStr claimUuid +:+
         "/activity?sc_u=0&sc_e=0&sc_c=0&sc_pub=0&sc_prv=0&sc_s=0&sc_cus=0&sc_t=0")) o.
Proof.
  unfold Legacy.stepActivity, mergeActivity.
  destruct (fetchApi _ _) as [v|]; simpl; [|done].
  destruct (truthy (getPropOpt (getPropOpt v "data") "activity")) eqn:Ht; [|done].
  simpl. destruct (isArray _); [|done].
  pose proof (getPropOpt_truthy _ _ Ht) as Hd.
  rewrite (getProp_nonnullish v) by by eapply getPropOpt_nonnullish.
  simpl. by rewrite (getProp_nonnullish _ _ Hd).
Qed.

Lemma sequentialSteps_fanOut w claimId claimUuid o :
  Legacy.sequentialSteps w claimId claimUuid o = fanOut w claimId claimUuid o.
Proof.
  unfold Legacy.sequentialSteps, fanOut. cbv zeta.
  by rewrite stepInsurance_merge, !stepArray_merge, stepLedger_merge,
    stepActivity_merge.
Qed.

(** X4. The fetcher of the previous version, which made the eight secondary
    calls one after the other, each in a [try] of its own, and the current
    one, which waits for the eight together, return the same record or throw
    the same error on every service and every claim. *)
Theorem fetchClaimDetails_as_before w c :
  Legacy.fetchClaimDetails w c = fetchClaimDetails w c.
Proof.
  unfold Legacy.fetchClaimDetails, fetchClaimDetails.
  destruct (search w (fileNumber c)) as [|ok status statusText body]; [done|].
  destruct (negb ok); [done|].
  destruct body as [searchData|]; simpl; [|done].
  destruct (claimNotFound searchData) as [[|]|]; simpl; try done.
  destruct (getProp searchData "Claims") as [Claims|]; simpl; [|done].
  destruct (getIndex Claims 0) as [claimInfo|]; simpl; [|done].
  destruct (getProp claimInfo "id") as [claimId|]; simpl; [|done].
  destruct (getProp claimInfo "uuid") as [claimUuid|]; simpl; [|done].
  destruct (fetchApi w _) as [fullDetails|]; simpl; [|done].
  destruct (mergeFullDetails fullDetails _) as [r|]; simpl; [|done].
  by rewrite sequentialSteps_fanOut.
Qed.

(** *** The fields of the fan-out *)

Lemma mergeInsurance_keeps r o k :
  k <> "insurance" -> lookupProp (mergeInsurance r o) k = lookupProp o k.
Proof. intros. unfold mergeInsurance. keeps_other_keys. Qed.

Lemma mergeArray_keeps k' r o k :
  k <> k' -> lookupProp (mergeArray k' r o) k = lookupProp o k.
Proof. intros. unfold mergeArray. keeps_other_keys. Qed.

Lemma mergeLedger_keeps r o k :
  k ∉ ["ledger"; "ledgerNotes"; "ledgerInvoices"] ->
  lookupProp (mergeLedger r o) k = lookupProp o k.
Proof.
  rewrite !not_elem_of_cons. intros (? & ? & ? & _).
  unfold mergeLedger. keeps_other_keys.
Qed.

Lemma mergeFiles_keeps u files o k :
  k <> "files" -> lookupProp (mergeFiles u files o) k = lookupProp o k.
Proof. intros. unfold mergeFiles. keeps_other_keys. Qed.

Lemma mergeActivity_keeps r o k :
  k <> "activity" -> lookupProp (mergeActivity r o) k = lookupProp o k.
Proof. intros. unfold mergeActivity. keeps_other_keys. Qed.

(** Reading a field through the merging steps that do not write it. *)
Ltac through_merges :=
  repeat first
    [ rewrite mergeActivity_keeps by done
    | rewrite mergeArray_keeps by done
    | rewrite mergeFiles_keeps by done
    | rewrite mergeLedger_keeps by other_key
    | rewrite mergeInsurance_keeps by done ].

Lemma setProp_cong o o' k' v k :
  lookupProp o k = lookupProp o' k ->
  lookupProp (setProp o k' v) k = lookupProp (setProp o' k' v) k.
Proof.
  intros H. destruct (decide (k' = k)) as [->|Hne].
  - by rewrite !lookupProp_setProp_eq.
  - by rewrite !lookupProp_setProp_ne.
Qed.

Lemma mergeArray_cong k' r o o' k :
  lookupProp o k = lookupProp o' k ->
  lookupProp (mergeArray k' r o) k = lookupProp (mergeArray k' r o') k.
Proof. intros H. unfold mergeArray. destruct (isArray _); [by apply setProp_cong|done]. Qed.

Lemma mergeLedger_cong r o o' k :
  lookupProp o k = lookupProp o' k ->
  lookupProp (mergeLedger r o) k = lookupProp (mergeLedger r o') k.
Proof.
  intros H. unfold mergeLedger. destruct (truthy _); [|done].
  by do 3 apply setProp_cong.
Qed.

Lemma mergeActivity_cong r o o' k :
  lookupProp o k = lookupProp o' k ->
  lookupProp (mergeActivity r o) k = lookupProp (mergeActivity r o') k.
Proof.
  intros H. unfold mergeActivity. destruct (_ && _); [by apply setProp_cong|done].
Qed.

Lemma fanOut_field w claimId claimUuid o k e :
  (k, e) ∈ fanOutCalls claimId claimUuid ->
  lookupProp (fanOut w claimId claimUuid o) k = fieldAfter k (fetchApi w e) o.
Proof.
  unfold fanOutCalls. rewrite !elem_of_cons, elem_of_nil.
  intros H. unfold fanOut. cbv zeta.
  repeat destruct H as [[= -> ->]|H]; [..|done];
    unfold fieldAfter; simpl; through_merges; try done.
  all: first [apply mergeArray_cong | apply mergeLedger_cong | apply mergeActivity_cong];
    by through_merges.
Qed.

Lemma fanOut_files w claimId claimUuid o :
  lookupProp (fanOut w claimId claimUuid o) "files"
  = lookupProp (mergeFiles claimUuid (fetchAllFiles w claimId JNull 0).1 o) "files".
Proof.
  unfold fanOut. cbv zeta. through_merges.
  unfold mergeFiles. destruct (decide _); [|by through_merges].
  by rewrite !lookupProp_setProp_eq.
Qed.

(** X5. Each field of the fan-out depends on the answer to its own call
    only: two services that answer one of the calls alike give the field
    (or the three fields of the ledger) written from it the same value,
    whatever they answer to the seven other calls; the same holds of the
    files field and the folder walk. *)
Theorem fanOut_field_independent w1 w2 claimId claimUuid o :
  (forall k e,
     (k, e) ∈ fanOutCalls claimId claimUuid ->
     fetchApi w1 e = fetchApi w2 e ->
     lookupProp (fanOut w1 claimId claimUuid o) k
     = lookupProp (fanOut w2 claimId claimUuid o) k) /\
  ((fetchAllFiles w1 claimId JNull 0).1 = (fetchAllFiles w2 claimId JNull 0).1 ->
   lookupProp (fanOut w1 claimId claimUuid o) "files"
   = lookupProp (fanOut w2 claimId claimUuid o) "files").
Proof.
  split.
  - intros k e Hk He. by rewrite !(fanOut_field _ _ _ _ k e Hk), He.
  - intros Hf. by rewrite !fanOut_files, Hf.
Qed.

(** The theorem on two services that both reject the insurance call but
    differ on the notes. *)
Lemma fanOut_field_independent_witness :
  lookupProp (fanOut cyclicWorld (JNum 1) (JStr "u1") []) "insurance"
  = lookupProp (fanOut refusingWorld (JNum 1) (JStr "u1") []) "insurance".
Proof.
  apply (proj1 (fanOut_field_independent cyclicWorld refusingWorld
                  (JNum 1) (JStr "u1") []) "insurance" "/api/claim/1/insurance").
  - unfold fanOutCalls. simpl. rewrite !elem_of_cons. auto.
  - reflexivity.
Defined.

(** *** The record of a claim that was found *)

Lemma fetchClaimDetails_found w c status statusText searchData Claims claimInfo
    claimId claimUuid :
  search w (fileNumber c) = Responded true status statusText (Ok searchData) ->
  claimNotFound searchData = Ok false ->
  getProp searchData "Claims" = Ok Claims ->
  getIndex Claims 0 = Ok claimInfo ->
  getProp claimInfo "id" = Ok claimId ->
  getProp claimInfo "uuid" = Ok claimUuid ->
  fetchClaimDetails w c =
    (fullDetails ← fetchApi w ("/api/claim/" +:+ toStr claimUuid);
     r ← mergeFullDetails fullDetails
           (baseRecord (fileNumber c) claimInfo claimId claimUuid);
     mret (JObj (fanOut w claimId claimUuid r))).
Proof.
  intros H Hnf HC Hi Hid Huuid. unfold fetchClaimDetails.
  rewrite H. simpl. rewrite Hnf. simpl. rewrite HC. simpl. rewrite Hi. simpl.
  rewrite Hid. simpl. by rewrite Huuid.
Qed.

Lemma fetchClaimDetails_Ok_inv w c record :
  fetchClaimDetails w c = Ok record ->
  exists status statusText searchData Claims claimInfo claimId claimUuid fullDetails r,
    search w (fileNumber c) = Responded true status statusText (Ok searchData) /\
    claimNotFound searchData = Ok false /\
    getProp searchData "Claims" = Ok Claims /\
    getIndex Claims 0 = Ok claimInfo /\
    getProp claimInfo "id" = Ok claimId /\
    getProp claimInfo "uuid" = Ok claimUuid /\
    fetchApi w ("/api/claim/" +:+ toStr claimUuid) = Ok fullDetails /\
    mergeFullDetails fullDetails
      (baseRecord (fileNumber c) claimInfo claimId claimUuid) = Ok r /\
    record = JObj (fanOut w claimId claimUuid r).
Proof.
  unfold fetchClaimDetails.
  destruct (search w (fileNumber c)) as [|[|] status statusText [searchData|]];
    try done. simpl.
  destruct (claimNotFound searchData) as [[|]|] eqn:Hnf; simpl; try done.
  destruct (getProp searchData "Claims") as [Claims|] eqn:HC; simpl; [|done].
  destruct (getIndex Claims 0) as [claimInfo|] eqn:Hi; simpl; [|done].
  destruct (getProp claimInfo "id") as [claimId|] eqn:Hid; simpl; [|done].
  destruct (getProp claimInfo "uuid") as [claimUuid|] eqn:Huuid; simpl; [|done].
  destruct (fetchApi w _) as [fullDetails|] eqn:Hfull; simpl; [|done].
  destruct (mergeFullDetails fullDetails _) as [r|] eqn:Hr; simpl; [|done].
  intros [= <-].
  by exists status, statusText, searchData, Claims, claimInfo, claimId, claimUuid,
    fullDetails, r.
Qed.

Lemma record_ids w claimId claimUuid fullDetails fileNumber claimInfo r :
  mergeFullDetails fullDetails (baseRecord fileNumber claimInfo claimId claimUuid)
  = Ok r ->
  let d := fanOut w claimId claimUuid r in
  lookupProp d "claimDetails" = claimInfo /\
  lookupProp d "claimId" = claimId /\
  lookupProp d "claimUuid" = claimUuid.
Proof.
  intros Hr. cbv zeta. rewrite !fanOut_keeps by other_key.
  rewrite (mergeFullDetails_keeps _ _ _ "claimDetails" ltac:(other_key) Hr).
  rewrite (mergeFullDetails_keeps _ _ _ "claimId" ltac:(other_key) Hr).
  by rewrite (mergeFullDetails_keeps _ _ _ "claimUuid" ltac:(other_key) Hr).
Qed.

Lemma mergeFullDetails_fullClaimData fullDetails o r :
  mergeFullDetails fullDetails o = Ok r ->
  lookupProp r "fullClaimData"
  = if truthy fullDetails then fullDetails else lookupProp o "fullClaimData".
Proof.
  unfold mergeFullDetails.
  destruct (truthy fullDetails); [|by intros [= <-]].
  destruct (getProp fullDetails "propcontacts") as [propcontacts|]; simpl; [|done].
  destruct (extractContacts propcontacts _) as [r2|] eqn:Hc; simpl; [|done].
  apply (extractContacts_keeps _ _ _ "fullClaimData") in Hc; [|done].
  rewrite lookupProp_setProp_eq in Hc.
  destruct (getProp fullDetails "personnel") as [personnel|]; simpl; [|done].
  destruct (getProp fullDetails "phases") as [phases|]; simpl; [|done].
  intros [= <-]. by keeps_other_keys.
Qed.

(** X6. A record that [fetchClaimDetails] returns is made of the first hit
    of the search alone: its claimDetails field is the first element of the
    Claims the search answered, its claimId and claimUuid are the id and the
    uuid of that element, and its fullClaimData, when the primary detail
    call answered a truthy value, is that answer, fetched by the uuid. *)
Theorem fetchClaimDetails_first_hit w c record :
  fetchClaimDetails w c = Ok record ->
  exists d status statusText searchData Claims fullDetails,
    record = JObj d /\
    search w (fileNumber c) = Responded true status statusText (Ok searchData) /\
    getProp searchData "Claims" = Ok Claims /\
    getIndex Claims 0 = Ok (lookupProp d "claimDetails") /\
    getProp (lookupProp d "claimDetails") "id" = Ok (lookupProp d "claimId") /\
    getProp (lookupProp d "claimDetails") "uuid" = Ok (lookupProp d "claimUuid") /\
    fetchApi w ("/api/claim/" +:+ toStr (lookupProp d "claimUuid")) = Ok fullDetails /\
    (truthy fullDetails = true -> lookupProp d "fullClaimData" = fullDetails).
Proof.
  intros (status & statusText & searchData & Claims & claimInfo & claimId &
          claimUuid & fullDetails & r & Hs & _ & HC & Hi & Hid & Huuid & Hfull &
          Hr & ->)%fetchClaimDetails_Ok_inv.
  destruct (record_ids w _ _ _ _ _ _ Hr) as (Hd & Hdi & Hdu).
  exists (fanOut w claimId claimUuid r), status, statusText, searchData, Claims,
    fullDetails.
  rewrite Hd, Hdi, Hdu. repeat (split; [done|]).
  intros Ht. rewrite fanOut_keeps by other_key.
  by rewrite (mergeFullDetails_fullClaimData _ _ _ Hr), Ht.
Qed.

(** The theorem on the cyclic service. *)
Lemma fetchClaimDetails_first_hit_witness :
  exists d, fetchClaimDetails cyclicWorld (Claim "A1" 1) = Ok (JObj d) /\
            getProp (lookupProp d "claimDetails") "uuid" = Ok (lookupProp d "claimUuid").
Proof.
  destruct (fetchClaimDetails_first_hit cyclicWorld (Claim "A1" 1)
              (default JNull (match fetchClaimDetails cyclicWorld (Claim "A1" 1)
                              with Ok v => Some v | Throw _ => None end)))
    as (d & _ & _ & _ & _ & _ & Hrec & _ & _ & _ & _ & Hu & _).
  - by vm_compute.
  - exists d. split; [|exact Hu]. rewrite <- Hrec. by vm_compute.
Defined.

(** X7. A secondary call that fails costs its field and nothing else: in
    the record [fetchClaimDetails] returns, the field (or the three fields of
    the ledger) written from a call that threw is absent, and so is the
    files field when the folder walk found no file. *)
Theorem fetchClaimDetails_failed_call_absent w c record :
  fetchClaimDetails w c = Ok record ->
  exists d, record = JObj d /\
    (forall k e msg,
       (k, e) ∈ fanOutCalls (lookupProp d "claimId") (lookupProp d "claimUuid") ->
       fetchApi w e = Throw msg ->
       lookupProp d k = JUndefined) /\
    ((fetchAllFiles w (lookupProp d "claimId") JNull 0).1 = [] ->
     lookupProp d "files" = JUndefined).
Proof.
  intros (status & statusText & searchData & Claims & claimInfo & claimId &
          claimUuid & fullDetails & r & _ & _ & _ & _ & _ & _ & _ &
          Hr & ->)%fetchClaimDetails_Ok_inv.
  destruct (record_ids w _ _ _ _ _ _ Hr) as (_ & Hdi & Hdu).
  exists (fanOut w claimId claimUuid r). rewrite Hdi, Hdu.
  split; [done|]. split.
  - intros k e msg Hk He. rewrite (fanOut_field _ _ _ _ k e Hk), He.
    assert (lookupProp r k = JUndefined) as Hrk.
    { unfold fanOutCalls in Hk. rewrite !elem_of_cons, elem_of_nil in Hk.
      repeat destruct Hk as [[= -> _]|Hk]; [..|done];
        by rewrite (fun H => mergeFullDetails_keeps _ _ _ _ H Hr) by other_key. }
    unfold fanOutCalls in Hk. rewrite !elem_of_cons, elem_of_nil in Hk.
    repeat destruct Hk as [[= -> _]|Hk]; [..|done]; exact Hrk.
  - intros Hf. rewrite fanOut_files, Hf. simpl.
    by rewrite (fun H => mergeFullDetails_keeps _ _ _ _ H Hr) by other_key.
Qed.

(** The theorem on the cyclic service, which rejects the ledger call. *)
Lemma fetchClaimDetails_failed_call_absent_witness :
  exists d, fetchClaimDetails cyclicWorld (Claim "A1" 1) = Ok (JObj d) /\
            lookupProp d "ledgerNotes" = JUndefined.
Proof.
  destruct (fetchClaimDetails_failed_call_absent cyclicWorld (Claim "A1" 1)
              (default JNull (match fetchClaimDetails cyclicWorld (Claim "A1" 1)
                              with Ok v => Some v | Throw _ => None end)))
    as (d & Hrec & Hcalls & _).
  - by vm_compute.
  - exists d. split; [rewrite <- Hrec; by vm_compute|].
    apply (Hcalls "ledgerNotes" "/api/claim/1/ledger" "Failed to fetch").
    + assert (lookupProp d "claimId" = JNum 1 /\ lookupProp d "claimUuid" = JStr "u1")
        as [-> ->].
      { vm_compute in Hrec. injection Hrec as <-. by vm_compute. }
      unfold fanOutCalls. simpl. rewrite !elem_of_cons. auto 10.
    + reflexivity.
Defined.

(** *** Contacts *)

Lemma secondaryContact_nonnullish contact :
  nullish contact = false ->
  exists o, secondaryContact contact = Ok (JObj o) /\
            lookupProp o "isPrimary" = JBool false.
Proof.
  intros H. unfold secondaryContact. rewrite !(getProp_nonnullish contact) by done.
  simpl. eauto.
Qed.

Lemma secondaryContact_nullish contact :
  nullish contact = true -> exists msg, secondaryContact contact = Throw msg.
Proof.
  intros H. unfold secondaryContact.
  destruct (getProp_nullish contact "id" H) as [msg ->]. simpl. eauto.
Qed.

Lemma pushSecondary_nullish cc : forall contacts,
  Exists (fun contact => nullish contact = true) cc ->
  exists msg, pushSecondary cc contacts = Throw msg.
Proof.
  induction cc as [|contact rest IH]; intros contacts H; [by inversion H|].
  simpl. apply Exists_cons in H as [H|H].
  - destruct (secondaryContact_nullish _ H) as [msg ->]. simpl. eauto.
  - destruct (secondaryContact contact); simpl; eauto.
Qed.

Lemma pushSecondary_nonnullish cc : forall contacts,
  Forall (fun contact => nullish contact = false) cc ->
  exists added, pushSecondary cc contacts = Ok (contacts ++ added) /\
                List.length added = List.length cc /\
                Forall (fun x => getPropOpt x "isPrimary" = JBool false) added.
Proof.
  induction cc as [|contact rest IH]; intros contacts H; simpl.
  - exists []. by rewrite app_nil_r.
  - apply Forall_cons in H as [Hc Hrest].
    destruct (secondaryContact_nonnullish _ Hc) as (o & -> & Ho). simpl.
    destruct (IH (contacts ++ [JObj o]) Hrest) as (added & -> & Hlen & Hall).
    exists (JObj o :: added). rewrite <- app_assoc. simpl.
    split; [done|]. split; [by rewrite Hlen|]. by constructor.
Qed.

Lemma primaryContact_truthy primary :
  truthy primary = true ->
  exists o, primaryContact primary = Ok (JObj o) /\
            lookupProp o "isPrimary" = JBool true.
Proof.
  intros H%truthy_nonnullish. unfold primaryContact.
  rewrite !(getProp_nonnullish primary) by done. simpl. eauto.
Qed.

(** X8. The additional contacts of the primary detail decide whether the
    claim has a record at all. For a claim that was found and whose primary
    detail has a truthy propcontacts with an array cc: if an element of cc is
    [null] or [undefined], [fetchClaimDetails] throws, although the search
    and the primary detail call succeeded; otherwise it returns a record
    whose contacts are the primary contact, when there is one, flagged
    isPrimary [true], followed by one contact for each element of cc, in
    order, flagged isPrimary [false]. *)
Theorem fetchClaimDetails_contacts w c status statusText searchData Claims
    claimInfo claimId claimUuid fullDetails propcontacts cc :
  search w (fileNumber c) = Responded true status statusText (Ok searchData) ->
  claimNotFound searchData = Ok false ->
  getProp searchData "Claims" = Ok Claims ->
  getIndex Claims 0 = Ok claimInfo ->
  getProp claimInfo "id" = Ok claimId ->
  getProp claimInfo "uuid" = Ok claimUuid ->
  fetchApi w ("/api/claim/" +:+ toStr claimUuid) = Ok fullDetails ->
  getProp fullDetails "propcontacts" = Ok propcontacts ->
  truthy propcontacts = true ->
  getProp propcontacts "cc" = Ok (JArr cc) ->
  (Exists (fun contact => nullish contact = true) cc ->
   exists msg, fetchClaimDetails w c = Throw msg) /\
  (Forall (fun contact => nullish contact = false) cc ->
   exists d first others,
     fetchClaimDetails w c = Ok (JObj d) /\
     lookupProp d "contacts" = JArr (first ++ others) /\
     List.length first = (if truthy (getPropOpt propcontacts "c") then 1 else 0) /\
     Forall (fun x => getPropOpt x "isPrimary" = JBool true) first /\
     List.length others = List.length cc /\
     Forall (fun x => getPropOpt x "isPrimary" = JBool false) others).
Proof.
  intros Hs Hnf HC Hi Hid Huuid Hfull Hpc Htpc Hcc.
  rewrite (fetchClaimDetails_found _ _ _ _ _ _ _ _ _ Hs Hnf HC Hi Hid Huuid).
  rewrite Hfull. simpl.
  assert (truthy fullDetails = true) as Htf.
  { destruct fullDetails; simpl in Hpc; try done; by injection Hpc as <-. }
  unfold mergeFullDetails. rewrite Htf, Hpc. simpl.
  unfold extractContacts. rewrite Htpc.
  rewrite (getProp_nonnullish propcontacts "c") by by apply truthy_nonnullish.
  simpl.
  assert (exists first,
            (if truthy (getPropOpt propcontacts "c")
             then p ← primaryContact (getPropOpt propcontacts "c"); mret [p]
             else mret []) = Ok first /\
            List.length first
            = (if truthy (getPropOpt propcontacts "c") then 1 else 0) /\
            Forall (fun x => getPropOpt x "isPrimary" = JBool true) first)
    as (first & -> & Hlen & Hfirst).
  { destruct (truthy (getPropOpt propcontacts "c")) eqn:Htc.
    - destruct (primaryContact_truthy _ Htc) as (o & -> & Ho). simpl.
      exists [JObj o]. repeat split. by constructor.
    - by exists []. }
  simpl. rewrite Hcc. simpl. split.
  - intros Hnull. destruct (pushSecondary_nullish cc first Hnull) as [msg ->].
    simpl. eauto.
  - intros Hall.
    destruct (pushSecondary_nonnullish cc first Hall) as (others & -> & Hlo & Hothers).
    simpl.
    destruct (getProp fullDetails "personnel") as [personnel|] eqn:Hp; simpl;
      [|by destruct fullDetails].
    destruct (getProp fullDetails "phases") as [phases|] eqn:Hph; simpl;
      [|by destruct fullDetails].
    eexists _, first, others. split; [done|].
    split; [|done].
    rewrite fanOut_keeps by other_key.
    destruct (truthy phases), (truthy personnel);
      rewrite ?lookupProp_setProp_ne by done; done.
Qed.

(** The theorem on a service whose primary detail lists [null] among the
    additional contacts: the claim has no record. *)
Lemma fetchClaimDetails_contacts_witness :
  exists msg, fetchClaimDetails nullContactWorld (Claim "A1" 1) = Throw msg.
Proof.
  eapply (proj1 (fetchClaimDetails_contacts nullContactWorld (Claim "A1" 1)
                   200 "OK" _ _ _ _ (JStr "u1") _ _ [JObj [("id", JNum 8)]; JNull]
                   eq_refl eq_refl eq_refl eq_refl eq_refl eq_refl eq_refl
                   eq_refl eq_refl eq_refl)).
  apply Exists_cons_tl, Exists_cons_hd. reflexivity.
Defined.

(** *** The folder walk *)

Lemma isOpenFolder_nonnullish item :
  nullish item = false -> isOpenFolder item = Ok (isOpenFolderItem item).
Proof.
  intros H. unfold isOpenFolderItem, isOpenFolder.
  rewrite !(getProp_nonnullish item) by done. simpl.
  by repeat (destruct (truthy _); simpl; [|done]).
Qed.

Lemma isFile_nonnullish item :
  nullish item = false -> isFile item = Ok (isFileItem item).
Proof.
  intros H. unfold isFileItem, isFile.
  rewrite !(getProp_nonnullish item) by done. simpl.
  by destruct (truthy _).
Qed.

Lemma collectFiles_nonnullish recurse items : forall allFiles log,
  Forall (fun item => nullish item = false) items ->
  (collectFiles recurse items allFiles log).1
  = Ok (allFiles ++
        List.concat (map (fun item =>
                       if isOpenFolderItem item
                       then (recurse (getPropOpt item "key")).1
                       else if isFileItem item then [item] else []) items)).
Proof.
  induction items as [|item rest IH]; intros allFiles log H; simpl.
  { by rewrite app_nil_r. }
  apply Forall_cons in H as [Hitem Hrest].
  rewrite (isOpenFolder_nonnullish _ Hitem).
  destruct (isOpenFolderItem item).
  - rewrite (getProp_nonnullish _ _ Hitem).
    destruct (recurse (getPropOpt item "key")) as [folderFiles calls]. simpl.
    by rewrite IH, app_assoc.
  - rewrite (isFile_nonnullish _ Hitem).
    destruct (isFileItem item); rewrite IH by done; [by rewrite <- app_assoc|done].
Qed.

Lemma collectFiles_nullish recurse items : forall allFiles log,
  Exists (fun item => nullish item = true) items ->
  exists msg, (collectFiles recurse items allFiles log).1 = Throw msg.
Proof.
  induction items as [|item rest IH]; intros allFiles log H; [by inversion H|].
  simpl. apply Exists_cons in H as [H|H].
  - unfold isOpenFolder. destruct (getProp_nullish item "folder" H) as [msg ->].
    simpl. eauto.
  - destruct (isOpenFolder item) as [[|]|]; simpl; eauto.
    + destruct (getProp item "key"); simpl; eauto.
      destruct (recurse _). eauto.
    + destruct (isFile item) as [[|]|]; simpl; eauto.
Qed.

Lemma orEmpty_Ok r files : r.1 = Ok files -> (orEmpty r).1 = files.
Proof. destruct r as [[|] ?]; simpl; congruence. Qed.

Lemma orEmpty_Throw r msg : r.1 = Throw msg -> (orEmpty r).1 = [].
Proof. destruct r as [[|] ?]; simpl; congruence. Qed.

(** X9. The files of a folder walk are those of its listing, in the order
    of the listing and depth first: when the walk is not deeper than the
    maximum and the listing is an array without [null] or [undefined]
    element, each item contributes, in place, the files of the walk one
    level deeper into its key when it is a folder with children and a key
    other than ATTACHMENTS, itself when it is a file, and nothing
    otherwise. *)
Theorem fetchAllFiles_depth_first w claimId folderKey depth items :
  depth <= maxDepth ->
  fetchApi w (filesEndpoint claimId folderKey) = Ok (JArr items) ->
  Forall (fun item => nullish item = false) items ->
  (fetchAllFiles w claimId folderKey depth).1
  = List.concat (map (filesOfItem w claimId depth) items).
Proof.
  intros Hd Hitems Hall. rewrite fetchAllFiles_unfold.
  destruct (decide (maxDepth < depth)); [lia|].
  rewrite Hitems. erewrite orEmpty_Ok; [|by apply collectFiles_nonnullish]. done.
Qed.

(** The theorem at the deepest level of the cyclic service, where the
    folder contributes nothing. *)
Lemma fetchAllFiles_depth_first_witness :
  (fetchAllFiles cyclicWorld (JNum 1) (JStr "F") 5).1
  = List.concat (map (filesOfItem cyclicWorld (JNum 1) 5)
                   [folderF; fileNamed "b.pdf" "k2"]).
Proof.
  apply fetchAllFiles_depth_first.
  - unfold maxDepth. lia.
  - reflexivity.
  - repeat constructor.
Defined.

(** X10. One unreadable item costs the whole listing: when the listing of a
    walk has a [null] or [undefined] element, the walk returns no file at
    all, neither the files listed before that element nor those of the
    folders entered before it. *)
Theorem fetchAllFiles_unreadable_item w claimId folderKey depth items :
  fetchApi w (filesEndpoint claimId folderKey) = Ok (JArr items) ->
  Exists (fun item => nullish item = true) items ->
  (fetchAllFiles w claimId folderKey depth).1 = [].
Proof.
  intros Hitems Hnull. rewrite fetchAllFiles_unfold.
  destruct (decide (maxDepth < depth)); [done|].
  rewrite Hitems.
  edestruct (collectFiles_nullish
               (fun key => fetchAllFiles w claimId key (depth + 1)) items)
    as [msg Hmsg]; [done|].
  by erewrite orEmpty_Throw.
Qed.

(** The theorem on a listing of one file followed by [null]. *)
Lemma fetchAllFiles_unreadable_item_witness :
  (fetchAllFiles
     {| search := fun _ => Rejected "Failed to fetch";
        get := fun _ => okJson (JArr [fileNamed "a.pdf" "k1"; JNull]) |}
     (JNum 1) JNull 0).1 = [].
Proof.
  apply (fetchAllFiles_unreadable_item _ _ _ _ [fileNamed "a.pdf" "k1"; JNull]).
  - reflexivity.
  - apply Exists_cons_tl, Exists_cons_hd. reflexivity.
Defined.

End FetchExtra.

(** ** More on the run of the export *)

Module RunExtra.
Import Js JsVal Csv Fetcher Driver DriverFacts MachineFacts FetcherFacts.
Import FetchNotions FetchExtra RunNotions.

(** The claim data of the loop is a record made for the file number of its
    claim, fetched or not. *)
Lemma claimDataFor_labelled w c : labelled (fileNumber c) (claimDataFor w c).
Proof.
  unfold claimDataFor.
  destruct (fetchClaimDetails w c) as [record|msg] eqn:Hf; [|by eexists].
  apply fetchClaimDetails_Ok_inv in Hf
    as (status & statusText & searchData & Claims & claimInfo & claimId &
        claimUuid & fullDetails & r & _ & _ & _ & _ & _ & _ & _ & Hr & ->).
  eexists. split; [done|]. rewrite fanOut_keeps by other_key.
  by rewrite (mergeFullDetails_keeps _ _ _ "fileNumber" ltac:(other_key) Hr).
Qed.

Section Invariant.
Context (csvText : string) (testMode : bool).










End Invariant.









(** *** Resumed and uninterrupted runs *)

Lemma fetchClaimDetails_fileNumber w c1 c2 :
  fileNumber c1 = fileNumber c2 -> fetchClaimDetails w c1 = fetchClaimDetails w c2.
Proof. intros H. unfold fetchClaimDetails. by rewrite H. Qed.

(** X19. A resumed run stores what the uninterrupted run would have stored,
    up to the row index of the error records. For a ledger that holds the
    file numbers of the claims, at every index from the counter on: when the
    fetch of the claim succeeds, the resumed run and the run from the parsed
    claims store the same record; when it throws, both store an error record
    with the same file number and message, the one of the resumed run with
    the index in the ledger for rowIndex, that of the uninterrupted run with
    the row of the CSV. *)
Theorem resumeExport_agrees w claims s s' j i c :
  exportJob s' = Some j ->
  fileNumbers j = map fileNumber claims ->
  completedCount j <= i ->
  claims !! i = Some c ->
  let full := (processClaimsList w claims 0 s).1 in
  let resumed := (resumeExport w s').1 in
  match fetchClaimDetails w c with
  | Ok record =>
      exportedClaim full !! i = Some record /\
      exportedClaim resumed !! i = Some record
  | Throw msg =>
      exportedClaim full !! i = Some (errorRecord c msg) /\
      exportedClaim resumed !! i = Some (errorRecord (Claim (fileNumber c) i) msg)
  end.
Proof.
  intros Hjob Hfns Hcount Hc full resumed.
  assert (i < List.length claims) as Hi by by eapply lookup_lt_Some.
  assert (exportedClaim full !! i = Some (claimDataFor w c)) as Hfull.
  { destruct (processClaimsList_spec w claims 0 s) as (_ & _ & _ & _ & Hin & _).
    unfold full. rewrite Hin by lia. by rewrite (claimAt_lookup _ _ _ Hc). }
  assert (exportedClaim resumed !! i
          = Some (claimDataFor w (Claim (fileNumber c) i))) as Hres.
  { unfold resumed, resumeExport. rewrite Hjob.
    destruct (processClaimsList_spec w (rebuildClaims (fileNumbers j))
                (completedCount j) s') as (_ & _ & _ & _ & Hin & _).
    rewrite rebuildClaims_length, Hfns, length_map in Hin.
    rewrite Hfns, Hin by lia. f_equal. f_equal.
    apply claimAt_lookup, rebuildClaims_lookup.
    by rewrite list_lookup_fmap, Hc. }
  unfold claimDataFor in Hfull, Hres.
  rewrite (fetchClaimDetails_fileNumber w (Claim (fileNumber c) i) c) in Hres by done.
  by destruct (fetchClaimDetails w c).
Qed.

(** The theorem on the second claim of the run closed while its first
    record is being saved: resumed, its error record has row index 1, the
    uninterrupted run gives it row index 2. *)
Lemma resumeExport_agrees_witness :
  exportedClaim
    (processClaimsList refusingWorld [Claim "A1" 1; Claim "B2" 2] 0 emptyStorage).1 !! 1
  = Some (errorRecord (Claim "B2" 2) "Search failed: 500") /\
  exportedClaim (resumeExport refusingWorld (store closed_while_saving)).1 !! 1
  = Some (errorRecord (Claim "B2" 1) "Search failed: 500").
Proof.
  apply (resumeExport_agrees refusingWorld [Claim "A1" 1; Claim "B2" 2]
           emptyStorage (store closed_while_saving)
           (Job ["A1"; "B2"] 2 0 false) 1 (Claim "B2" 2)).
  - reflexivity.
  - reflexivity.
  - simpl. lia.
  - reflexivity.
Defined.



End RunExtra.

(** ** More on the export assembler *)

Module AssemblerExtra.
Import Js JsFacts JsVal Csv Fetcher Driver DriverFacts MachineFacts.
Import Json JsonFacts Assembler AssemblerFacts RunNotions RunExtra AssemblerNotions.

(** The inner loop writes the lines of the truthy values its batch holds. *)
Lemma appendClaims_present batchData indices : forall batchStr isFirst,
  let recs := filter (fun r => truthy r = true) (omap (fun i => batchData !! i) indices) in
  appendClaims batchData indices batchStr isFirst
  = (batchStr +:+ recordLines isFirst recs,
     match recs with [] => isFirst | _ => false end).
Proof.
  induction indices as [|i indices IH]; intros batchStr isFirst; simpl.
  { by rewrite sapp_nil_r. }
  destruct (batchData !! i) as [r|] eqn:Hr; simpl; [|apply IH].
  destruct (truthy r) eqn:Ht.
  - rewrite filter_cons_True by done. rewrite IH. cbv zeta. simpl.
    f_equal; [|by destruct (filter _ _)].
    unfold recordLine. destruct isFirst; by snorm.
  - rewrite filter_cons_False by (by rewrite Ht). apply IH.
Qed.

Lemma omap_getClaims keys s : forall l : list nat,
  (forall i, i ∈ l -> i ∈ keys) ->
  omap (fun i => getClaims keys s !! i) l = omap (fun i => exportedClaim s !! i) l.
Proof.
  induction l as [|i l IH]; intros Hl; [done|]. simpl.
  rewrite getClaims_lookup by (apply Hl; by left).
  assert (forall k, k ∈ l -> k ∈ keys) as Hl' by (intros k Hk; apply Hl; by right).
  destruct (exportedClaim s !! i); [f_equal|]; by apply IH.
Qed.

Lemma presentRecords_app s a n1 n2 :
  presentRecords s a (n1 + n2) = presentRecords s a n1 ++ presentRecords s (a + n1) n2.
Proof. unfold presentRecords. by rewrite rangeRecords_app, filter_app. Qed.

(** The outer loop on any store: the text grows by the lines of the truthy
    values stored from [batchStart] on. *)
Lemma batches_present s count :
  forall n batchStart st, count - batchStart <= n ->
  let r := batches s count batchStart st in
  let recs := presentRecords s batchStart (count - batchStart) in
  blobText (blobParts r) = blobText (blobParts st) +:+ recordLines (isFirstClaim st) recs /\
  isFirstClaim r = match recs with [] => isFirstClaim st | _ => false end.
Proof.
  induction n as [|n IH]; intros batchStart st Hn;
    rewrite batches_unfold;
    (destruct (decide (batchStart < count)) as [Hlt|Hge];
       [|replace (count - batchStart) with 0 by lia; simpl;
         by rewrite sapp_nil_r]); [lia|].
  cbv zeta.
  set (batchEnd := (batchStart + LOAD_BATCH_SIZE) `min` count).
  rewrite appendClaims_present. cbv zeta.
  rewrite omap_getClaims by done.
  change (filter _ (omap _ (seq batchStart (batchEnd - batchStart))))
    with (presentRecords s batchStart (batchEnd - batchStart)).
  set (recs1 := presentRecords s batchStart (batchEnd - batchStart)).
  cbn [fst snd]. rewrite sapp_nil_l.
  set (st' := Assembling _ _ _).
  destruct (IH (batchStart + LOAD_BATCH_SIZE) st') as [Htext Hfirst].
  { unfold LOAD_BATCH_SIZE. lia. }
  assert (blobText (blobParts st')
          = blobText (blobParts st) +:+ recordLines (isFirstClaim st) recs1) as Hparts.
  { unfold st'. simpl. case_decide as Hlen.
    - apply blobText_snoc.
    - apply length_0_empty in Hlen. by rewrite Hlen, sapp_nil_r. }
  assert (count - batchStart
          = (batchEnd - batchStart) + (count - (batchStart + LOAD_BATCH_SIZE))) as Hsplit
    by (unfold batchEnd, LOAD_BATCH_SIZE; lia).
  assert (presentRecords s (batchStart + (batchEnd - batchStart))
            (count - (batchStart + LOAD_BATCH_SIZE))
          = presentRecords s (batchStart + LOAD_BATCH_SIZE)
              (count - (batchStart + LOAD_BATCH_SIZE))) as Hrest.
  { destruct (decide (batchStart + LOAD_BATCH_SIZE < count)).
    - f_equal. unfold batchEnd. lia.
    - by replace (count - (batchStart + LOAD_BATCH_SIZE)) with 0 by lia. }
  rewrite Hsplit at 1 2. rewrite presentRecords_app, Hrest.
  split.
  - rewrite Htext, Hparts, recordLines_app, sapp_assoc. done.
  - rewrite Hfirst. unfold st'. simpl. fold recs1.
    destruct recs1; [done|]. by destruct (presentRecords _ _ _).
Qed.

(** The text around the lines of the records denotes the document whose
    claims the array text denotes. *)
Lemma document_denotes_array now isPartial count total inner recs :
  all_plain now = true ->
  denotes (claimsArray inner) (JArr (map clean recs)) ->
  denotes (preamble +:+ inner +:+ footer now isPartial count total)
          (exportDocument now isPartial count total recs).
Proof.
  intros Hnow Hclaims. unfold exportDocument.
  set (claimsText := claimsArray inner) in *.
  set (dataText :=
    "{" +:+ join ","
      [memberLine "    " "claims" claimsText EmptyString;
       memberLine "    " "exportDate" (quoted now) EmptyString;
       memberLine "    " "exportMethod" (quoted "chrome-extension") (nl +:+ "  ")]
    +:+ "}").
  assert (denotes dataText
            (JObj [("claims", JArr (map clean recs)); ("exportDate", JStr now);
                   ("exportMethod", JStr "chrome-extension")])) as Hdata.
  { apply denotes_obj; [done|].
    member_lines;
      by apply denotes_plain. }
  set (infoMembers (last : string) :=
    [memberLine "    " "date" (quoted now) EmptyString;
     memberLine "    " "version" (quoted "1.0.2") EmptyString;
     memberLine "    " "source" (quoted "chrome-extension") EmptyString;
     memberLine "    " "totalClaims" (pretty count) last]).
  assert (forall last, ws last = true ->
            Forall2 (member denotes) (infoMembers last)
              [("date", JStr now); ("version", JStr "1.0.2");
               ("source", JStr "chrome-extension");
               ("totalClaims", JNum (Z.of_nat count))]) as Hinfo.
  { intros last Hlast.
    member_lines;
      try (by apply denotes_plain).
    rewrite <- pretty_Z_of_nat. constructor. }
  destruct isPartial.
  - set (partialMembers :=
      [memberLine "    " "partial" "true" EmptyString;
       memberLine "    " "originalTotal" (pretty total) EmptyString;
       memberLine "    " "note" (quoted (partialNote count total)) (nl +:+ "  ")]).
    eapply (denotes_obj' _
      [memberLine "  " "claimWizardData" dataText EmptyString;
       memberLine "  " "exportInfo"
         ("{" +:+ join "," (infoMembers EmptyString ++ partialMembers) +:+ "}") nl]).
    + done.
    + member_lines.
      apply denotes_obj; [done|]. apply Forall2_app; [by apply Hinfo|].
      member_lines.
      * constructor.
      * rewrite <- pretty_Z_of_nat. constructor.
      * apply denotes_plain, all_plain_partialNote.
    + unfold dataText, claimsText, claimsArray, infoMembers, partialMembers.
      cbn [join app].
      unfold preamble, footer, memberLine, quoted, nl, chr. by snorm.
  - eapply (denotes_obj' _
      [memberLine "  " "claimWizardData" dataText EmptyString;
       memberLine "  " "exportInfo"
         ("{" +:+ join "," (infoMembers (nl +:+ "  ")) +:+ "}") nl]).
    + done.
    + member_lines.
      apply denotes_obj; [done|]. rewrite app_nil_r. by apply Hinfo.
    + unfold dataText, claimsText, claimsArray, infoMembers.
      cbn [join app].
      unfold preamble, footer, memberLine, quoted, nl, chr. by snorm.
Qed.

Lemma claimsArray_denotes recs :
  Forall (fun r => truthy r = true) recs ->
  denotes (claimsArray (recordLines true recs)) (JArr (map clean recs)).
Proof.
  intros Hrecs. destruct (decide (recs = [])) as [->|Hne].
  - apply denotes_arr_empty. done.
  - unfold claimsArray.
    replace (nl +:+ recordLines true recs +:+ nl +:+ "    ")
      with (join "," (recordElements recs)) by by rewrite recordElements_join.
    apply denotes_arr; [by destruct recs as [|? [|? ?]]|].
    by apply recordElements_denote.
Qed.

Lemma presentRecords_truthy s a n :
  Forall (fun r => truthy r = true) (presentRecords s a n).
Proof. apply Forall_forall. intros r Hr. by apply list_elem_of_filter in Hr as [? _]. Qed.

Lemma rangeRecords_length s : forall n a, List.length (rangeRecords s a n) <= n.
Proof.
  unfold rangeRecords. induction n as [|n IH]; intros a; simpl; [done|].
  destruct (exportedClaim s !! a); simpl.
  - apply le_n_S, IH.
  - etrans; [apply IH|lia].
Qed.

Lemma presentRecords_length s a n : List.length (presentRecords s a n) <= n.
Proof.
  unfold presentRecords. etrans; [apply length_filter|]. apply rangeRecords_length.
Qed.

(** The assembler on any store with a ledger whose counter is not 0. *)
Lemma downloadFromStorage_present now isPartial s j :
  exportJob s = Some j -> 0 < completedCount j -> all_plain now = true ->
  exists parts first reads,
    downloadFromStorage now isPartial s = Some (Assembling parts first reads) /\
    denotes (blobText parts)
      (exportDocument now isPartial (completedCount j) (total j)
         (presentRecords s 0 (completedCount j))) /\
    (first = true <-> presentRecords s 0 (completedCount j) = []).
Proof.
  intros Hjob Hpos Hnow. unfold downloadFromStorage. rewrite Hjob.
  rewrite decide_False by lia.
  destruct (batches_present s (completedCount j) (completedCount j) 0
              (Assembling [preamble] true []) ltac:(lia)) as [Htext Hfirst].
  cbn [blobParts isFirstClaim] in Htext, Hfirst.
  rewrite blobText_single, Nat.sub_0_r in Htext. rewrite Nat.sub_0_r in Hfirst.
  eexists _, _, _. split; [done|]. split.
  - rewrite blobText_snoc, Htext, sapp_assoc.
    apply document_denotes_array; [done|].
    apply claimsArray_denotes, presentRecords_truthy.
  - rewrite Hfirst. by destruct (presentRecords _ _ _).
Qed.

(** X15. The assembler on any store. Whatever the store holds, when the
    ledger is there with a counter of at least 1 and the text of the clock
    has no quote, backslash or control character, the parts of the download
    make a JSON text. Its claims are the truthy values stored at the indices
    below the counter, in index order, written as they read back; an index
    without a record is skipped, so the claims can be fewer than the
    counter, while totalClaims is the counter all the same. *)
Theorem downloadFromStorage_any_store now isPartial s j :
  exportJob s = Some j ->
  0 < completedCount j ->
  all_plain now = true ->
  let c := completedCount j in
  let recs := filter (fun r => truthy r = true) (storedRecords s c) in
  let doc := exportDocument now isPartial c (total j) recs in
  exists parts first reads,
    downloadFromStorage now isPartial s = Some (Assembling parts first reads) /\
    denotes (blobText parts) doc /\
    valid_json (blobText parts) /\
    List.length recs <= c /\
    (forall r, r ∈ recs <->
       truthy r = true /\ exists i, i < c /\ exportedClaim s !! i = Some r) /\
    exportInfo doc "totalClaims" = JNum (Z.of_nat c).
Proof.
  intros Hjob Hpos Hnow c recs doc.
  destruct (downloadFromStorage_present now isPartial s j Hjob Hpos Hnow)
    as (parts & first & reads & Hd & Hdoc & _).
  exists parts, first, reads. split; [done|]. split; [exact Hdoc|].
  split; [eexists; apply padded_bare, Hdoc|].
  split; [apply presentRecords_length|]. split; [|by destruct isPartial].
  intros r. unfold recs, storedRecords. rewrite list_elem_of_filter.
  rewrite list_elem_of_omap. split.
  - intros [Ht (i & Hi%elem_of_seq & Hr)]. split; [done|]. exists i. split; [lia|done].
  - intros [Ht (i & Hi & Hr)]. split; [done|]. exists i. split; [|done].
    apply elem_of_seq. lia.
Qed.

(** The theorem on a store whose counter is 3 and that has no record at
    index 1: the document has two claims and a totalClaims of 3. *)
Lemma downloadFromStorage_any_store_witness :
  let recs := [JObj [("fileNumber", JStr "A1")]; JObj [("fileNumber", JStr "C3")]] in
  let doc := exportDocument "2026-11-02T10:00:00.000Z" false 3 3 recs in
  exists parts first reads,
    downloadFromStorage "2026-11-02T10:00:00.000Z" false gap_store
    = Some (Assembling parts first reads) /\
    denotes (blobText parts) doc /\
    exportInfo doc "totalClaims" = JNum 3.
Proof.
  destruct (downloadFromStorage_any_store "2026-11-02T10:00:00.000Z" false
              gap_store (Job ["A1"; "B2"; "C3"] 3 3 false))
    as (parts & first & reads & Hd & Hdoc & _ & _ & _ & Htotal).
  - reflexivity.
  - simpl. lia.
  - reflexivity.
  - by exists parts, first, reads.
Defined.

Lemma filter_all_truthy (l : list js) :
  Forall (fun r => truthy r = true) l -> filter (fun r => truthy r = true) l = l.
Proof.
  induction 1 as [|r l Hr Hl IH]; [done|].
  rewrite filter_cons_True by done. by rewrite IH.
Qed.

Lemma presentRecords_checkpointed s c :
  checkpointed s c -> presentRecords s 0 c = storedRecords s c.
Proof.
  intros Hcp. apply filter_all_truthy.
  apply (rangeRecords_truthy s c 0 c Hcp). lia.
Qed.




(** The run to the end on an empty store, then the download. *)
Lemma run_then_download w csvText testMode claims now :
  parseCsv csvText = Ok claims ->
  claims <> [] ->
  all_plain now = true ->
  let toProcess := claimsToProcess claims testMode in
  let n := List.length toProcess in
  0 < n /\
  exists parts first reads,
    downloadFromStorage now false
      (processCsvAndFetchData w csvText testMode emptyStorage).1
    = Some (Assembling parts first reads) /\
    denotes (blobText parts)
      (exportDocument now false n n (map (claimDataFor w) toProcess)).
Proof.
  intros Hparse Hne Hnow toProcess n.
  assert (0 < n) as Hn.
  { unfold n, toProcess, claimsToProcess.
    destruct claims; [done|]. destruct testMode; simpl; lia. }
  split; [done|].
  unfold processCsvAndFetchData.
  rewrite (prepare_Ok _ _ _ Hparse Hne). fold toProcess.
  destruct (processClaimsList_spec w toProcess 0
              (setJob (newJob toProcess testMode) emptyStorage))
    as (_ & _ & _ & _ & Hin & _ & Hjob).
  set (r := processClaimsList w toProcess 0 _) in *.
  fold n in Hin, Hjob. rewrite decide_True in Hjob by done. simpl in Hjob.
  assert (checkpointed r.1 n) as Hcp.
  { intros i Hi. rewrite Hin by lia.
    destruct (claimDataFor_labelled w (claimAt toProcess i)) as (o & -> & _). eauto. }
  assert (storedRecords r.1 n = map (claimDataFor w) toProcess) as Hrecs.
  { apply list_eq. intros i. destruct (decide (i < n)) as [Hi|Hi].
    - rewrite storedRecords_lookup, Hin, list_lookup_fmap by (done || lia).
      destruct (lookup_lt_is_Some_2 toProcess i Hi) as [c Hc].
      by rewrite Hc, (claimAt_lookup _ _ _ Hc).
    - rewrite !lookup_ge_None_2; [done|rewrite length_map; fold n; lia|].
      destruct (rangeRecords_truthy r.1 n 0 n Hcp ltac:(lia)) as [Hlen _].
      unfold storedRecords. fold (rangeRecords r.1 0 n). lia. }
  destruct (downloadFromStorage_present now false r.1 _ Hjob ltac:(simpl; lia) Hnow)
    as (parts & first & reads & Hd & Hdoc & _).
  simpl in Hdoc. fold n in Hdoc.
  rewrite (presentRecords_checkpointed _ _ Hcp), Hrecs in Hdoc.
  by exists parts, first, reads.
Qed.

(** X17. From the CSV to the document. When the CSV parses to at least one
    identifier, the export run to its end on an empty store, followed by the
    download, makes a JSON text whose claims are, in the order of the CSV,
    the claim data of the identifiers processed (all of them, or the first
    one in test mode): for each, the record [fetchClaimDetails] returned or,
    when it threw, the error record with the file number, the row index and
    the message; totalClaims is their number, and no member marks the
    document as partial. *)
Theorem export_then_download w csvText testMode claims now :
  parseCsv csvText = Ok claims ->
  claims <> [] ->
  all_plain now = true ->
  let toProcess := claimsToProcess claims testMode in
  let n := List.length toProcess in
  let s := (processCsvAndFetchData w csvText testMode emptyStorage).1 in
  exists parts first reads claimData,
    downloadFromStorage now false s = Some (Assembling parts first reads) /\
    denotes (blobText parts) (exportDocument now false n n claimData) /\
    exportInfo (exportDocument now false n n claimData) "totalClaims"
    = JNum (Z.of_nat n) /\
    exportInfo (exportDocument now false n n claimData) "partial" = JUndefined /\
    List.length claimData = n /\ 0 < n /\
    forall i c, toProcess !! i = Some c ->
      claimData !! i
      = Some match fetchClaimDetails w c with
             | Ok record => record
             | Throw msg =>
                 JObj [("fileNumber", JStr (fileNumber c));
                       ("rowIndex", JNum (Z.of_nat (rowIndex c)));
                       ("error", JStr msg)]
             end.
Proof.
  intros Hparse Hne Hnow toProcess n s.
  destruct (run_then_download w csvText testMode claims now Hparse Hne Hnow)
    as (Hn & parts & first & reads & Hd & Hdoc).
  exists parts, first, reads, (map (claimDataFor w) toProcess).
  split; [done|]. split; [done|]. split; [done|]. split; [done|].
  split; [by rewrite length_map|]. split; [done|].
  intros i c Hc. by rewrite list_lookup_fmap, Hc.
Qed.

(** The theorem on the file of two identifiers. *)
Lemma export_then_download_witness :
  exists parts first reads claimData,
    downloadFromStorage "2026-11-02T10:00:00.000Z" false
      (processCsvAndFetchData refusingWorld two_claims_csv false emptyStorage).1
    = Some (Assembling parts first reads) /\
    denotes (blobText parts)
      (exportDocument "2026-11-02T10:00:00.000Z" false 2 2 claimData) /\
    claimData !! 1
    = Some (JObj [("fileNumber", JStr "B2"); ("rowIndex", JNum 2);
                  ("error", JStr "Search failed: 500")]).
Proof.
  destruct (export_then_download refusingWorld two_claims_csv false
              [Claim "A1" 1; Claim "B2" 2] "2026-11-02T10:00:00.000Z")
    as (parts & first & reads & claimData & Hd & Hdoc & _ & _ & _ & _ & Hrecs).
  - by vm_compute.
  - done.
  - reflexivity.
  - exists parts, first, reads, claimData. split; [exact Hd|]. split; [exact Hdoc|].
    apply (Hrecs 1 (Claim "B2" 2)). reflexivity.
Defined.

End AssemblerExtra.

(** ** The popup *)

Module PopupExtra.
Import Js JsFacts JsVal Csv Fetcher Driver DriverFacts MachineFacts.
Import Assembler RunNotions RunExtra Popup.

Lemma lookup_foldr_delete (m : gmap nat js) (l : list nat) (i : nat) :
  foldr delete m l !! i = if decide (i ∈ l) then None else m !! i.
Proof.
  induction l as [|k l IH].
  - by destruct (decide (i ∈ [])) as [H%elem_of_nil|].
  - cbn [foldr]. destruct (decide (k = i)) as [->|Hne].
    + rewrite lookup_delete_eq. by rewrite decide_True by by left.
    + rewrite lookup_delete_ne by done. rewrite IH.
      destruct (decide (i ∈ l)).
      * by rewrite decide_True by by right.
      * rewrite decide_False; [done|]. rewrite elem_of_cons. naive_solver.
Qed.

(** X20. Starting over removes the four keys of the export state and the
    claim keys below the total of the ledger, and no other: a claim key at
    or beyond that total, or any claim key when there is no ledger, is left
    in the store. After a run of the export started on an empty store,
    wherever it was interrupted, this leaves the store empty. *)
Theorem startOver_after_run :
  (forall s i,
     exportedClaim (startOver s) !! i
     = match exportJob s with
       | Some j => if decide (i < total j) then None else exportedClaim s !! i
       | None => exportedClaim s !! i
       end) /\
  (forall w csvText testMode st,
     reachable w csvText testMode st -> startOver (store st) = emptyStorage).
Proof.
  assert (forall s i,
     exportedClaim (startOver s) !! i
     = match exportJob s with
       | Some j => if decide (i < total j) then None else exportedClaim s !! i
       | None => exportedClaim s !! i
       end) as Hlookup.
  { intros s i. unfold startOver, keysToRemove. simpl. rewrite lookup_foldr_delete.
    destruct (exportJob s) as [j|].
    - destruct (decide (i < total j)).
      + rewrite decide_True; [done|]. apply elem_of_seq. lia.
      + rewrite decide_False; [done|]. rewrite elem_of_seq. lia.
    - by destruct (decide (i ∈ [])) as [H%elem_of_nil|]. }
  split; [exact Hlookup|].
  intros w csvText testMode st (m & Hkeys & _ & Hjob)%reachable_ledger_inv.
  assert (exportedClaim (startOver (store st)) = ∅) as Hempty.
  { apply map_eq. intros i. rewrite lookup_empty, Hlookup.
    assert (m <= i -> exportedClaim (store st) !! i = None) as Hout.
    { intros Hi. apply not_elem_of_dom. fold (storedKeys (store st)).
      rewrite Hkeys, elem_of_set_seq. lia. }
    destruct (exportJob (store st)) as [j|].
    - destruct (decide (i < total j)); [done|]. apply Hout. lia.
    - apply Hout. lia. }
  unfold startOver in *. simpl in Hempty. by rewrite Hempty.
Qed.

(** The theorem on the run closed while its first record is being saved. *)
Lemma startOver_after_run_witness :
  startOver (store closed_while_saving) = emptyStorage.
Proof.
  apply (proj2 startOver_after_run refusingWorld two_claims_csv false).
  unfold reachable, closed_while_saving.
  eapply rtc_l; [by apply step_driver; vm_compute|].
  eapply rtc_l; [by apply step_driver; vm_compute|].
  eapply rtc_l; [apply step_page_closed|].
  apply rtc_refl.
Defined.






(** *** The name of the file *)

Lemma timestamp_date date rest :
  allDateChars date = true -> timestamp (date +:+ String "T" rest) = date.
Proof.
  unfold timestamp. induction date as [|c date IH]; simpl; [done|].
  unfold dateChar. intros H. apply andb_true_iff in H as [Hc Hd].
  apply andb_true_iff in Hc as [Hc Hdot]. apply andb_true_iff in Hc as [HT Hcolon].
  apply negb_true_iff in HT, Hcolon, Hdot. rewrite Hcolon, Hdot. simpl.
  rewrite HT. by rewrite IH.
Qed.

Lemma timestamp_allDateChars stamp : allDateChars (timestamp stamp) = true.
Proof.
  unfold timestamp. induction stamp as [|c stamp IH]; simpl; [done|].
  destruct (Ascii.eqb c ":") eqn:Hcolon; simpl.
  { by rewrite IH. }
  destruct (Ascii.eqb c ".") eqn:Hdot; simpl.
  { by rewrite IH. }
  destruct (Ascii.eqb c "T") eqn:HT; [done|]. simpl.
  unfold dateChar. by rewrite HT, Hcolon, Hdot, IH.
Qed.

(** X25. The downloaded file is named after the day. When the time stamp is
    a date, free of colon, dot and T, followed by T and the time, as the ISO
    format has it, the name is claims-export- followed by the date and
    .json, with partial-, the count, of and the total before the date in a
    partial download. Whatever the time stamp, the part of the name taken
    from it has no colon, no dot and no T. *)
Theorem filename_date isPartial count total :
  (forall date time,
     allDateChars date = true ->
     filename isPartial count total (date +:+ String "T" time)
     = if isPartial
       then "claims-export-partial-" +:+ pretty count +:+ "of" +:+ pretty total +:+
            "-" +:+ date +:+ ".json"
       else "claims-export-" +:+ date +:+ ".json") /\
  (forall stamp,
     allDateChars (timestamp stamp) = true /\
     filename isPartial count total stamp
     = (if isPartial
        then "claims-export-partial-" +:+ pretty count +:+ "of" +:+ pretty total +:+ "-"
        else "claims-export-") +:+ timestamp stamp +:+ ".json").
Proof.
  split.
  - intros date time Hdate. unfold filename. by rewrite timestamp_date.
  - intros stamp. split; [apply timestamp_allDateChars|].
    unfold filename. destruct isPartial; [|done]. by snorm.
Qed.

(** The theorem on a partial download of 2 claims of 5. *)
Lemma filename_date_witness :
  filename true 2 5 "2026-11-02T10:00:00.000Z"
  = "claims-export-partial-2of5-2026-11-02.json".
Proof.
  exact (proj1 (filename_date true 2 5) "2026-11-02" "10:00:00.000Z" eq_refl).
Defined.

End PopupExtra.

(** ** The resumable export against the export kept in memory *)

Module InMemoryExtra.
Import Js JsFacts JsVal Csv Fetcher Driver DriverFacts MachineFacts.
Import Json JsonFacts Assembler AssemblerFacts RunNotions RunExtra.
Import AssemblerNotions AssemblerExtra.





End InMemoryExtra.
